(** * Podcast generator: workflow, line audio cache, assembly and persistence

    A shallow embedding of [app.py] (the Streamlit workflow) and [database.py]
    (the SQLite store).  Session state is an explicit record threaded through
    every handler; a Python exception is a [Raised] outcome returned together
    with the state as it stands when the exception leaves the handler. *)

From Stdlib Require Import ZArith QArith Ascii String DecimalString Decimal DecimalNat Lia.
From Stdlib.Strings Require Import Byte.
From stdpp Require Import base option list strings gmap.

Local Open Scope string_scope.
Local Open Scope list_scope.
Local Open Scope Z_scope.

(** ** Python exceptions and outcomes *)

Inductive exn : Type :=
| KeyError
| IndexError
| ValueError
| TypeError
| AttributeError
| SynthesisError
| CouldntDecodeError
| DatabaseError
| DuplicateWidgetID.

Inductive outcome (A : Type) : Type :=
| Ok (a : A)
| Raised (e : exn).
Arguments Ok {A} a.
Arguments Raised {A} e.

(** Sequencing: the first exception raised ends the computation. *)
#[global] Instance outcome_ret : MRet outcome := fun A a => Ok a.
#[global] Instance outcome_bind : MBind outcome := fun A B k m =>
  match m with
  | Ok a => k a
  | Raised e => Raised e
  end.

Definition of_option {A} (e : exn) (o : option A) : outcome A :=
  match o with
  | Some a => Ok a
  | None => Raised e
  end.

(** ** Python strings

    A [str] is held as its UTF-8 encoding, one [ascii] per octet: equality,
    concatenation, prefix and substring tests on the encoding are those on
    the text. *)

Definition chars (s : string) : list ascii := list_ascii_of_string s.
Definition str_of (cs : list ascii) : string := string_of_list_ascii cs.

(** [str.isspace] for a character of one octet: TAB, LF, VT, FF, CR, FS, GS,
    RS, US, SPACE. *)
Definition is_space (c : ascii) : bool :=
  let n := nat_of_ascii c in
  ((9 <=? n)%nat && (n <=? 13)%nat) || ((28 <=? n)%nat && (n <=? 32)%nat).

(** The white space characters of two octets: U+0085 (C2 85) and U+00A0
    (C2 A0). *)
Definition is_space2 (a b : ascii) : bool :=
  Ascii.eqb a "194"%char && (Ascii.eqb b "133"%char || Ascii.eqb b "160"%char).

(** Those of three octets: U+1680 (E1 9A 80), U+2000 to U+200A (E2 80 80 to
    E2 80 8A), U+2028, U+2029 and U+202F (E2 80 A8, A9, AF), U+205F
    (E2 81 9F) and U+3000 (E3 80 80). *)
Definition is_space3 (a b c : ascii) : bool :=
  (Ascii.eqb a "225"%char && Ascii.eqb b "154"%char && Ascii.eqb c "128"%char) ||
  (Ascii.eqb a "226"%char && Ascii.eqb b "128"%char &&
   (((128 <=? nat_of_ascii c)%nat && (nat_of_ascii c <=? 138)%nat) ||
    Ascii.eqb c "168"%char || Ascii.eqb c "169"%char || Ascii.eqb c "175"%char)) ||
  (Ascii.eqb a "226"%char && Ascii.eqb b "129"%char && Ascii.eqb c "159"%char) ||
  (Ascii.eqb a "227"%char && Ascii.eqb b "128"%char && Ascii.eqb c "128"%char).

(** The number of octets of the white space character that the text starts
    with, [0] if it starts with none ([Py_UNICODE_ISSPACE] on the first
    character). *)
Definition space_width (cs : list ascii) : nat :=
  match cs with
  | a :: r1 =>
      if is_space a then 1
      else
        match r1 with
        | b :: r2 =>
            if is_space2 a b then 2
            else
              match r2 with
              | c :: _ => if is_space3 a b c then 3 else 0
              | [] => 0
              end
        | [] => 0
        end
  | [] => 0
  end%nat.

(** The same for the character that the text ends with, the octets being
    given last first. *)
Definition space_width_end (rcs : list ascii) : nat :=
  match rcs with
  | c :: r1 =>
      if is_space c then 1
      else
        match r1 with
        | b :: r2 =>
            if is_space2 b c then 2
            else
              match r2 with
              | a :: _ => if is_space3 a b c then 3 else 0
              | [] => 0
              end
        | [] => 0
        end
  | [] => 0
  end%nat.

(** Drop the characters at the front for as long as [width] counts one. *)
Fixpoint strip_front (width : list ascii -> nat) (cs : list ascii) : list ascii :=
  match cs with
  | [] => []
  | _ :: r1 =>
      match width cs with
      | O => cs
      | 1%nat => strip_front width r1
      | 2%nat => match r1 with _ :: r2 => strip_front width r2 | [] => cs end
      | _ => match r1 with _ :: _ :: r3 => strip_front width r3 | _ => cs end
      end
  end.

(** [s.lstrip()] *)
Definition lstrip_chars (cs : list ascii) : list ascii := strip_front space_width cs.

(** [s.rstrip()] *)
Definition rstrip_chars (cs : list ascii) : list ascii :=
  rev (strip_front space_width_end (rev cs)).

Definition strip_chars (cs : list ascii) : list ascii :=
  rstrip_chars (lstrip_chars cs).

(** An octet that is a character of its own (U+0000 to U+007F) and is not
    white space. *)
Definition is_plain (c : ascii) : bool :=
  negb (is_space c) && (nat_of_ascii c <? 128)%nat.

(** [s.strip()] *)
Definition strip (s : string) : string := str_of (strip_chars (chars s)).

(** Truth value of a string: non-empty. *)
Definition str_truthy (s : string) : bool :=
  match s with
  | EmptyString => false
  | String _ _ => true
  end.

(** [s.startswith(p)] *)
Definition startswith (s p : string) : bool := String.prefix p s.

(** [needle in hay] for strings: substring containment. *)
Fixpoint str_in (needle hay : string) : bool :=
  String.prefix needle hay ||
  match hay with
  | EmptyString => false
  | String _ rest => str_in needle rest
  end.

(** A finished word, if any, put before the words that follow. *)
Definition word_before (cur : list ascii) (words : list (list ascii)) : list (list ascii) :=
  match cur with
  | [] => words
  | _ => rev cur :: words
  end.

(** [s.split()]: maximal runs of non-whitespace characters, in order; [cur]
    holds the current word in reverse. *)
Fixpoint split_ws_aux (cs : list ascii) (cur : list ascii) : list (list ascii) :=
  match cs with
  | [] => word_before cur []
  | c :: r1 =>
      match space_width cs with
      | O => split_ws_aux r1 (c :: cur)
      | 1%nat => word_before cur (split_ws_aux r1 [])
      | 2%nat =>
          match r1 with
          | _ :: r2 => word_before cur (split_ws_aux r2 [])
          | [] => split_ws_aux r1 (c :: cur)
          end
      | _ =>
          match r1 with
          | _ :: _ :: r3 => word_before cur (split_ws_aux r3 [])
          | _ => split_ws_aux r1 (c :: cur)
          end
      end
  end.

Definition split_ws (s : string) : list string :=
  map str_of (split_ws_aux (chars s) []).

(** [str(n)] for a non-negative integer. *)
Definition str_nat (n : nat) : string :=
  NilEmpty.string_of_uint (Nat.to_uint n).

Definition is_dec (c : ascii) : bool :=
  (48 <=? nat_of_ascii c)%nat && (nat_of_ascii c <=? 57)%nat.

Definition digit_val (c : ascii) : option Z :=
  let n := nat_of_ascii c in
  if (48 <=? n)%nat && (n <=? 57)%nat then Some (Z.of_nat n - 48) else None.

Definition is_underscore (c : ascii) : bool := (nat_of_ascii c =? 95)%nat.

(** The digits of a decimal literal after its first digit: each further digit
    may be preceded by one underscore. *)
Fixpoint int_digits (cs : list ascii) (acc : Z) : option Z :=
  match cs with
  | [] => Some acc
  | c :: rest =>
      if is_underscore c then
        match rest with
        | d :: rest' =>
            match digit_val d with
            | Some v => int_digits rest' (10 * acc + v)
            | None => None
            end
        | [] => None
        end
      else
        match digit_val c with
        | Some v => int_digits rest (10 * acc + v)
        | None => None
        end
  end.

Definition int_unsigned (cs : list ascii) : option Z :=
  match cs with
  | d :: rest =>
      match digit_val d with
      | Some v => int_digits rest v
      | None => None
      end
  | [] => None
  end.

(** [int(s)] in base 10 for a literal written with the digits 0 to 9:
    surrounding whitespace, an optional sign, digits. *)
Definition py_int (s : string) : outcome Z :=
  let cs := strip_chars (chars s) in
  of_option ValueError
    match cs with
    | c :: rest =>
        if (nat_of_ascii c =? 45)%nat then Z.opp <$> int_unsigned rest
        else if (nat_of_ascii c =? 43)%nat then int_unsigned rest
        else int_unsigned cs
    | [] => None
    end.

(** ** Python list indexing *)

(** [l[z]]: a negative index counts from the end. *)
Definition py_index {A} (l : list A) (z : Z) : outcome A :=
  let n := Z.of_nat (length l) in
  if 0 <=? z then of_option IndexError (l !! Z.to_nat z)
  else if - n <=? z then of_option IndexError (l !! Z.to_nat (n + z))
  else Raised IndexError.

(** ** Audio segments ([pydub.AudioSegment])

    A segment is its sequence of frames, one per millisecond, so that [len]
    is the duration in milliseconds and [+] is concatenation. *)

Definition AudioSegment : Type := list Z.

(** [AudioSegment.empty()] *)
Definition audio_empty : AudioSegment := [].

(** [AudioSegment.silent(duration=d)] *)
Definition silent (duration : nat) : AudioSegment := replicate duration 0.
Arguments silent : simpl never.

(** [a + b] *)
Definition audio_add (a b : AudioSegment) : AudioSegment := a ++ b.

(** [len(a)] *)
Definition audio_len (a : AudioSegment) : Z := Z.of_nat (length a).

Definition bytes : Type := list byte.

(** One entry of [st.session_state.audio_segments]: [(label, audio)]. *)
Definition clip : Type := string * option AudioSegment.

(** ** Step 6: the assembly loop (app.py 463-475) *)

Record buckets : Type := Buckets {
  intro_audio : AudioSegment;
  hosts_discussion : AudioSegment;
  outro_audio : AudioSegment
}.

Definition empty_buckets : buckets := Buckets audio_empty audio_empty audio_empty.

(** One iteration of [for i, (label, audio) in enumerate(audio_segments)];
    [n] is [len(audio_segments)].  [audio + pause] raises [TypeError] when the
    entry holds [None]. *)
Definition assemble_step (n i : Z) (c : clip) (b : buckets) : outcome buckets :=
  let pause := silent 300 in
  audio ← of_option TypeError c.2;
  if i =? 0 then
    Ok (Buckets (audio_add (intro_audio b) (audio_add audio pause))
                (hosts_discussion b) (outro_audio b))
  else if i =? n - 1 then
    Ok (Buckets (intro_audio b) (hosts_discussion b)
                (audio_add (outro_audio b) (audio_add audio pause)))
  else
    Ok (Buckets (intro_audio b)
                (audio_add (hosts_discussion b) (audio_add audio pause))
                (outro_audio b)).

Fixpoint assemble_loop (n i : Z) (segs : list clip) (b : buckets) : outcome buckets :=
  match segs with
  | [] => Ok b
  | c :: rest =>
      b' ← assemble_step n i c b;
      assemble_loop n (i + 1) rest b'
  end.

Definition assemble (segs : list clip) : outcome buckets :=
  assemble_loop (Z.of_nat (length segs)) 0 segs empty_buckets.

(** A clip followed by the pause, and a run of clips each followed by it. *)
Definition padded (a : AudioSegment) : AudioSegment := a ++ silent 300.

Definition padded_concat (l : list AudioSegment) : AudioSegment :=
  concat (map padded l).

(** Cache entries whose audio is present. *)
Definition present (l : list (string * AudioSegment)) : list clip :=
  map (fun c => (c.1, Some c.2)) l.

(** ** Data model *)

(** One entry of the script: a dict with keys ['speaker'], ['text'] and, once
    the edit step has rendered it, ['uid'].  The record holds the entries
    whose values are text.  The import accepts an entry with any JSON value
    under these keys: such a script is a Python value ([pyval], below) to the
    store, and [script_of_py] does not read it as a list of these records. *)
Record DialogueLine : Type := Line {
  speaker : string;
  text : string;
  uid : option string
}.

(** Per-speaker synthesis parameters (slider values; the code does no
    arithmetic on them). *)
Record VoiceSettings : Type := Settings {
  stability : Q;
  similarity_boost : Q;
  style : Q
}.

Definition default_settings : VoiceSettings := Settings (1 # 2) (4 # 5) (1 # 10).

(** One value of the voice directory. *)
Record Voice : Type := MkVoice {
  voice_id : string;
  samples : list string
}.

(** [st.session_state.config]; the key ['voice_settings_per_speaker'] is absent
    until the configuration step creates it. *)
Record Config : Type := MkConfig {
  intro_text : string;
  intro_voice : string;
  outro_text : string;
  outro_voice : string;
  intro_music : option string;
  podcasters : gmap string string;
  voice_settings : VoiceSettings;
  voice_settings_per_speaker : option (gmap string VoiceSettings)
}.

Definition initial_config : Config :=
  MkConfig "" "" "" "" None ∅ default_settings None.

Definition set_podcasters (c : Config) (m : gmap string string) : Config :=
  MkConfig (intro_text c) (intro_voice c) (outro_text c) (outro_voice c)
           (intro_music c) m (voice_settings c) (voice_settings_per_speaker c).

Definition set_voice_settings_per_speaker (c : Config)
    (m : option (gmap string VoiceSettings)) : Config :=
  MkConfig (intro_text c) (intro_voice c) (outro_text c) (outro_voice c)
           (intro_music c) (podcasters c) (voice_settings c) m.

(** [st.session_state]; the key ['podcast_finalized'] is absent until the
    finalize step first passes its gate. *)
Record SessionState : Type := MkState {
  script : list DialogueLine;
  config : Config;
  audio_segments : list clip;
  current_step : Z;
  available_voices : list (string * Voice);
  podcast_finalized : option bool;
  script_loaded : bool
}.

Definition set_script (st : SessionState) (s : list DialogueLine) : SessionState :=
  MkState s (config st) (audio_segments st) (current_step st)
          (available_voices st) (podcast_finalized st) (script_loaded st).

Definition set_config (st : SessionState) (c : Config) : SessionState :=
  MkState (script st) c (audio_segments st) (current_step st)
          (available_voices st) (podcast_finalized st) (script_loaded st).

Definition set_audio_segments (st : SessionState) (a : list clip) : SessionState :=
  MkState (script st) (config st) a (current_step st)
          (available_voices st) (podcast_finalized st) (script_loaded st).

Definition set_current_step (st : SessionState) (n : Z) : SessionState :=
  MkState (script st) (config st) (audio_segments st) n
          (available_voices st) (podcast_finalized st) (script_loaded st).

Definition set_podcast_finalized (st : SessionState) (f : option bool) : SessionState :=
  MkState (script st) (config st) (audio_segments st) (current_step st)
          (available_voices st) f (script_loaded st).

Definition set_script_loaded (st : SessionState) (b : bool) : SessionState :=
  MkState (script st) (config st) (audio_segments st) (current_step st)
          (available_voices st) (podcast_finalized st) b.

(** The state apart from the cache. *)
Definition same_but_cache (st st' : SessionState) : Prop :=
  script st' = script st /\ config st' = config st /\
  current_step st' = current_step st /\
  available_voices st' = available_voices st /\
  podcast_finalized st' = podcast_finalized st /\
  script_loaded st' = script_loaded st.

(** [init_session_state] on a fresh session, given the voice directory. *)
Definition init_session_state (voices : list (string * Voice)) : SessionState :=
  MkState [] initial_config [] 2 voices None false.

(** A dict with insertion order: lookup by key. *)
Fixpoint dict_get {V} (d : list (string * V)) (k : string) : option V :=
  match d with
  | [] => None
  | (k', v) :: rest => if String.eqb k' k then Some v else dict_get rest k
  end.

Definition dict_keys {V} (d : list (string * V)) : list string := map fst d.

(** [d[k] = v] on a dict with insertion order: an existing key keeps its
    place. *)
Fixpoint dict_set {V} (d : list (string * V)) (k : string) (v : V) : list (string * V) :=
  match d with
  | [] => [(k, v)]
  | (k', v') :: rest =>
      if String.eqb k' k then (k', v) :: rest else (k', v') :: dict_set rest k v
  end.

(** [{row[0]: row[1] for row in rows}] *)
Definition dict_from {V} (rows : list (string * V)) : list (string * V) :=
  foldl (fun d row => dict_set d row.1 row.2) [] rows.

(** ** Step 3: display and edit the script (app.py 211-237) *)

Definition is_marked (t : string) : bool :=
  startswith t "Intro:" || startswith t "Outro:".

(** Assign a uid to every dialog that has none; [fresh i] is the result of
    the [uuid.uuid4()] call made for the dialog at position [i]. *)
Fixpoint assign_uids (fresh : nat -> string) (i : nat) (s : list DialogueLine)
    : list DialogueLine :=
  match s with
  | [] => []
  | l :: rest =>
      match uid l with
      | None => Line (speaker l) (text l) (Some (fresh i)) :: assign_uids fresh (S i) rest
      | Some _ => l :: assign_uids fresh (S i) rest
      end
  end.

(** A keyed text widget: what the operator typed under that key, or else the
    value the code passes as default. *)
Definition widget (typed : string -> option string) (key : option string)
    (value : string) : string :=
  match key ≫= typed with
  | Some v => v
  | None => value
  end.

(** One expander of the edit step: the line as stored afterwards and what
    the "Speaker" field holds, which for a marked line is the fixed value the
    code passes to the disabled field. *)
Definition edit_line (speaker_typed text_typed : string -> option string)
    (line : DialogueLine) : DialogueLine * string :=
  let shown :=
    if is_marked (text line) then "Presenter"
    else widget speaker_typed (uid line) (speaker line) in
  (Line shown (widget text_typed (uid line) (text line)) (uid line), shown).

(** The buttons of the edit step. *)
Inductive edit_click : Type :=
| NoClick
| AddBelow (i : nat) (new_uid : string)
| DeleteDialog (i : nat).

(** The speaker of a marked line is written before its widget is created
    (line 222). *)
Definition force_presenter (line : DialogueLine) : DialogueLine :=
  if is_marked (text line) then Line "Presenter" (text line) (uid line) else line.

(** Render expanders [0 .. ] in order.  The four widgets of an expander are
    keyed by the uid of its line, and [seen] holds the uids of the expanders
    already rendered: at a line whose uid is among them the first widget
    raises, after the speaker of a marked line has been written, and nothing
    further is rendered.  A clicked button of expander [i] mutates the script
    and reruns, so later expanders are not rendered either. *)
Fixpoint edit_loop (speaker_typed text_typed : string -> option string)
    (click : edit_click) (i : nat) (seen : list string) (done todo : list DialogueLine)
    (shown : list string) : list DialogueLine * (list string * outcome unit) :=
  match todo with
  | [] => (done, (shown, Ok ()))
  | line :: rest =>
      match uid line with
      | None => (done ++ line :: rest, (shown, Raised KeyError))
      | Some u =>
          if bool_decide (u ∈ seen)
          then (done ++ force_presenter line :: rest, (shown, Raised DuplicateWidgetID))
          else
            let '(line', s) := edit_line speaker_typed text_typed line in
            match click with
            | AddBelow j new_uid =>
                if (i =? j)%nat
                then (done ++ line' :: Line "" "" (Some new_uid) :: rest,
                      (shown ++ [s], Ok ()))
                else edit_loop speaker_typed text_typed click (S i) (u :: seen)
                       (done ++ [line']) rest (shown ++ [s])
            | DeleteDialog j =>
                if (i =? j)%nat
                then (done ++ rest, (shown ++ [s], Ok ()))
                else edit_loop speaker_typed text_typed click (S i) (u :: seen)
                       (done ++ [line']) rest (shown ++ [s])
            | NoClick =>
                edit_loop speaker_typed text_typed click (S i) (u :: seen)
                  (done ++ [line']) rest (shown ++ [s])
            end
      end
  end.

(** The edit page: the script as it stands when the run ends, what the
    "Speaker" fields rendered so far hold, and how the run ends. *)
Definition step_3 (fresh : nat -> string) (speaker_typed text_typed : string -> option string)
    (click : edit_click) (st : SessionState)
    : SessionState * (list string * outcome unit) :=
  let s := assign_uids fresh 0 (script st) in
  let '(s', r) := edit_loop speaker_typed text_typed click 0 [] [] s [] in
  (set_script st s', r).

(** The uids of the first [n] dialogs once every dialog has one.  The
    buttons of dialog [i] are on the page when the first [i + 1] of them are
    pairwise distinct. *)
Definition first_uids (fresh : nat -> string) (st : SessionState) (n : nat)
    : list (option string) :=
  take n (map uid (assign_uids fresh 0 (script st))).

(** ** Step 4: configuration (app.py 240-301) *)

(** The table [default_voices]: speaker, voice id, preferred name. *)
Definition default_voices : list (string * (string * string)) :=
  [ ("Host 1", ("A9ATTqUUQ6GHu0coCz8t", "Hamid"));
    ("Presenter", ("cjVigY5qzO86Huf0OWal", "Eric"));
    ("Host 2", ("XrExE9yKIg1WjnnlVkGX", "Matilda")) ].

(** [list(available_voices.keys())[0]] *)
Definition first_voice (avail : list (string * Voice)) : outcome string :=
  of_option IndexError (head (dict_keys avail)).

(** The voice given to a podcaster that has none (lines 272-284).  The
    fallback argument of [next] is evaluated before the search. *)
Definition initial_voice (avail : list (string * Voice)) (podcaster : string)
    : outcome string :=
  match dict_get default_voices podcaster with
  | Some (_, name) =>
      fallback ← first_voice avail;
      Ok (default fallback (find (fun voice => str_in name voice) (dict_keys avail)))
  | None => first_voice avail
  end.

(** [set(line['speaker'] for line in script)], in order of first occurrence. *)
Definition podcasters_of (s : list DialogueLine) : list string :=
  remove_dups (map speaker s).

(** Position of [x] in [l] ([list.index]). *)
Fixpoint list_index (l : list string) (x : string) : option nat :=
  match l with
  | [] => None
  | y :: rest => if String.eqb y x then Some 0%nat else S <$> list_index rest x
  end.

(** The settings, voice default, voice check and widgets of one podcaster
    (lines 262-326); [chosen] is the operator's selectbox choice and [slid]
    the operator's slider values, if any. *)
Definition configure_podcaster (chosen : string -> option string)
    (slid : string -> option VoiceSettings) (podcaster : string)
    (st : SessionState) : SessionState * outcome unit :=
  let c := config st in
  let per := default ∅ (voice_settings_per_speaker c) in
  let per :=
    match per !! podcaster with
    | Some _ => per
    | None => <[podcaster := default_settings]> per
    end in
  let c := set_voice_settings_per_speaker c (Some per) in
  let st := set_config st c in
  match (match podcasters c !! podcaster with
         | Some v => Ok v
         | None => initial_voice (available_voices st) podcaster
         end) with
  | Raised e => (st, Raised e)
  | Ok current_voice =>
      let c := set_podcasters c (<[podcaster := current_voice]> (podcasters c)) in
      let st := set_config st c in
      let keys := dict_keys (available_voices st) in
      match (match list_index keys current_voice with
             | Some _ => Ok current_voice
             | None => first_voice (available_voices st)
             end) with
      | Raised e => (st, Raised e)
      | Ok shown =>
          let selected := default shown (chosen podcaster) in
          let c := set_podcasters c (<[podcaster := selected]> (podcasters c)) in
          let per :=
            match per !! podcaster, slid podcaster with
            | Some _, Some v => <[podcaster := v]> per
            | _, _ => per
            end in
          (set_config st (set_voice_settings_per_speaker c (Some per)), Ok ())
      end
  end.

Fixpoint configure_loop (chosen : string -> option string)
    (slid : string -> option VoiceSettings) (ps : list string)
    (st : SessionState) : SessionState * outcome unit :=
  match ps with
  | [] => (st, Ok ())
  | p :: rest =>
      match configure_podcaster chosen slid p st with
      | (st', Ok _) => configure_loop chosen slid rest st'
      | (st', Raised e) => (st', Raised e)
      end
  end.

(** [refetched] is what [get_available_voices()] returns if it is called. *)
Definition step_4 (refetched : list (string * Voice)) (chosen : string -> option string)
    (slid : string -> option VoiceSettings) (st : SessionState)
    : SessionState * outcome unit :=
  let st :=
    match available_voices st with
    | [] => MkState (script st) (config st) (audio_segments st) (current_step st)
                    refetched (podcast_finalized st) (script_loaded st)
    | _ => st
    end in
  let podcasters := podcasters_of (script st) in
  let st :=
    match voice_settings_per_speaker (config st) with
    | None => set_config st (set_voice_settings_per_speaker (config st) (Some ∅))
    | Some _ => st
    end in
  configure_loop chosen slid podcasters st.

(** ** Base64 ([base64.b64encode], [base64.b64decode]; RFC 4648)

    An octet is handled as its eight bits ([Ascii.ascii], least significant
    bit first); a group of three octets is cut into four 6-bit values. *)

Definition sextet : Type := bool * bool * bool * bool * bool * bool.

(** The value of a sextet given most significant bit first. *)
Definition sextet_val (s : sextet) : nat :=
  let '(b5, b4, b3, b2, b1, b0) := s in
  (Nat.b2n b5 * 32 + Nat.b2n b4 * 16 + Nat.b2n b3 * 8 +
   Nat.b2n b2 * 4 + Nat.b2n b1 * 2 + Nat.b2n b0)%nat.

Definition b64_alphabet : string :=
  "ABCDEFGHIJKLMNOPQRSTUVWXYZabcdefghijklmnopqrstuvwxyz0123456789+/".

Definition b64_char (s : sextet) : ascii :=
  default "="%char (chars b64_alphabet !! sextet_val s).

Definition sextet_of_nat (n : nat) : sextet :=
  (Nat.testbit n 5, Nat.testbit n 4, Nat.testbit n 3,
   Nat.testbit n 2, Nat.testbit n 1, Nat.testbit n 0).

Definition b64_sextet (c : ascii) : option sextet :=
  let n := nat_of_ascii c in
  if (65 <=? n)%nat && (n <=? 90)%nat then Some (sextet_of_nat (n - 65))
  else if (97 <=? n)%nat && (n <=? 122)%nat then Some (sextet_of_nat (n - 71))
  else if (48 <=? n)%nat && (n <=? 57)%nat then Some (sextet_of_nat (n + 4))
  else if (n =? 43)%nat then Some (sextet_of_nat 62)
  else if (n =? 47)%nat then Some (sextet_of_nat 63)
  else None.

Definition is_pad (c : ascii) : bool := (nat_of_ascii c =? 61)%nat.

Fixpoint b64enc (bs : list ascii) : list ascii :=
  match bs with
  | [] => []
  | [Ascii x0 x1 x2 x3 x4 x5 x6 x7] =>
      [ b64_char (x7, x6, x5, x4, x3, x2);
        b64_char (x1, x0, false, false, false, false);
        "="%char; "="%char ]
  | [Ascii x0 x1 x2 x3 x4 x5 x6 x7; Ascii y0 y1 y2 y3 y4 y5 y6 y7] =>
      [ b64_char (x7, x6, x5, x4, x3, x2);
        b64_char (x1, x0, y7, y6, y5, y4);
        b64_char (y3, y2, y1, y0, false, false);
        "="%char ]
  | Ascii x0 x1 x2 x3 x4 x5 x6 x7 :: Ascii y0 y1 y2 y3 y4 y5 y6 y7 ::
    Ascii z0 z1 z2 z3 z4 z5 z6 z7 :: rest =>
      b64_char (x7, x6, x5, x4, x3, x2) ::
      b64_char (x1, x0, y7, y6, y5, y4) ::
      b64_char (y3, y2, y1, y0, z7, z6) ::
      b64_char (z5, z4, z3, z2, z1, z0) :: b64enc rest
  end.

(** The octets that two neighbouring sextets of a group give: the first of
    the group with the second, the second with the third, the third with the
    fourth. *)
Definition b64_byte1 (p s : sextet) : ascii :=
  let '(p5, p4, p3, p2, p1, p0) := p in
  let '(s5, s4, s3, s2, s1, s0) := s in
  Ascii s4 s5 p0 p1 p2 p3 p4 p5.

Definition b64_byte2 (p s : sextet) : ascii :=
  let '(p5, p4, p3, p2, p1, p0) := p in
  let '(s5, s4, s3, s2, s1, s0) := s in
  Ascii s2 s3 s4 s5 p0 p1 p2 p3.

Definition b64_byte3 (p s : sextet) : ascii :=
  let '(p5, p4, p3, p2, p1, p0) := p in
  let '(s5, s4, s3, s2, s1, s0) := s in
  Ascii s0 s1 s2 s3 s4 s5 p0 p1.

(** [binascii.a2b_base64] as [base64.b64decode] calls it, without
    validation.  A character outside the alphabet is skipped.  The characters
    of the alphabet are gathered in groups of four: [quad_pos] counts those
    of the open group, [prev] is the last one, [pads] counts the padding
    characters met since, and [out] holds the octets produced, last first.
    Padding that completes a group of at least two characters ends the
    decoding, whatever follows it; other padding is skipped.  A group left
    open at the end of the text is an error. *)
Fixpoint a2b_base64 (cs : list ascii) (quad_pos : nat) (prev : sextet) (pads : nat)
    (out : list ascii) : option (list ascii) :=
  match cs with
  | [] => if (quad_pos =? 0)%nat then Some (rev out) else None
  | c :: rest =>
      if is_pad c then
        if (2 <=? quad_pos)%nat then
          if (4 <=? quad_pos + S pads)%nat then Some (rev out)
          else a2b_base64 rest quad_pos prev (S pads) out
        else a2b_base64 rest quad_pos prev pads out
      else
        match b64_sextet c with
        | None => a2b_base64 rest quad_pos prev pads out
        | Some s =>
            match quad_pos with
            | 0%nat => a2b_base64 rest 1 s 0 out
            | 1%nat => a2b_base64 rest 2 s 0 (b64_byte1 prev s :: out)
            | 2%nat => a2b_base64 rest 3 s 0 (b64_byte2 prev s :: out)
            | _ => a2b_base64 rest 0 s 0 (b64_byte3 prev s :: out)
            end
        end
  end.

(** [base64.b64encode(data).decode()] *)
Definition b64encode (data : bytes) : string :=
  str_of (b64enc (map ascii_of_byte data)).

(** [base64.b64decode(s)] for a [str]: a text with a character beyond ASCII
    is refused, the rest is left to [binascii.a2b_base64]; both errors are a
    [ValueError]. *)
Definition b64decode (s : string) : outcome bytes :=
  if forallb (fun c => (nat_of_ascii c <? 128)%nat) (chars s)
  then of_option ValueError
         (map byte_of_ascii <$>
          a2b_base64 (chars s) 0 (sextet_of_nat 0) 0 [])
  else Raised ValueError.

(** ** Python values and JSON documents ([json.dumps], [json.loads])

    What [database.py] is handed and hands back are Python values of any
    shape.  A TEXT column written with [json.dumps] is held as the JSON
    document that the text denotes. *)

Unset Elimination Schemes.
Inductive pyval : Type :=
| PNone
| PBool (b : bool)
| PInt (n : Z)
| PFloat (x : Q)
| PStr (s : string)
| PList (l : list pyval)
| PTuple (l : list pyval)
| PDict (items : list (pyval * pyval)).

Inductive json : Type :=
| JNull
| JBool (b : bool)
| JInt (n : Z)
| JFloat (x : Q)
| JStr (s : string)
| JArr (l : list json)
| JObj (members : list (string * json)).
Set Elimination Schemes.

(** Truth value of a Python value. *)
Definition py_truthy (v : pyval) : bool :=
  match v with
  | PNone => false
  | PBool b => b
  | PInt n => negb (n =? 0)
  | PFloat x => negb (Qeq_bool x 0)
  | PStr s => str_truthy s
  | PList l | PTuple l => match l with [] => false | _ => true end
  | PDict items => match items with [] => false | _ => true end
  end.

(** [str(n)] for an integer. *)
Definition str_int (n : Z) : string :=
  if n <? 0 then "-" +:+ str_nat (Z.to_nat (- n)) else str_nat (Z.to_nat n).

Section App.

(** [float.__repr__], which [json.dumps] applies to a float used as a dict
    key. *)
Variable float_repr : Q -> string.

(** The name that [json.dumps] writes for a dict key: a string as it is, a
    number, a boolean or [None] as its JSON text; any other key is refused. *)
Definition key_str (k : pyval) : outcome string :=
  match k with
  | PStr s => Ok s
  | PFloat x => Ok (float_repr x)
  | PBool true => Ok "true"
  | PBool false => Ok "false"
  | PNone => Ok "null"
  | PInt n => Ok (str_int n)
  | PList _ | PTuple _ | PDict _ => Raised TypeError
  end.

(** [json.dumps(v)]: a tuple is written as an array, like a list; the
    members of a dict are written in its order, the name before the value. *)
Fixpoint json_dumps (v : pyval) : outcome json :=
  match v with
  | PNone => Ok JNull
  | PBool b => Ok (JBool b)
  | PInt n => Ok (JInt n)
  | PFloat x => Ok (JFloat x)
  | PStr s => Ok (JStr s)
  | PList l | PTuple l =>
      elements ← mapM json_dumps l;
      Ok (JArr elements)
  | PDict items =>
      members ← mapM (fun kv : pyval * pyval =>
                        let '(k, v) := kv in
                        name ← key_str k;
                        j ← json_dumps v;
                        Ok (name, j)) items;
      Ok (JObj members)
  end.

(** [json.loads] of the text of a document: an object becomes a dict keyed
    by strings, a name that occurs again overwriting the value and keeping
    the place of its first occurrence. *)
Fixpoint json_loads (j : json) : pyval :=
  match j with
  | JNull => PNone
  | JBool b => PBool b
  | JInt n => PInt n
  | JFloat x => PFloat x
  | JStr s => PStr s
  | JArr l => PList (map json_loads l)
  | JObj members =>
      PDict (map (fun kv : string * pyval => (PStr kv.1, kv.2))
               (dict_from (map (fun kv : string * json => (kv.1, json_loads kv.2)) members)))
  end.

(** A value that [json.loads] can return: no tuple in it, and every dict in
    it keyed by strings that differ from one another. *)
Fixpoint json_plain (v : pyval) : bool :=
  match v with
  | PList l => forallb json_plain l
  | PTuple _ => false
  | PDict items =>
      forallb (fun kv : pyval * pyval =>
                 match kv.1 with PStr _ => json_plain kv.2 | _ => false end) items &&
      bool_decide (NoDup (map (fun kv : pyval * pyval =>
                                 match kv.1 with PStr s => s | _ => "" end) items))
  | _ => true
  end.

(** ** The session state as Python values

    The script is a list of dicts with the keys ['speaker'], ['text'] and,
    once assigned, ['uid']; the configuration is the dict built by
    [init_session_state] and completed by step 4.  This development covers
    the sessions in which these hold text, as [DialogueLine] and [Config]
    have it; [line_of_py] and the like read a Python value back when it is
    the value of such a record. *)

Definition py_str (v : pyval) : option string :=
  match v with PStr s => Some s | _ => None end.

Definition py_float (v : pyval) : option Q :=
  match v with PFloat x => Some x | _ => None end.

Definition py_opt_str (v : pyval) : option (option string) :=
  match v with PStr s => Some (Some s) | PNone => Some None | _ => None end.

Definition py_of_opt_str (o : option string) : pyval :=
  match o with Some s => PStr s | None => PNone end.

(** The values of a dict whose keys are exactly [names], in that order. *)
Definition py_fields (names : list string) (v : pyval) : option (list pyval) :=
  match v with
  | PDict items =>
      if bool_decide (map (fun kv : pyval * pyval => py_str kv.1) items = map Some names)
      then Some (map snd items)
      else None
  | _ => None
  end.

Definition py_of_line (l : DialogueLine) : pyval :=
  PDict ([(PStr "speaker", PStr (speaker l)); (PStr "text", PStr (text l))] ++
         match uid l with Some u => [(PStr "uid", PStr u)] | None => [] end).

Definition line_of_py (v : pyval) : option DialogueLine :=
  match py_fields ["speaker"; "text"; "uid"] v with
  | Some [sp; tx; u] =>
      sp ← py_str sp; tx ← py_str tx; u ← py_str u; Some (Line sp tx (Some u))
  | _ =>
      match py_fields ["speaker"; "text"] v with
      | Some [sp; tx] => sp ← py_str sp; tx ← py_str tx; Some (Line sp tx None)
      | _ => None
      end
  end.

Definition py_of_script (s : list DialogueLine) : pyval := PList (map py_of_line s).

Definition script_of_py (v : pyval) : option (list DialogueLine) :=
  match v with
  | PList l => mapM line_of_py l
  | _ => None
  end.

Definition py_of_settings (v : VoiceSettings) : pyval :=
  PDict [(PStr "stability", PFloat (stability v));
         (PStr "similarity_boost", PFloat (similarity_boost v));
         (PStr "style", PFloat (style v))].

Definition settings_of_py (v : pyval) : option VoiceSettings :=
  match py_fields ["stability"; "similarity_boost"; "style"] v with
  | Some [a; b; c] => a ← py_float a; b ← py_float b; c ← py_float c; Some (Settings a b c)
  | _ => None
  end.

(** A dict keyed by speaker; the order of the keys is not kept by [gmap]. *)
Definition py_of_dict {V} (f : V -> pyval) (m : gmap string V) : pyval :=
  PDict (map (fun kv : string * V => (PStr kv.1, f kv.2)) (map_to_list m)).

Definition dict_of_py {V} `{EqDecision V} (g : pyval -> option V) (v : pyval)
    : option (gmap string V) :=
  match v with
  | PDict items =>
      l ← mapM (fun kv : pyval * pyval => k ← py_str kv.1; x ← g kv.2; Some (k, x)) items;
      if bool_decide (map_to_list (list_to_map l : gmap string V) = l)
      then Some (list_to_map l)
      else None
  | _ => None
  end.

#[global] Instance Q_eq_dec : EqDecision Q.
Proof. solve_decision. Defined.

#[global] Instance VoiceSettings_eq_dec : EqDecision VoiceSettings.
Proof. solve_decision. Defined.

Definition config_names : list string :=
  ["intro_text"; "intro_voice"; "outro_text"; "outro_voice"; "intro_music";
   "podcasters"; "voice_settings"].

Definition py_of_config (c : Config) : pyval :=
  PDict ([(PStr "intro_text", PStr (intro_text c));
          (PStr "intro_voice", PStr (intro_voice c));
          (PStr "outro_text", PStr (outro_text c));
          (PStr "outro_voice", PStr (outro_voice c));
          (PStr "intro_music", py_of_opt_str (intro_music c));
          (PStr "podcasters", py_of_dict PStr (podcasters c));
          (PStr "voice_settings", py_of_settings (voice_settings c))] ++
         match voice_settings_per_speaker c with
         | Some per => [(PStr "voice_settings_per_speaker", py_of_dict py_of_settings per)]
         | None => []
         end).

Definition config_of_py (v : pyval) : option Config :=
  match py_fields (config_names ++ ["voice_settings_per_speaker"]) v with
  | Some [it; iv; ot; ov; im; ps; vs; per] =>
      it ← py_str it; iv ← py_str iv; ot ← py_str ot; ov ← py_str ov;
      im ← py_opt_str im; ps ← dict_of_py py_str ps; vs ← settings_of_py vs;
      per ← dict_of_py settings_of_py per;
      Some (MkConfig it iv ot ov im ps vs (Some per))
  | _ =>
      match py_fields config_names v with
      | Some [it; iv; ot; ov; im; ps; vs] =>
          it ← py_str it; iv ← py_str iv; ot ← py_str ot; ov ← py_str ov;
          im ← py_opt_str im; ps ← dict_of_py py_str ps; vs ← settings_of_py vs;
          Some (MkConfig it iv ot ov im ps vs None)
      | _ => None
      end
  end.

(** The serialized cache that the save handler builds: a list of
    [(label, b64_audio or None)] tuples.  [json.dumps] writes each tuple as
    an array of two elements, which [json.loads] returns as a list. *)
Definition stored_clip : Type := string * option string.

Definition py_of_stored (l : list stored_clip) : pyval :=
  PList (map (fun c : stored_clip => PTuple [PStr c.1; py_of_opt_str c.2]) l).

Definition stored_of_py (v : pyval) : option (list stored_clip) :=
  match v with
  | PList l =>
      mapM (fun item =>
              match item with
              | PList [label; b64_audio] =>
                  label ← py_str label; a ← py_opt_str b64_audio; Some (label, a)
              | _ => None
              end) l
  | _ => None
  end.

(** ** The SQLite store (database.py) *)

Record PodcastRow : Type := MkPodcast {
  pod_id : Z;
  pod_title : string;
  pod_created_at : string;
  pod_updated_at : string
}.

Record SegmentRow : Type := MkSegment {
  seg_id : Z;
  seg_podcast_id : Z;
  seg_type : string;
  seg_audio_data : bytes;
  seg_created_at : string
}.

Record ProgressRow : Type := MkProgress {
  prog_id : Z;
  prog_name : string;
  prog_script : json;
  prog_config : json;
  prog_audio_segments : option json;
  prog_created_at : string
}.

(** The three tables and, for each, the largest row id handed out so far
    (AUTOINCREMENT). *)
Record Database : Type := MkDb {
  podcasts : list PodcastRow;
  podcast_segments : list SegmentRow;
  progress : list ProgressRow;
  seq_podcasts : Z;
  seq_segments : Z;
  seq_progress : Z
}.

Definition empty_db : Database := MkDb [] [] [] 0 0 0.

(** An open connection: the database file, the view of the open transaction,
    and for each call to come whether it raises. *)
Record Conn : Type := MkConn {
  stored : Database;
  work : Database;
  faults : list bool
}.

Definition connect (db : Database) (fl : list bool) : Conn := MkConn db db fl.

Definition dbm (A : Type) : Type := Conn -> Conn * outcome A.

Definition db_bind {A B} (m : dbm A) (k : A -> dbm B) : dbm B := fun c =>
  match m c with
  | (c', Ok a) => k a c'
  | (c', Raised e) => (c', Raised e)
  end.

Definition db_ret {A} (a : A) : dbm A := fun c => (c, Ok a).

Notation "'let!' x ':=' m 'in' k" := (db_bind m (fun x => k))
  (at level 10, x name, m at level 99, k at level 200, only parsing).

(** [c.execute(...)]: raises without effect, or applies the statement to the
    view of the transaction. *)
Definition execute {A} (stmt : Database -> Database * A) : dbm A := fun c =>
  match faults c with
  | true :: fl => (MkConn (stored c) (work c) fl, Raised DatabaseError)
  | fl =>
      let '(db', a) := stmt (work c) in
      (MkConn (stored c) db' (tail fl), Ok a)
  end.

(** [conn.commit()] *)
Definition commit : dbm unit := fun c =>
  match faults c with
  | true :: fl => (MkConn (stored c) (work c) fl, Raised DatabaseError)
  | fl => (MkConn (work c) (work c) (tail fl), Ok ())
  end.

(** [conn.rollback()] *)
Definition rollback (c : Conn) : Conn := MkConn (stored c) (stored c) (faults c).

(** [conn.close()]: what has not been committed is lost. *)
Definition close (c : Conn) : Database := stored c.

Definition insert_podcast (now title : string) (db : Database) : Database * Z :=
  let id := seq_podcasts db + 1 in
  (MkDb (podcasts db ++ [MkPodcast id title now now]) (podcast_segments db) (progress db)
        id (seq_segments db) (seq_progress db), id).

Definition insert_segment (now : string) (podcast_id : Z) (segment_type : string)
    (audio_data : bytes) (db : Database) : Database * unit :=
  let id := seq_segments db + 1 in
  (MkDb (podcasts db)
        (podcast_segments db ++ [MkSegment id podcast_id segment_type audio_data now])
        (progress db) (seq_podcasts db) id (seq_progress db), ()).

(** Truth value of an optional bytes argument. *)
Definition bytes_truthy (o : option bytes) : bool :=
  match o with
  | Some (_ :: _) => true
  | _ => false
  end.

(** [if audio: c.execute(INSERT INTO podcast_segments ...)] *)
Definition save_segment (now : string) (podcast_id : Z) (segment_type : string)
    (audio : option bytes) : dbm unit :=
  match audio with
  | Some (b :: bs) => execute (insert_segment now podcast_id segment_type (b :: bs))
  | _ => db_ret ()
  end.

(** The [try] block of [save_podcast]. *)
Definition save_podcast_body (now title : string)
    (intro_audio hosts_audio outro_audio : option bytes) : dbm Z :=
  let! podcast_id := execute (insert_podcast now title) in
  let! _ := save_segment now podcast_id "intro" intro_audio in
  let! _ := save_segment now podcast_id "hosts_discussion" hosts_audio in
  let! _ := save_segment now podcast_id "outro" outro_audio in
  let! _ := commit in
  db_ret podcast_id.

(** [save_podcast(title, intro_audio, hosts_audio, outro_audio)]: the database
    file afterwards, and the new podcast id or the exception re-raised. *)
Definition save_podcast (fl : list bool) (now : string) (db : Database) (title : string)
    (intro_audio hosts_audio outro_audio : option bytes) : Database * outcome Z :=
  match save_podcast_body now title intro_audio hosts_audio outro_audio (connect db fl) with
  | (c, Ok podcast_id) => (close c, Ok podcast_id)
  | (c, Raised e) => (close (rollback c), Raised e)
  end.

(** The table of segments after [if audio: INSERT ...]. *)
Definition add_segment (now : string) (podcast_id : Z) (segment_type : string)
    (audio : option bytes) (db : Database) : Database :=
  match audio with
  | Some (b :: bs) => (insert_segment now podcast_id segment_type (b :: bs) db).1
  | _ => db
  end.

(** The database after a [save_podcast] that commits. *)
Definition saved_podcast (now title : string)
    (intro_audio hosts_audio outro_audio : option bytes) (db : Database) : Database :=
  let db1 := (insert_podcast now title db).1 in
  let id := seq_podcasts db + 1 in
  add_segment now id "outro" outro_audio
    (add_segment now id "hosts_discussion" hosts_audio
       (add_segment now id "intro" intro_audio db1)).

(** The segments a call provides: the non-empty payloads, in the order
    intro, hosts_discussion, outro. *)
Definition provided_segments (intro_audio hosts_audio outro_audio : option bytes)
    : list (string * bytes) :=
  omap (fun p : string * option bytes =>
          match p.2 with
          | Some (b :: bs) => Some (p.1, b :: bs)
          | _ => None
          end)
       [("intro", intro_audio); ("hosts_discussion", hosts_audio); ("outro", outro_audio)].

(** The rows that a list of provided segments becomes, numbered after [seq]. *)
Fixpoint segment_rows (now : string) (podcast_id seq : Z) (l : list (string * bytes))
    : list SegmentRow :=
  match l with
  | [] => []
  | p :: rest =>
      MkSegment (seq + 1) podcast_id p.1 p.2 now ::
      segment_rows now podcast_id (seq + 1) rest
  end.

(** [get_podcast_segments(podcast_id)]: the [(segment_type, audio_data)] rows. *)
Definition get_podcast_segments (db : Database) (podcast_id : Z) : list (string * bytes) :=
  map (fun r => (seg_type r, seg_audio_data r))
      (filter (fun r => seg_podcast_id r = podcast_id) (podcast_segments db)).

Definition delete_podcast_rows (podcast_id : Z) (db : Database) : Database :=
  MkDb (filter (fun r => pod_id r <> podcast_id) (podcasts db))
       (filter (fun r => seg_podcast_id r <> podcast_id) (podcast_segments db))
       (progress db) (seq_podcasts db) (seq_segments db) (seq_progress db).

Definition delete_segments_stmt (podcast_id : Z) (db : Database) : Database * unit :=
  (MkDb (podcasts db)
        (filter (fun r => seg_podcast_id r <> podcast_id) (podcast_segments db))
        (progress db) (seq_podcasts db) (seq_segments db) (seq_progress db), ()).

Definition delete_podcast_stmt (podcast_id : Z) (db : Database) : Database * unit :=
  (MkDb (filter (fun r => pod_id r <> podcast_id) (podcasts db))
        (podcast_segments db)
        (progress db) (seq_podcasts db) (seq_segments db) (seq_progress db), ()).

(** [delete_podcast(podcast_id)] *)
Definition delete_podcast (fl : list bool) (db : Database) (podcast_id : Z)
    : Database * outcome unit :=
  match (let! _ := execute (delete_segments_stmt podcast_id) in
         let! _ := execute (delete_podcast_stmt podcast_id) in
         commit) (connect db fl) with
  | (c, Ok _) => (close c, Ok ())
  | (c, Raised e) => (close (rollback c), Raised e)
  end.

Definition insert_progress (now name : string) (script_doc config_doc : json)
    (audio_doc : option json) (db : Database) : Database * unit :=
  let id := seq_progress db + 1 in
  (MkDb (podcasts db) (podcast_segments db)
        (progress db ++ [MkProgress id name script_doc config_doc audio_doc now])
        (seq_podcasts db) (seq_segments db) id, ()).

(** The three documents of a row: [json.dumps(script)], [json.dumps(config)]
    and [json.dumps(audio_segments) if audio_segments else None]. *)
Definition progress_documents (script_val config_val : pyval) (audio_segments : option pyval)
    : outcome (json * json * option json) :=
  script_doc ← json_dumps script_val;
  config_doc ← json_dumps config_val;
  audio_doc ← match audio_segments with
              | Some a => if py_truthy a then doc ← json_dumps a; Ok (Some doc) else Ok None
              | None => Ok None
              end;
  Ok (script_doc, config_doc, audio_doc).

(** [save_progress(name, script, config, audio_segments)]; a value that
    [json.dumps] refuses raises before the table is touched, and an exception
    leaves the connection without commit. *)
Definition save_progress (fl : list bool) (now : string) (db : Database) (name : string)
    (script_val config_val : pyval) (audio_segments : option pyval)
    : Database * outcome unit :=
  match progress_documents script_val config_val audio_segments with
  | Ok (script_doc, config_doc, audio_doc) =>
      match (let! _ := execute (insert_progress now name script_doc config_doc audio_doc) in
             commit) (connect db fl) with
      | (c, r) => (close c, r)
      end
  | Raised e => (db, Raised e)
  end.

(** The dict returned by [load_progress_by_id]. *)
Record Loaded : Type := MkLoaded {
  loaded_script : pyval;
  loaded_config : pyval;
  loaded_audio_segments : option pyval
}.

(** The dict that [load_progress_by_id] makes of a row:
    [json.loads] of each column, [None] for an empty audio column. *)
Definition loaded_of_row (row : ProgressRow) : Loaded :=
  MkLoaded (json_loads (prog_script row)) (json_loads (prog_config row))
           (json_loads <$> prog_audio_segments row).

(** [load_progress_by_id(progress_id)]: [Ok None] when no row has that id. *)
Definition load_progress_by_id (db : Database) (progress_id : Z) : outcome (option Loaded) :=
  match find (fun r => bool_decide (prog_id r = progress_id)) (progress db) with
  | Some row => Ok (Some (loaded_of_row row))
  | None => Ok None
  end.

Definition delete_progress_stmt (progress_id : Z) (db : Database) : Database * unit :=
  (MkDb (podcasts db) (podcast_segments db)
        (filter (fun r => prog_id r <> progress_id) (progress db))
        (seq_podcasts db) (seq_segments db) (seq_progress db), ()).

(** [delete_progress(progress_id)] *)
Definition delete_progress (fl : list bool) (db : Database) (progress_id : Z)
    : Database * outcome unit :=
  match (let! _ := execute (delete_progress_stmt progress_id) in commit) (connect db fl) with
  | (c, r) => (close c, r)
  end.


(** ** Dicts built from rows *)

(** The dict that [get_podcast_segments(podcast_id)] returns. *)
Definition get_podcast_segments_dict (db : Database) (podcast_id : Z)
    : list (string * bytes) :=
  dict_from (get_podcast_segments db podcast_id).

(** Row ids are handed out once: every id in a table is at most the counter
    of the table, no id occurs twice, and every segment belongs to an id that
    has been handed out. *)
Definition ids_ok (db : Database) : Prop :=
  Forall (fun r => pod_id r <= seq_podcasts db) (podcasts db) /\
  NoDup (map pod_id (podcasts db)) /\
  Forall (fun r => seg_podcast_id r <= seq_podcasts db) (podcast_segments db) /\
  Forall (fun r => prog_id r <= seq_progress db) (progress db) /\
  NoDup (map prog_id (progress db)).

(** What a later store [db'] keeps of an earlier store [db]: the
    AUTOINCREMENT counters have not decreased, and every row of [db'] is a row
    of [db] or has an id beyond the counter of [db], so that an id that [db]
    had handed out, deleted or not, names no other row in [db']. *)
Definition ids_after (db db' : Database) : Prop :=
  seq_podcasts db <= seq_podcasts db' /\
  seq_progress db <= seq_progress db' /\
  (forall r, r ∈ podcasts db' -> r ∈ podcasts db \/ seq_podcasts db < pod_id r) /\
  (forall r, r ∈ progress db' -> r ∈ progress db \/ seq_progress db < prog_id r).

(** ** The voice directory ([get_available_voices], app.py 23-46) *)

(** What the request to the voice service comes to: an exception, or a
    status code with the listed voices in the order of the response, [None]
    when reading the body raises. *)
Inductive voices_reply : Type :=
| RequestFailed
| Reply (status_code : Z) (voices : option (list (string * Voice))).

Definition default_voice_directory : list (string * Voice) :=
  [("Default Voice", MkVoice "21m00Tcm4TlvDq8ikWAM" [])].

Definition get_available_voices (r : voices_reply) : list (string * Voice) :=
  match r with
  | Reply status_code (Some listed) =>
      if status_code =? 200 then
        match dict_from listed with
        | [] => default_voice_directory
        | voices => voices
        end
      else default_voice_directory
  | _ => default_voice_directory
  end.

(** ** The masked API key ([display_masked_api_key], app.py 104-107) *)

(** [key[:4] + "*" * (len(key) - 8) + key[-4:]] on the characters of the key. *)
Definition masked_chars (key : list ascii) : list ascii :=
  take 4 key ++
  replicate (Z.to_nat (Z.of_nat (length key) - 8)) "*"%char ++
  drop (length key - 4) key.

(** The text put in the sidebar, if any. *)
Definition display_masked_api_key (api_key : string) : option string :=
  if str_truthy api_key
  then Some ("API Key: " +:+ str_of (masked_chars (chars api_key)))
  else None.

(** ** Step 2: the text format of a script (app.py 144-192) *)

Fixpoint is_prefix (p s : list ascii) : bool :=
  match p, s with
  | [], _ => true
  | a :: p', b :: s' => Ascii.eqb a b && is_prefix p' s'
  | _ :: _, [] => false
  end.

(** [s.split(sep)] for a non-empty [sep]: [skip] counts the characters of a
    separator still to pass, [cur] holds the current piece in reverse. *)
Fixpoint split_on_aux (sep s : list ascii) (skip : nat) (cur : list ascii)
    : list (list ascii) :=
  match s with
  | [] => [rev cur]
  | c :: rest =>
      match skip with
      | S k => split_on_aux sep rest k cur
      | O =>
          if is_prefix sep s
          then rev cur :: split_on_aux sep rest (length sep - 1) []
          else split_on_aux sep rest 0 (c :: cur)
      end
  end.

Definition split_on (sep s : list ascii) : list (list ascii) := split_on_aux sep s 0 [].

(** [s.replace(old, '')] for a non-empty [old]. *)
Fixpoint remove_all_aux (old s : list ascii) (skip : nat) : list ascii :=
  match s with
  | [] => []
  | c :: rest =>
      match skip with
      | S k => remove_all_aux old rest k
      | O =>
          if is_prefix old s
          then remove_all_aux old rest (length old - 1)
          else c :: remove_all_aux old rest 0
      end
  end.

Definition remove_all (old s : list ascii) : list ascii := remove_all_aux old s 0.

(** [s.split(':', 1)] on a text that holds a colon: before and after the
    first one. *)
Fixpoint split_colon (s : list ascii) : list ascii * list ascii :=
  match s with
  | [] => ([], [])
  | c :: rest =>
      if Ascii.eqb c ":"%char then ([], rest)
      else let '(before, after) := split_colon rest in (c :: before, after)
  end.

Definition has_colon (s : list ascii) : bool := existsb (Ascii.eqb ":"%char) s.

(** One line of a speaker section (lines 171-183). *)
Definition parse_speaker_line (line : list ascii) : list DialogueLine :=
  let line := strip_chars line in
  match line with
  | [] => []
  | _ =>
      if has_colon line then
        let '(speaker, text) := split_colon line in
        let speaker :=
          if String.eqb (str_of (strip_chars speaker)) "Intro" ||
             String.eqb (str_of (strip_chars speaker)) "Outro"
          then chars "Presenter" else speaker in
        [Line (str_of (strip_chars speaker)) (str_of (strip_chars text)) None]
      else []
  end.

(** One section between delimiters (lines 153-183). *)
Definition parse_section (section : list ascii) : list DialogueLine :=
  let section := strip_chars section in
  match section with
  | [] => []
  | _ =>
      if is_prefix (chars "Intro:") section then
        [Line "Presenter" (str_of (strip_chars (remove_all (chars "Intro:") section))) None]
      else if is_prefix (chars "Outro:") section then
        [Line "Presenter" (str_of (strip_chars (remove_all (chars "Outro:") section))) None]
      else
        flat_map parse_speaker_line (split_on ["010"%char] section)
  end.

(** The script that "Convert and Load Script" builds from the text area. *)
Definition convert_script (text_input : string) : list DialogueLine :=
  flat_map parse_section (split_on (chars "-------------") (chars text_input)).

(** The button: a text without any line is refused and changes nothing. *)
Definition convert_and_load (text_input : string) (st : SessionState) : SessionState :=
  match convert_script text_input with
  | [] => st
  | script_data => set_script_loaded (set_script st script_data) true
  end.

(** Every stored title has a first word, so [title.split()[0]] is defined. *)
Definition titles_ok (db : Database) : Prop :=
  Forall (fun r => split_ws (pod_title r) <> []) (podcasts db).

(** What one committed call does to the store. *)
Inductive db_effect (db : Database) : Database -> Prop :=
| effect_none : db_effect db db
| effect_save_progress (now name : string) (script_doc config_doc : json)
    (audio_doc : option json) :
    db_effect db (insert_progress now name script_doc config_doc audio_doc db).1
| effect_delete_progress (progress_id : Z) :
    db_effect db (delete_progress_stmt progress_id db).1
| effect_save_podcast (now company podcast_title : string) (a b c : option bytes) :
    str_truthy (strip company) = true ->
    str_truthy (strip podcast_title) = true ->
    db_effect db (saved_podcast now (strip company +:+ " " +:+ strip podcast_title) a b c db)
| effect_delete_podcast (podcast_id : Z) :
    db_effect db (delete_podcast_rows podcast_id db).

(** ** Invariants of the session and the store *)

(** Every cached clip carries the label of its position. *)
Definition well_labelled {A} (cache : list (string * A)) : Prop :=
  forall j c, cache !! j = Some c -> c.1 = "Line " +:+ str_nat (j + 1).

(** What a row read back holds when it is the snapshot of a session: the
    script, the configuration and the serialized cache. *)
Record Snapshot : Type := MkSnapshot {
  snap_script : list DialogueLine;
  snap_config : Config;
  snap_audio : list stored_clip
}.

Definition snapshot_of (loaded : Loaded) : option Snapshot :=
  s ← script_of_py (loaded_script loaded);
  cfg ← config_of_py (loaded_config loaded);
  a ← match loaded_audio_segments loaded with
      | Some v => stored_of_py v
      | None => Some []
      end;
  Some (MkSnapshot s cfg a).

(** A row that holds the snapshot of a session, its cache labelled by
    position. *)
Definition row_saved (row : ProgressRow) : Prop :=
  exists snap, snapshot_of (loaded_of_row row) = Some snap /\ well_labelled (snap_audio snap).

(** The progress table: ids within the AUTOINCREMENT counter, and every row
    the snapshot of a session. *)
Definition progress_ok (db : Database) : Prop :=
  Forall (fun r => prog_id r <= seq_progress db) (progress db) /\
  Forall row_saved (progress db).

Definition world_ok (w : SessionState * Database) : Prop :=
  well_labelled (audio_segments w.1) /\ progress_ok w.2.

(** ** A concrete session used to run the handlers *)

(** A text-to-speech service that refuses an empty text and otherwise returns
    the voice id and the text as payload. *)
Definition demo_convert (vid txt : string) (_ : VoiceSettings) : option bytes :=
  if String.eqb txt "" then None
  else Some (map byte_of_ascii (chars (vid +:+ "|" +:+ txt))).

Definition demo_from_mp3 (bs : bytes) : option AudioSegment :=
  Some (map (fun b => Z.of_N (Byte.to_N b)) bs).

Definition demo_export (a : AudioSegment) : bytes :=
  map (fun z => default x00 (Byte.of_N (Z.to_N (z mod 256)))) a.

Definition demo_voices : list (string * Voice) :=
  [("Rachel", MkVoice "v-rachel" []); ("Eric Smooth", MkVoice "v-eric" [])].

Definition demo_config : Config :=
  MkConfig "" "" "" "" None
    (<["Host 1" := "Rachel"]> (<["Presenter" := "Eric Smooth"]> ∅))
    default_settings
    (Some (<["Host 1" := default_settings]> (<["Presenter" := default_settings]> ∅))).

(** Two lines, both already generated; the second line has since been
    emptied in the editor. *)
Definition demo_state : SessionState :=
  MkState [Line "Presenter" "Welcome" None; Line "Host 1" "" None]
          demo_config
          [("Line 1", Some [1; 2]); ("Line 2", Some [3])]
          5 demo_voices None true.

(** A cache whose third clip outlived the deletion of script line 3. *)
Definition demo_stale_state : SessionState :=
  MkState [Line "Presenter" "Welcome" None; Line "Host 1" "Hello" None]
          demo_config
          [("Line 1", Some [1; 2]); ("Line 2", Some [3]); ("Line 3", Some [4])]
          5 demo_voices None true.

(** A script loaded from JSON whose only line carries the marker but names
    another speaker, configured without having been through the edit page. *)
Definition demo_unedited_state : SessionState :=
  MkState [Line "Bob" "Intro: hi" None]
          (MkConfig "" "" "" "" None (<["Bob" := "Rachel"]> ∅) default_settings
                    (Some (<["Bob" := default_settings]> ∅)))
          [] 5 demo_voices None true.

(** A stand-in for [float.__repr__]; it is not consulted for dicts keyed by
    strings or integers. *)
Definition demo_repr (x : Q) : string := "0.5".

(** A snapshot: two clips, the second without audio. *)
Definition demo_clips : list (string * option bytes) :=
  [("Line 1", Some [x4d; x61]); ("Line 2", None)].

(** ** The collaborators: text-to-speech service and MP3 codec *)

(** [client.text_to_speech.convert(voice_id, text, settings)], chunks joined;
    [None] when the call raises. *)
Variable tts_convert : string -> string -> VoiceSettings -> option bytes.

(** [AudioSegment.from_mp3]; [None] when the payload cannot be decoded. *)
Variable from_mp3 : bytes -> option AudioSegment.

(** [audio.export(format="mp3").read()] *)
Variable export_mp3 : AudioSegment -> bytes.

(** ** Step 5: generate audio (app.py 84-101, 403-439) *)

(** [generate_audio(text, voice_id, speaker)] *)
Definition generate_audio (st : SessionState) (txt vid spk : string)
    : outcome AudioSegment :=
  per ← of_option KeyError (voice_settings_per_speaker (config st));
  settings ← of_option KeyError (per !! spk);
  audio_data ← of_option SynthesisError (tts_convert vid txt settings);
  of_option CouldntDecodeError (from_mp3 audio_data).

(** The voice id of a speaker:
    [available_voices[config['podcasters'][speaker]]['voice_id']]. *)
Definition voice_id_of (st : SessionState) (spk : string) : outcome string :=
  voice_name ← of_option KeyError (podcasters (config st) !! spk);
  voice ← of_option KeyError (dict_get (available_voices st) voice_name);
  Ok (voice_id voice).

(** The arguments [(text, voice_id, speaker)] that the "Generate All Audio"
    loop passes to [generate_audio] for a line (lines 408-414). *)
Definition line_request (st : SessionState) (line : DialogueLine)
    : outcome (string * string * string) :=
  let spk := speaker line in
  vid ← voice_id_of st spk;
  Ok (text line, vid, spk).

Definition line_label (i : nat) : string := "Line " +:+ str_nat (i + 1).

(** The body of the loop for the line at position [i]. *)
Definition generate_line (st : SessionState) (i : nat) (line : DialogueLine)
    : outcome clip :=
  '(txt, vid, spk) ← line_request st line;
  audio ← generate_audio st txt vid spk;
  Ok (line_label i, Some audio).

Fixpoint generate_loop (i : nat) (lines : list DialogueLine) (st : SessionState)
    : SessionState * outcome unit :=
  match lines with
  | [] => (st, Ok ())
  | line :: rest =>
      match generate_line st i line with
      | Ok c => generate_loop (S i) rest (set_audio_segments st (audio_segments st ++ [c]))
      | Raised e => (st, Raised e)
      end
  end.

(** The "Generate All Audio" handler (lines 403-417). *)
Definition generate_all (st : SessionState) : SessionState * outcome unit :=
  generate_loop 0 (script st) (set_audio_segments st []).

(** [int(label.split()[1]) - 1] *)
Definition line_index (label : string) : outcome Z :=
  tok ← py_index (split_ws label) 1;
  n ← py_int tok;
  Ok (n - 1).

(** The position a Python index denotes in a list of length [len]. *)
Definition norm_index (len : nat) (z : Z) : nat :=
  if 0 <=? z then Z.to_nat z else Z.to_nat (Z.of_nat len + z).

(** What the display loop does for one cached clip before its button
    (lines 425-429): play it, then resolve its script line from the label. *)
Definition render_clip (st : SessionState) (c : clip) : outcome (Z * DialogueLine) :=
  _ ← of_option AttributeError c.2;
  idx ← line_index c.1;
  line ← py_index (script st) idx;
  Ok (idx, line).

Fixpoint render_clips (st : SessionState) (cs : list clip) : outcome unit :=
  match cs with
  | [] => Ok ()
  | c :: rest => _ ← render_clip st c; render_clips st rest
  end.

(** [script[idx]['text'] = new_text] *)
Definition set_line_text (s : list DialogueLine) (idx : Z) (new_text : string)
    : list DialogueLine :=
  let k := norm_index (length s) idx in
  match s !! k with
  | Some l => <[k := Line (speaker l) new_text (uid l)]> s
  | None => s
  end.

(** The display loop with the "Regenerate" button of clip [i] pressed and
    [new_text] in its text area (lines 420-439).  Clips before [i] are
    rendered first; the press ends the run. *)
Definition regenerate (i : nat) (new_text : string) (st : SessionState)
    : SessionState * outcome unit :=
  match render_clips st (take i (audio_segments st)) with
  | Raised e => (st, Raised e)
  | Ok _ =>
      match audio_segments st !! i with
      | None => (st, Ok ())
      | Some c =>
          match ('(idx, line) ← render_clip st c;
                 vid ← voice_id_of st (speaker line);
                 new_audio ← generate_audio st new_text vid (speaker line);
                 Ok (idx, new_audio)) with
          | Raised e => (st, Raised e)
          | Ok (idx, new_audio) =>
              let st := set_script st (set_line_text (script st) idx new_text) in
              (set_audio_segments st (<[i := (c.1, Some new_audio)]> (audio_segments st)), Ok ())
          end
      end
  end.

(** *** Save and load progress (lines 349-399) *)

(** The serialized cache built by the save handler (lines 354-362). *)
Definition serialize_segments (cache : list clip) : list stored_clip :=
  map (fun c : clip =>
         match c.2 with
         | Some audio =>
             if 0 <? audio_len audio
             then (c.1, Some (b64encode (export_mp3 audio)))
             else (c.1, None)
         | None => (c.1, None)
         end) cache.

Definition world : Type := SessionState * Database.

(** The "Save Progress" button with [progress_name] in the name field. *)
Definition save_progress_click (progress_name : string) (fl : list bool) (now : string)
    (w : world) : world * outcome unit :=
  let '(st, db) := w in
  if str_truthy (strip progress_name) then
    let '(db', r) := save_progress fl now db (strip progress_name)
                       (py_of_script (script st)) (py_of_config (config st))
                       (Some (py_of_stored (serialize_segments (audio_segments st)))) in
    ((st, db'), r)
  else (w, Ok ()).

(** The MP3 payload of one serialized entry: [base64.b64decode(b64_audio)]
    under [if b64_audio], else nothing (lines 384-385). *)
Definition stored_audio_bytes (c : stored_clip) : outcome (option bytes) :=
  match c.2 with
  | Some b64_audio =>
      if str_truthy b64_audio then
        audio_bytes ← b64decode b64_audio;
        Ok (Some audio_bytes)
      else Ok None
  | None => Ok None
  end.

(** One serialized entry read back (lines 384-389). *)
Definition deserialize_clip (c : stored_clip) : outcome clip :=
  payload ← stored_audio_bytes c;
  match payload with
  | Some audio_bytes =>
      audio ← of_option CouldntDecodeError (from_mp3 audio_bytes);
      Ok (c.1, Some audio)
  | None => Ok (c.1, None)
  end.

Fixpoint deserialize_segments (l : list stored_clip) : outcome (list clip) :=
  match l with
  | [] => Ok []
  | c :: rest =>
      c' ← deserialize_clip c;
      rest' ← deserialize_segments rest;
      Ok (c' :: rest')
  end.

(** The labels and MP3 payloads held by a serialized cache. *)
Fixpoint stored_payloads (l : list stored_clip) : outcome (list (string * option bytes)) :=
  match l with
  | [] => Ok []
  | c :: rest =>
      payload ← stored_audio_bytes c;
      rest' ← stored_payloads rest;
      Ok ((c.1, payload) :: rest')
  end.

(** A cache entry as the save handler encodes it before base64. *)
Definition encoded_clip (c : clip) : string * option bytes :=
  match c.2 with
  | Some audio => if 0 <? audio_len audio then (c.1, Some (export_mp3 audio)) else (c.1, None)
  | None => (c.1, None)
  end.

(** What a cache entry becomes when it is saved and read back: the label
    is kept; audio of positive length is exported to MP3 and decoded again;
    an entry without audio, or with audio of length zero, has none. *)
Definition reloaded_audio (c : clip) : option AudioSegment :=
  match c.2 with
  | Some a => if 0 <? audio_len a then from_mp3 (export_mp3 a) else None
  | None => None
  end.

(** The "Load Selected Progress" button for the row [progress_id]: the
    script and the configuration of the row are installed before the cache is
    decoded.  [None] when the row is not the snapshot of a session, which no
    row of a store that the application wrote is. *)
Definition load_progress_click (progress_id : Z) (w : world)
    : option (world * outcome unit) :=
  let '(st, db) := w in
  match load_progress_by_id db progress_id with
  | Raised e => Some (w, Raised e)
  | Ok None => Some (w, Ok ())
  | Ok (Some loaded) =>
      snap ← snapshot_of loaded;
      let st := set_script st (snap_script snap) in
      let st := set_config st (snap_config snap) in
      Some match snap_audio snap with
           | c :: cs =>
               match deserialize_segments (c :: cs) with
               | Ok segs => ((set_audio_segments st segs, db), Ok ())
               | Raised e => ((st, db), Raised e)
               end
           | [] => ((set_audio_segments st [], db), Ok ())
           end
  end.

(** The world after the button; a row that is not the snapshot of a session
    is in no store that the application can reach, and leaves the world as
    it is. *)
Definition loaded_world (progress_id : Z) (w : world) : world :=
  match load_progress_click progress_id w with
  | Some r => r.1
  | None => w
  end.

(** ** Step 6: finalize (app.py 444-499) *)

(** What the finalize page offers. *)
Inductive view : Type :=
| WarnNoAudio
| WarnMissingFields
| OfferFinalize
| OfferProceed.

Definition step_6_view (company podcast_title : string) (st : SessionState) : view :=
  match audio_segments st with
  | [] => WarnNoAudio
  | _ =>
      if negb (str_truthy (strip company)) || negb (str_truthy (strip podcast_title))
      then WarnMissingFields
      else if default false (podcast_finalized st) then OfferProceed
      else OfferFinalize
  end.

(** [export(format="mp3").read() if len(bucket) > 0 else None] *)
Definition bucket_bytes (a : AudioSegment) : option bytes :=
  if 0 <? audio_len a then Some (export_mp3 a) else None.

(** The body of the "Finalize Podcast" button (lines 462-495). *)
Definition finalize (company podcast_title : string) (fl : list bool) (now : string)
    (w : world) : world * outcome unit :=
  let '(st, db) := w in
  match assemble (audio_segments st) with
  | Raised e => (w, Raised e)
  | Ok b =>
      match save_podcast fl now db (strip company +:+ " " +:+ strip podcast_title)
              (bucket_bytes (intro_audio b))
              (bucket_bytes (hosts_discussion b))
              (bucket_bytes (outro_audio b)) with
      | (db', Ok _) => ((set_podcast_finalized st (Some true), db'), Ok ())
      | (db', Raised _) => ((st, db'), Ok ())
      end
  end.

(** The finalize page with the two text fields as given and the offered
    button pressed or not. *)
Definition step_6 (company podcast_title : string) (pressed : bool)
    (fl : list bool) (now : string) (w : world) : world * outcome unit :=
  let '(st, db) := w in
  match step_6_view company podcast_title st with
  | WarnNoAudio | WarnMissingFields => (w, Ok ())
  | OfferFinalize =>
      let st :=
        match podcast_finalized st with
        | None => set_podcast_finalized st (Some false)
        | Some _ => st
        end in
      if pressed then finalize company podcast_title fl now (st, db)
      else ((st, db), Ok ())
  | OfferProceed =>
      if pressed then ((set_current_step st 7, db), Ok ()) else (w, Ok ())
  end.

(** ** Step 7: choosing a podcast (app.py 512-531) *)

(** [str.lower], the case mapping of the Python runtime. *)
Variable lower : string -> string.

(** [f"{p['title']}  |  {p['created_at']}"] *)
Definition podcast_label (p : PodcastRow) : string :=
  pod_title p +:+ "  |  " +:+ pod_created_at p.

(** [p['title'].split()[0] for p in podcasts], the words the company filter
    is built from. *)
Fixpoint title_first_words (podcasts : list PodcastRow) : outcome (list string) :=
  match podcasts with
  | [] => Ok []
  | p :: rest =>
      w ← py_index (split_ws (pod_title p)) 0;
      ws ← title_first_words rest;
      Ok (w :: ws)
  end.

(** [[p for p in podcasts if selected_company.lower() in p['title'].lower()]] *)
Definition filtered_podcasts (podcasts : list PodcastRow) (selected_company : string)
    : list PodcastRow :=
  filter (fun p => str_in (lower selected_company) (lower (pod_title p)) = true) podcasts.

(** What the page shows below the two select boxes. *)
Inductive podcast_page : Type :=
| NoPodcasts
| NothingSelected
| Shown (selected_podcast : PodcastRow).

(** The head of [step_7] for the list [podcasts] that [get_all_podcasts]
    returned and the values of the two select boxes. *)
Definition step_7 (podcasts : list PodcastRow) (selected_company selected_option : string)
    : outcome podcast_page :=
  match podcasts with
  | [] => Ok NoPodcasts
  | _ =>
      _ ← title_first_words podcasts;
      let options := map podcast_label (filtered_podcasts podcasts selected_company) in
      if negb (str_truthy selected_option) then Ok NothingSelected
      else
        selected_idx ← of_option ValueError (list_index options selected_option);
        selected_podcast ← py_index podcasts (Z.of_nat selected_idx);
        Ok (Shown selected_podcast)
  end.

(** ** The pages as one transition system (app.py 593-624)

    One event is one run of [main]: a sidebar button or a "Proceed" button
    followed by the page it leads to, or the operator's input on the page of
    the current step.  [LoadScript] carries the script that step 2 accepted;
    [fresh] and [refetched] are what [uuid.uuid4] and [get_available_voices]
    return if the page calls them. *)
Inductive event : Type :=
| Navigate (clicked_step : Z) (fresh : nat -> string) (refetched : list (string * Voice))
| Proceed (fresh : nat -> string) (refetched : list (string * Voice))
| LoadScript (s : list DialogueLine) (imported : bool)
| EditScript (fresh : nat -> string) (speaker_typed text_typed : string -> option string)
    (click : edit_click)
| Configure (refetched : list (string * Voice)) (chosen : string -> option string)
    (slid : string -> option VoiceSettings)
| GenerateAll
| Regenerate (i : nat) (new_text : string)
| SaveProgress (progress_name : string) (fl : list bool) (now : string)
| LoadProgress (progress_id : Z)
| DeleteProgress (progress_id : Z) (fl : list bool)
| FinalizePage (company podcast_title : string) (pressed : bool) (fl : list bool) (now : string)
| DeletePodcast (podcast_id : Z) (fl : list bool).

Definition on_step (n : Z) (w : world) (w' : world) : world :=
  if current_step w.1 =? n then w' else w.

(** The page of the current step drawn with nothing typed or pressed; only
    the edit and configuration pages write to the session state then. *)
Definition render_page (fresh : nat -> string) (refetched : list (string * Voice))
    (w : world) : world :=
  let '(st, db) := w in
  if current_step st =? 3
  then ((step_3 fresh (fun _ => None) (fun _ => None) NoClick st).1, db)
  else if current_step st =? 4
  then ((step_4 refetched (fun _ => None) (fun _ => None) st).1, db)
  else w.

Definition handle (e : event) (w : world) : world :=
  let '(st, db) := w in
  match e with
  | Navigate clicked_step fresh refetched =>
      render_page fresh refetched (set_current_step st (clicked_step + 2), db)
  | Proceed fresh refetched =>
      if (current_step st =? 2) && script_loaded st
      then render_page fresh refetched (set_current_step st 3, db)
      else if (3 <=? current_step st) && (current_step st <=? 5)
      then render_page fresh refetched (set_current_step st (current_step st + 1), db)
      else w
  | LoadScript s imported =>
      on_step 2 w
        (if imported then (set_current_step (set_script st s) 3, db)
         else (set_script_loaded (set_script st s) true, db))
  | EditScript fresh speaker_typed text_typed click =>
      on_step 3 w ((step_3 fresh speaker_typed text_typed click st).1, db)
  | Configure refetched chosen slid =>
      on_step 4 w ((step_4 refetched chosen slid st).1, db)
  | GenerateAll => on_step 5 w ((generate_all st).1, db)
  | Regenerate i new_text => on_step 5 w ((regenerate i new_text st).1, db)
  | SaveProgress progress_name fl now =>
      on_step 5 w (save_progress_click progress_name fl now w).1
  | LoadProgress progress_id => on_step 5 w (loaded_world progress_id w)
  | DeleteProgress progress_id fl =>
      on_step 5 w (st, (delete_progress fl db progress_id).1)
  | FinalizePage company podcast_title pressed fl now =>
      on_step 6 w (step_6 company podcast_title pressed fl now w).1
  | DeletePodcast podcast_id fl =>
      on_step 7 w (st, (delete_podcast fl db podcast_id).1)
  end.

Definition run (es : list event) (w : world) : world :=
  foldl (fun w e => handle e w) w es.

(** The worlds the application can be in: a fresh session on an empty store,
    a run of [main], or a fresh session on the store as it stands. *)
Inductive reachable : world -> Prop :=
| reach_init (voices : list (string * Voice)) :
    reachable (init_session_state voices, empty_db)
| reach_step (e : event) (w : world) :
    reachable w -> reachable (handle e w)
| reach_session (voices : list (string * Voice)) (w : world) :
    reachable w -> reachable (init_session_state voices, w.2).

(** The worlds that come after [w]: [w] itself, then runs of [main] and fresh
    sessions on the store as it stands. *)
Inductive later (w : world) : world -> Prop :=
| later_now : later w w
| later_step (e : event) (w' : world) :
    later w w' -> later w (handle e w')
| later_session (voices : list (string * Voice)) (w' : world) :
    later w w' -> later w (init_session_state voices, w'.2).

(** ** Checks of the string and base64 primitives *)

Example b64_Man : b64encode [x4d; x61; x6e] = "TWFu".
Proof. reflexivity. Qed.

Example b64_Ma : b64encode [x4d; x61] = "TWE=".
Proof. reflexivity. Qed.

Example b64_M : b64decode "TQ==" = Ok [x4d].
Proof. reflexivity. Qed.

Example b64_bad : b64decode "TQ=" = Raised ValueError.
Proof. reflexivity. Qed.

Example b64_newline : b64decode "TWFu
" = Ok [x4d; x61; x6e].
Proof. reflexivity. Qed.

Example b64_blank : b64decode "TW Fu" = Ok [x4d; x61; x6e].
Proof. reflexivity. Qed.

Example b64_after_padding : b64decode "TQ==TWFu" = Ok [x4d].
Proof. reflexivity. Qed.

Example b64_one_character : b64decode "T" = Raised ValueError.
Proof. reflexivity. Qed.

Example strip_nbsp :
  strip (String "194" (String "160" ("Acme" +:+ String "226" (String "128" (String "131" "")))))
  = "Acme".
Proof. reflexivity. Qed.

Example split_nbsp :
  split_ws ("a" +:+ String "194" (String "160" "b")) = ["a"; "b"].
Proof. reflexivity. Qed.

(** A company name that is one no-break space (U+00A0) is blank: the
    finalize page warns and offers no button. *)
Example view_nbsp_company :
  step_6_view (String "194" (String "160" "")) "Weekly" demo_state = WarnMissingFields.
Proof. reflexivity. Qed.

Example split_label : split_ws "Line 12" = ["Line"; "12"].
Proof. reflexivity. Qed.

Example int_12 : py_int "12" = Ok 12.
Proof. reflexivity. Qed.

Example int_underscore : py_int " -1_0 " = Ok (-10).
Proof. reflexivity. Qed.

Example int_bad : py_int "1__0" = Raised ValueError.
Proof. reflexivity. Qed.

Example str_12 : str_nat 12 = "12".
Proof. reflexivity. Qed.

(** ** Assembly *)

Lemma assemble_step_first (n : Z) (lab : string) (a : AudioSegment) (b : buckets) :
  assemble_step n 0 (lab, Some a) b =
  Ok (Buckets (intro_audio b ++ padded a) (hosts_discussion b) (outro_audio b)).
Proof. reflexivity. Qed.

Lemma assemble_step_last (n i : Z) (lab : string) (a : AudioSegment) (b : buckets) :
  i <> 0 -> i = n - 1 ->
  assemble_step n i (lab, Some a) b =
  Ok (Buckets (intro_audio b) (hosts_discussion b) (outro_audio b ++ padded a)).
Proof.
  intros Hi Hn. unfold assemble_step. cbn.
  destruct (Z.eqb_spec i 0); [done|].
  by destruct (Z.eqb_spec i (n - 1)).
Qed.

Lemma assemble_step_mid (n i : Z) (lab : string) (a : AudioSegment) (b : buckets) :
  i <> 0 -> i <> n - 1 ->
  assemble_step n i (lab, Some a) b =
  Ok (Buckets (intro_audio b) (hosts_discussion b ++ padded a) (outro_audio b)).
Proof.
  intros Hi Hn. unfold assemble_step. cbn.
  destruct (Z.eqb_spec i 0); [done|].
  by destruct (Z.eqb_spec i (n - 1)).
Qed.

Lemma padded_concat_cons (a : AudioSegment) (l : list AudioSegment) :
  padded_concat (a :: l) = padded a ++ padded_concat l.
Proof. reflexivity. Qed.

Lemma assemble_loop_middle (n i : Z) (l : list (string * AudioSegment)) (b : buckets) :
  0 < i -> i + Z.of_nat (length l) <= n - 1 ->
  assemble_loop n i (present l) b =
  Ok (Buckets (intro_audio b)
              (hosts_discussion b ++ padded_concat (map snd l))
              (outro_audio b)).
Proof.
  revert i b. induction l as [|[lab a] l IH]; intros i b Hi Hn.
  - cbn. rewrite app_nil_r. by destruct b.
  - cbn [present map assemble_loop fst snd length] in *.
    rewrite assemble_step_mid by lia. cbn [mbind outcome_bind].
    fold (present l). rewrite IH by lia. cbn [intro_audio hosts_discussion outro_audio].
    by rewrite padded_concat_cons, app_assoc.
Qed.

Lemma assemble_loop_app (n i : Z) (l1 l2 : list clip) (b : buckets) :
  assemble_loop n i (l1 ++ l2) b =
  assemble_loop n i l1 b ≫= assemble_loop n (i + Z.of_nat (length l1)) l2.
Proof.
  revert i b. induction l1 as [|c l1 IH]; intros i b.
  - cbn. by rewrite Z.add_0_r.
  - cbn [assemble_loop app length]. destruct (assemble_step n i c b) as [b'|e]; cbn; [|done].
    rewrite IH. by replace (i + 1 + Z.of_nat (length l1)) with (i + Z.of_nat (S (length l1))) by lia.
Qed.

Lemma present_app (l1 l2 : list (string * AudioSegment)) :
  present (l1 ++ l2) = present l1 ++ present l2.
Proof. unfold present. by rewrite map_app. Qed.

Lemma length_present (l : list (string * AudioSegment)) :
  length (present l) = length l.
Proof. unfold present. by rewrite length_map. Qed.

(** The buckets of a cache of [N >= 2] clips [first :: mid ++ [last]]. *)
Lemma assemble_first_mid_last (c1 : string * AudioSegment)
    (mid : list (string * AudioSegment)) (cN : string * AudioSegment) :
  assemble (present (c1 :: mid ++ [cN])) =
  Ok (Buckets (padded c1.2) (padded_concat (map snd mid)) (padded cN.2)).
Proof.
  unfold assemble. rewrite length_present.
  change (present (c1 :: mid ++ [cN])) with ((c1.1, Some c1.2) :: present (mid ++ [cN])).
  cbn [assemble_loop]. rewrite assemble_step_first. cbn [mbind outcome_bind].
  rewrite present_app, assemble_loop_app.
  rewrite assemble_loop_middle; [|lia|cbn [length]; rewrite length_app; simpl; lia].
  cbn [mbind outcome_bind present map assemble_loop].
  rewrite assemble_step_last;
    [done|rewrite length_present; lia
    |rewrite length_present; cbn [length]; rewrite length_app; simpl; lia].
Qed.

Lemma assemble_single (c1 : string * AudioSegment) :
  assemble (present [c1]) = Ok (Buckets (padded c1.2) audio_empty audio_empty).
Proof. reflexivity. Qed.

Lemma assemble_none : assemble [] = Ok empty_buckets.
Proof. reflexivity. Qed.

(** Every cache of present clips assembles, and each bucket is the padded
    concatenation of a segment of the cache: the first clip, the clips
    strictly between the first and the last, the last clip of two or more. *)
Lemma assemble_spec (cs : list (string * AudioSegment)) :
  assemble (present cs) =
  Ok (Buckets
        (padded_concat (map snd (take 1 cs)))
        (padded_concat (map snd (take (length cs - 2) (drop 1 cs))))
        (padded_concat (map snd (if (2 <=? length cs)%nat
                                 then drop (length cs - 1) cs else [])))).
Proof.
  destruct cs as [|c1 [|c2 rest]]; [done| |].
  - rewrite assemble_single. cbn. unfold padded_concat. cbn. by rewrite app_nil_r.
  - destruct (exists_last (l := c2 :: rest)) as (mid & cN & E); [done|].
    rewrite E, assemble_first_mid_last.
    assert (Hn : length (c1 :: mid ++ [cN]) = S (S (length mid)))
      by (cbn [length]; rewrite length_app; simpl; lia).
    rewrite Hn. cbn [Nat.leb take map].
    replace (take (S (S (length mid)) - 2) (drop 1 (c1 :: mid ++ [cN]))) with mid.
    2: { cbn [drop]. replace (S (S (length mid)) - 2)%nat with (length mid) by lia.
         by rewrite drop_0, take_app_length. }
    replace (drop (S (S (length mid)) - 1) (c1 :: mid ++ [cN])) with [cN].
    2: { replace (S (S (length mid)) - 1)%nat with (S (length mid)) by lia.
         cbn [drop]. by rewrite ?drop_0, drop_app_length. }
    unfold padded_concat. cbn. by rewrite !app_nil_r.
Qed.

Lemma audio_len_padded (a : AudioSegment) : audio_len (padded a) = audio_len a + 300.
Proof.
  unfold audio_len, padded, silent. rewrite length_app, length_replicate. lia.
Qed.

Lemma audio_len_padded_concat (l : list AudioSegment) :
  audio_len (padded_concat l) =
  foldr (fun a acc => audio_len a + 300 + acc) 0 l.
Proof.
  induction l as [|a l IH]; [done|].
  rewrite padded_concat_cons. cbn [foldr]. rewrite <- IH, <- audio_len_padded.
  unfold audio_len. rewrite length_app. lia.
Qed.

(** C2. Assembly partitions the cache by position only.  For every ordered
    list of N clips the intro bucket is built from clip 1 alone, the
    discussion bucket from clips 2..N-1 in order, and the outro bucket from
    clip N alone when N >= 2; with N = 1 the single clip goes to the intro
    and the discussion and outro buckets are empty and reported as no audio;
    with N = 0 all three buckets are empty and reported as no audio. *)
Theorem assemble_partition_by_position (cs : list (string * AudioSegment)) :
  exists b : buckets,
    assemble (present cs) = Ok b /\
    intro_audio b = padded_concat (map snd (take 1 cs)) /\
    hosts_discussion b =
      padded_concat (map snd (take (length cs - 2) (drop 1 cs))) /\
    outro_audio b =
      padded_concat (map snd (if (2 <=? length cs)%nat
                              then drop (length cs - 1) cs else [])) /\
    (length cs = 1%nat ->
       hosts_discussion b = audio_empty /\ outro_audio b = audio_empty /\
       bucket_bytes (hosts_discussion b) = None /\
       bucket_bytes (outro_audio b) = None) /\
    (length cs = 0%nat ->
       b = empty_buckets /\
       bucket_bytes (intro_audio b) = None /\
       bucket_bytes (hosts_discussion b) = None /\
       bucket_bytes (outro_audio b) = None).
Proof.
  eexists. split; [apply assemble_spec|]. cbn [intro_audio hosts_discussion outro_audio].
  repeat split; try reflexivity.
  - destruct cs as [|c [|c' cs]]; try discriminate. reflexivity.
  - destruct cs as [|c [|c' cs]]; try discriminate. reflexivity.
  - destruct cs as [|c [|c' cs]]; try discriminate. reflexivity.
  - destruct cs as [|c [|c' cs]]; try discriminate. reflexivity.
  - destruct cs; try discriminate. reflexivity.
  - destruct cs; try discriminate. reflexivity.
  - destruct cs; try discriminate. reflexivity.
  - destruct cs; try discriminate. reflexivity.
Qed.

(** C7. Every clip folded into a bucket is followed at once by 300 ms of
    silence, the last clip of the bucket included, and nothing is trimmed
    afterwards: the cache splits into the clips of the three buckets, each
    bucket is the concatenation, in order, of clip + 300 ms of silence over
    its clips, and its duration is the sum of the clip durations plus 300 ms
    per clip. *)
Theorem assemble_pads_every_clip (cs : list (string * AudioSegment)) :
  exists (b : buckets) (first mid last : list AudioSegment),
    assemble (present cs) = Ok b /\
    map snd cs = first ++ mid ++ last /\
    intro_audio b = concat (map (fun a => a ++ replicate 300 0) first) /\
    hosts_discussion b = concat (map (fun a => a ++ replicate 300 0) mid) /\
    outro_audio b = concat (map (fun a => a ++ replicate 300 0) last) /\
    audio_len (intro_audio b) = foldr (fun a acc => audio_len a + 300 + acc) 0 first /\
    audio_len (hosts_discussion b) = foldr (fun a acc => audio_len a + 300 + acc) 0 mid /\
    audio_len (outro_audio b) = foldr (fun a acc => audio_len a + 300 + acc) 0 last.
Proof.
  eexists.
  exists (map snd (take 1 cs)),
         (map snd (take (length cs - 2) (drop 1 cs))),
         (map snd (if (2 <=? length cs)%nat then drop (length cs - 1) cs else [])).
  split; [apply assemble_spec|]. cbn [intro_audio hosts_discussion outro_audio].
  split.
  - rewrite <- !map_app. f_equal.
    destruct cs as [|c1 [|c2 rest]]; [done|done|].
    destruct (exists_last (l := c2 :: rest)) as (mid & cN & E); [done|]. rewrite E.
    assert (Hn : length (c1 :: mid ++ [cN]) = S (S (length mid)))
      by (cbn [length]; rewrite length_app; simpl; lia).
    rewrite Hn. cbn [Nat.leb take app]. f_equal.
    replace (S (S (length mid)) - 2)%nat with (length mid) by lia.
    replace (S (S (length mid)) - 1)%nat with (S (length mid)) by lia.
    cbn [drop]. by rewrite ?drop_0, take_app_length, drop_app_length.
  - repeat split; try reflexivity; apply audio_len_padded_concat.
Qed.

(** ** Voice defaults *)

Lemma first_voice_cons (v0 : string) (info0 : Voice) (rest : list (string * Voice)) :
  first_voice ((v0, info0) :: rest) = Ok v0.
Proof. reflexivity. Qed.

Lemma list_index_In (l : list string) (x : string) :
  In x l -> exists k, list_index l x = Some k.
Proof.
  induction l as [|y l IH]; [done|]. intros [->|Hin]; cbn.
  - rewrite String.eqb_refl. by eexists.
  - destruct (String.eqb y x); [by eexists|].
    destruct (IH Hin) as [k ->]. by eexists.
Qed.

(** [find] returns the first element that passes the test. *)
Lemma find_first {A} (f : A -> bool) (l : list A) (x : A) :
  find f l = Some x ->
  exists l1 l2, l = l1 ++ x :: l2 /\ f x = true /\ forall y, In y l1 -> f y = false.
Proof.
  induction l as [|a l IH]; [done|]. cbn. destruct (f a) eqn:Ha.
  - intros [= ->]. exists [], l. by repeat split.
  - intros Hf. destruct (IH Hf) as (l1 & l2 & -> & Hx & Hl1).
    exists (a :: l1), l2. repeat split; [done|].
    intros y [<-|Hy]; [done|by apply Hl1].
Qed.

Lemma initial_voice_in_keys (avail : list (string * Voice)) (podcaster v : string) :
  initial_voice avail podcaster = Ok v -> In v (dict_keys avail).
Proof.
  destruct avail as [|[v0 info0] rest].
  - unfold initial_voice. by destruct (dict_get default_voices podcaster) as [[? ?]|].
  - unfold initial_voice. destruct (dict_get default_voices podcaster) as [[vid name]|].
    + rewrite first_voice_cons. cbn [mbind outcome_bind].
      destruct (find _ _) as [w|] eqn:Hf; cbn [default]; intros [= <-].
      * by apply find_some in Hf as [? _].
      * by left.
    + rewrite first_voice_cons. intros [= <-]. by left.
Qed.

(** C8. Voice given to a speaker met for the first time, the available
    voices [(v0, info0) :: rest] being non-empty.  If the speaker has a
    default mapping and some available voice matches the preferred name (its
    name contains it), the first such voice is assigned; if none matches, or
    the speaker has no default mapping, the first available voice [v0] is
    assigned; the assignment never fails, and with a single available voice
    and no default mapping it is that voice.  The configuration step stores
    that voice for the speaker. *)
Theorem initial_voice_assignment (v0 : string) (info0 : Voice)
    (rest : list (string * Voice)) (podcaster : string) :
  let avail := (v0, info0) :: rest in
  (forall vid name, dict_get default_voices podcaster = Some (vid, name) ->
     ((exists v, In v (dict_keys avail) /\ str_in name v = true) ->
      exists before v after,
        initial_voice avail podcaster = Ok v /\
        dict_keys avail = before ++ v :: after /\
        str_in name v = true /\
        forall u, In u before -> str_in name u = false) /\
     ((forall v, In v (dict_keys avail) -> str_in name v = false) ->
      initial_voice avail podcaster = Ok v0)) /\
  (dict_get default_voices podcaster = None ->
     initial_voice avail podcaster = Ok v0) /\
  (exists v, initial_voice avail podcaster = Ok v) /\
  (dict_get default_voices podcaster = None -> rest = [] ->
     forall v, In v (dict_keys avail) -> initial_voice avail podcaster = Ok v) /\
  (forall st slid v,
     available_voices st = avail ->
     podcasters (config st) !! podcaster = None ->
     initial_voice avail podcaster = Ok v ->
     exists st',
       configure_podcaster (fun _ => None) slid podcaster st = (st', Ok ()) /\
       podcasters (config st') !! podcaster = Some v).
Proof.
  intros avail. subst avail. repeat split.
  - intros (v & Hin & Hv). unfold initial_voice. rewrite H.
    rewrite first_voice_cons. cbn [mbind outcome_bind].
    destruct (find (fun voice => str_in name voice) (dict_keys _)) as [w|] eqn:Hf.
    + destruct (find_first _ _ _ Hf) as (l1 & l2 & E & Hw & Hl1).
      exists l1, w, l2. by repeat split.
    + by rewrite (find_none _ _ Hf v Hin) in Hv.
  - intros Hnone. unfold initial_voice. rewrite H.
    rewrite first_voice_cons. cbn [mbind outcome_bind].
    destruct (find (fun voice => str_in name voice) (dict_keys _)) as [w|] eqn:Hf; [|done].
    apply find_some in Hf as [Hin Hw]. by rewrite (Hnone w Hin) in Hw.
  - intros Hd. unfold initial_voice. by rewrite Hd.
  - unfold initial_voice. destruct (dict_get default_voices podcaster) as [[vid name]|].
    + rewrite first_voice_cons. cbn [mbind outcome_bind]. by eexists.
    + by eexists.
  - intros Hd -> v [<-|[]]. unfold initial_voice. by rewrite Hd.
  - intros st slid v Hav Hp Hv. unfold configure_podcaster.
    cbn [config set_config set_voice_settings_per_speaker podcasters available_voices].
    rewrite Hp, Hav, Hv.
    destruct (list_index_In _ _ (initial_voice_in_keys _ _ _ Hv)) as [k ->].
    cbn [default]. eexists. split; [reflexivity|].
    cbn [config set_config set_voice_settings_per_speaker set_podcasters podcasters].
    by rewrite lookup_insert_eq.
Qed.

(** ** Labels: printing a position and reading it back *)

Lemma is_dec_plain (c : ascii) : is_dec c = true -> is_plain c = true.
Proof.
  unfold is_dec, is_plain, is_space. intros [H1 H2]%andb_true_iff.
  apply Nat.leb_le in H1, H2. apply andb_true_iff. split; [|apply Nat.ltb_lt; lia].
  apply negb_true_iff, orb_false_iff. split; apply andb_false_iff; right.
  - apply Nat.leb_gt. lia.
  - apply Nat.leb_gt. lia.
Qed.

Lemma eqb_low_high (c d : ascii) :
  (nat_of_ascii c < 128)%nat -> (128 <=? nat_of_ascii d)%nat = true -> Ascii.eqb c d = false.
Proof.
  intros Hc Hd. apply Nat.leb_le in Hd.
  destruct (Ascii.eqb_spec c d) as [->|]; [lia|done].
Qed.

Lemma is_plain_spec (c : ascii) :
  is_plain c = true -> is_space c = false /\ (nat_of_ascii c < 128)%nat.
Proof.
  unfold is_plain. intros [H1 H2]%andb_true_iff.
  split; [by apply negb_true_iff|by apply Nat.ltb_lt].
Qed.

Lemma space_width_plain (c : ascii) (rest : list ascii) :
  is_plain c = true -> space_width (c :: rest) = 0%nat.
Proof.
  intros [Hs Hc]%is_plain_spec. unfold space_width. rewrite Hs.
  destruct rest as [|b r2]; [done|]. unfold is_space2.
  rewrite (eqb_low_high c "194" Hc eq_refl). cbn [andb].
  destruct r2 as [|d r3]; [done|]. unfold is_space3.
  by rewrite (eqb_low_high c "225" Hc eq_refl), (eqb_low_high c "226" Hc eq_refl),
             (eqb_low_high c "227" Hc eq_refl).
Qed.

Lemma space_width_end_plain (c : ascii) (rest : list ascii) :
  is_plain c = true -> space_width_end (c :: rest) = 0%nat.
Proof.
  intros [Hs Hc]%is_plain_spec. unfold space_width_end. rewrite Hs.
  destruct rest as [|b r2]; [done|]. unfold is_space2.
  rewrite (eqb_low_high c "133" Hc eq_refl), (eqb_low_high c "160" Hc eq_refl).
  rewrite andb_false_r.
  destruct r2 as [|a r3]; [done|]. unfold is_space3.
  rewrite (eqb_low_high c "128" Hc eq_refl), (eqb_low_high c "168" Hc eq_refl),
          (eqb_low_high c "169" Hc eq_refl), (eqb_low_high c "175" Hc eq_refl),
          (eqb_low_high c "159" Hc eq_refl).
  replace (128 <=? nat_of_ascii c)%nat with false by (symmetry; apply Nat.leb_gt; lia).
  by rewrite !andb_false_r.
Qed.

Lemma strip_front_fixed (width : list ascii -> nat) (cs : list ascii) :
  width cs = 0%nat -> strip_front width cs = cs.
Proof. destruct cs as [|c cs]; [done|]. cbn. by intros ->. Qed.

Lemma digit_val_dec (c : ascii) :
  is_dec c = true -> digit_val c = Some (Z.of_nat (nat_of_ascii c) - 48).
Proof. unfold is_dec, digit_val. by intros ->. Qed.

Lemma int_digits_dec (c : ascii) (rest : list ascii) (acc : Z) :
  is_dec c = true ->
  int_digits (c :: rest) acc =
  int_digits rest (10 * acc + (Z.of_nat (nat_of_ascii c) - 48)).
Proof.
  intros Hc. cbn [int_digits]. rewrite (digit_val_dec c Hc).
  replace (is_underscore c) with false; [done|].
  unfold is_dec in Hc. apply andb_true_iff in Hc as [_ H2]. apply Nat.leb_le in H2.
  unfold is_underscore. symmetry. apply Nat.eqb_neq. lia.
Qed.

Ltac eval_char :=
  match goal with
  | |- context [nat_of_ascii ?c] =>
      let v := eval vm_compute in (nat_of_ascii c) in
      change (nat_of_ascii c) with v
  end.

Lemma uint_chars_dec (d : uint) :
  Forall (fun c => is_dec c = true) (chars (NilEmpty.string_of_uint d)).
Proof. induction d; cbn; constructor; done. Qed.

Lemma int_digits_uint (d : uint) (a : nat) :
  int_digits (chars (NilEmpty.string_of_uint d)) (Z.of_nat a) =
  Some (Z.of_nat (Nat.of_uint_acc d a)).
Proof.
  revert a. induction d; intros a;
    cbn [NilEmpty.string_of_uint chars list_ascii_of_string Nat.of_uint_acc];
    [done|rewrite int_digits_dec by done; rewrite <- IHd; f_equal;
          rewrite Nat.tail_mul_spec; eval_char; lia ..].
Qed.

Lemma int_unsigned_uint (d : uint) :
  d <> Nil ->
  int_unsigned (chars (NilEmpty.string_of_uint d)) = Some (Z.of_nat (Nat.of_uint d)).
Proof.
  intros Hd. unfold Nat.of_uint.
  destruct d; [done|..];
    cbn [NilEmpty.string_of_uint chars list_ascii_of_string int_unsigned Nat.of_uint_acc];
    rewrite digit_val_dec by done; eval_char;
    rewrite <- int_digits_uint; f_equal.
Qed.

Lemma to_uint_nonnil (n : nat) : Nat.to_uint n <> Nil.
Proof.
  rewrite <- (DecimalNat.Unsigned.of_to n) at 1.
  rewrite DecimalNat.Unsigned.to_of. unfold unorm.
  by destruct (nzhead (Nat.to_uint n)).
Qed.

Lemma strip_chars_id (cs : list ascii) :
  Forall (fun c => is_plain c = true) cs -> strip_chars cs = cs.
Proof.
  intros H. unfold strip_chars, rstrip_chars, lstrip_chars.
  rewrite (strip_front_fixed space_width cs).
  - rewrite strip_front_fixed; [apply rev_involutive|].
    apply Forall_rev in H. destruct (rev cs) as [|c l]; [done|].
    apply Forall_cons in H as [Hc _]. by apply space_width_end_plain.
  - destruct H as [|c l Hc _]; [done|]. by apply space_width_plain.
Qed.

Lemma uint_chars_plain (d : uint) :
  Forall (fun c => is_plain c = true) (chars (NilEmpty.string_of_uint d)).
Proof.
  eapply Forall_impl; [apply uint_chars_dec|]. apply is_dec_plain.
Qed.

(** [int(str(n)) = n] *)
Lemma py_int_str_nat (n : nat) : py_int (str_nat n) = Ok (Z.of_nat n).
Proof.
  unfold py_int, str_nat. rewrite strip_chars_id by apply uint_chars_plain.
  pose proof (to_uint_nonnil n) as Hn.
  pose proof (int_unsigned_uint _ Hn) as Hu.
  rewrite DecimalNat.Unsigned.of_to in Hu.
  pose proof (uint_chars_dec (Nat.to_uint n)) as Hd.
  destruct (chars (NilEmpty.string_of_uint (Nat.to_uint n))) as [|c rest] eqn:E; [done|].
  apply Forall_cons in Hd as [Hc _]. unfold is_dec in Hc.
  apply andb_true_iff in Hc as [H1 H2]. apply Nat.leb_le in H1, H2.
  replace (nat_of_ascii c =? 45)%nat with false by (symmetry; apply Nat.eqb_neq; lia).
  replace (nat_of_ascii c =? 43)%nat with false by (symmetry; apply Nat.eqb_neq; lia).
  by rewrite Hu.
Qed.

Lemma chars_app (s1 s2 : string) : chars (s1 +:+ s2) = chars s1 ++ chars s2.
Proof.
  unfold chars. induction s1 as [|c s1 IH]; [done|].
  change (String c s1 +:+ s2) with (String c (s1 +:+ s2)). cbn. f_equal. apply IH.
Qed.

Lemma str_of_chars (s : string) : str_of (chars s) = s.
Proof. apply string_of_list_ascii_of_string. Qed.

Lemma split_ws_aux_plain (c : ascii) (cs cur : list ascii) :
  is_plain c = true -> split_ws_aux (c :: cs) cur = split_ws_aux cs (c :: cur).
Proof. intros Hc. cbn [split_ws_aux]. by rewrite (space_width_plain c cs Hc). Qed.

Lemma split_ws_aux_space (c : ascii) (cs cur : list ascii) :
  is_space c = true -> split_ws_aux (c :: cs) cur = word_before cur (split_ws_aux cs []).
Proof. intros Hc. cbn [split_ws_aux space_width]. by rewrite Hc. Qed.

Lemma split_ws_aux_word (cs cur : list ascii) :
  Forall (fun c => is_plain c = true) cs ->
  split_ws_aux cs cur = match rev cur ++ cs with [] => [] | w => [w] end.
Proof.
  revert cur. induction cs as [|c cs IH]; intros cur Hcs.
  - cbn [split_ws_aux]. unfold word_before. rewrite app_nil_r.
    destruct cur as [|x cur]; [done|].
    destruct (rev (x :: cur)) eqn:E; [|done].
    apply (f_equal (@length _)) in E. rewrite length_rev in E. done.
  - apply Forall_cons in Hcs as [Hc Hcs]. rewrite (split_ws_aux_plain c cs cur Hc), (IH _ Hcs).
    cbn [rev]. by rewrite <- app_assoc.
Qed.

Lemma split_ws_label (n : nat) :
  split_ws ("Line " +:+ str_nat n) = ["Line"; str_nat n].
Proof.
  unfold split_ws. rewrite chars_app.
  change (chars "Line ") with ["L"; "i"; "n"; "e"; " "]%char.
  cbn [app]. rewrite !split_ws_aux_plain by done.
  rewrite split_ws_aux_space by done.
  rewrite split_ws_aux_word by apply uint_chars_plain.
  cbn [rev app word_before]. unfold str_nat.
  pose proof (to_uint_nonnil n) as Hn.
  destruct (chars (NilEmpty.string_of_uint (Nat.to_uint n))) eqn:E.
  - by destruct (Nat.to_uint n).
  - cbn [map]. rewrite <- E, str_of_chars. done.
Qed.

(** The index decoded from the label "Line N" is N - 1. *)
Lemma line_index_label (n : nat) :
  line_index ("Line " +:+ str_nat n) = Ok (Z.of_nat n - 1).
Proof.
  unfold line_index. rewrite split_ws_label.
  change (py_index ["Line"; str_nat n] 1) with (Ok (str_nat n)).
  cbn [mbind outcome_bind]. by rewrite py_int_str_nat.
Qed.

Lemma line_index_line_label (i : nat) : line_index (line_label i) = Ok (Z.of_nat i).
Proof.
  unfold line_label. rewrite line_index_label. f_equal. lia.
Qed.

(** ** Step 5: the generation loop *)

Lemma generate_line_label (st : SessionState) (i : nat) (line : DialogueLine) (c : clip) :
  generate_line st i line = Ok c -> c.1 = line_label i.
Proof.
  unfold generate_line.
  destruct (line_request st line) as [[[txt vid] spk]|]; [|done]. cbn [mbind outcome_bind].
  destruct (generate_audio _ _ _ _) ; [|done]. cbn [mbind outcome_bind].
  by intros [= <-].
Qed.

(** The loop appends one clip per line until a line fails; it touches
    nothing but the cache. *)
Lemma generate_loop_spec (lines : list DialogueLine) (i : nat) (st st' : SessionState)
    (r : outcome unit) :
  generate_loop i lines st = (st', r) ->
  same_but_cache st st' /\
  exists cs,
    audio_segments st' = audio_segments st ++ cs /\
    (forall k c, cs !! k = Some c ->
       exists line, lines !! k = Some line /\ generate_line st (i + k) line = Ok c) /\
    match r with
    | Ok _ => length cs = length lines
    | Raised e =>
        exists line, lines !! length cs = Some line /\
                     generate_line st (i + length cs) line = Raised e
    end.
Proof.
  revert i st. induction lines as [|line rest IH]; intros i st Hrun; cbn in Hrun.
  - injection Hrun as <- <-. split; [done|]. exists []. rewrite app_nil_r.
    split; [done|]. split; [|done]. intros k c Hk. done.
  - destruct (generate_line st i line) as [c|e] eqn:Hline.
    + apply IH in Hrun as (Hsame & cs & Hcache & Hcs & Hr).
      split; [exact Hsame|].
      exists (c :: cs). cbn [audio_segments set_audio_segments] in Hcache.
      rewrite <- app_assoc in Hcache. split; [exact Hcache|]. split.
      * intros [|k] c' Hk.
        -- injection Hk as <-. exists line. rewrite Nat.add_0_r. done.
        -- destruct (Hcs k c' Hk) as (l & Hl & Hg). exists l. split; [done|].
           by replace (i + S k)%nat with (S i + k)%nat by lia.
      * destruct r as [[]|e].
        -- cbn. by rewrite Hr.
        -- destruct Hr as (l & Hl & Hg). exists l. split; [done|].
           by replace (i + length (c :: cs))%nat with (S i + length cs)%nat by (cbn; lia).
    + injection Hrun as <- <-. split; [done|]. exists []. rewrite app_nil_r.
      split; [done|]. split; [done|]. exists line. by rewrite Nat.add_0_r.
Qed.

(** C1 (as amended). When "Generate All Audio" fails at the line of
    position [k], the previous cache is gone: the cache afterwards holds
    exactly the clips generated for the lines before [k], labelled by
    position, and nothing else of the session state has changed. *)
Theorem generate_all_failure_keeps_prefix (st st' : SessionState) (e : exn) :
  generate_all st = (st', Raised e) ->
  same_but_cache st st' /\
  exists (k : nat) (line : DialogueLine),
    script st !! k = Some line /\
    generate_line st k line = Raised e /\
    length (audio_segments st') = k /\
    forall j c, audio_segments st' !! j = Some c ->
      c.1 = line_label j /\
      exists l, script st !! j = Some l /\ generate_line st j l = Ok c.
Proof.
  unfold generate_all. intros Hrun.
  apply generate_loop_spec in Hrun as (Hsame & cs & Hcache & Hcs & line & Hline & Hfail).
  split; [exact Hsame|]. cbn in Hcache. exists (length cs), line.
  rewrite Hcache. split; [done|]. split; [done|]. split; [done|].
  intros j c Hj. destruct (Hcs j c Hj) as (l & Hl & Hg).
  split; [by apply generate_line_label in Hg|]. by exists l.
Qed.

(** The decoded index of a well-labelled clip is its position, and the
    script line it denotes is the line at that position. *)
Lemma render_clip_labelled (st : SessionState) (i : nat) (c : clip)
    (idx : Z) (line : DialogueLine) :
  c.1 = line_label i ->
  render_clip st c = Ok (idx, line) ->
  idx = Z.of_nat i /\ script st !! i = Some line.
Proof.
  intros Hl. unfold render_clip. destruct c.2; [|done]. cbn [of_option mbind outcome_bind].
  rewrite Hl, line_index_line_label. cbn [mbind outcome_bind].
  unfold py_index. destruct (Z.leb_spec 0 (Z.of_nat i)); [|lia].
  rewrite Nat2Z.id. destruct (script st !! i) as [l|]; [|done]. cbn.
  by intros [= <- <-].
Qed.

Lemma set_line_text_at (s : list DialogueLine) (i : nat) (l : DialogueLine)
    (new_text : string) :
  s !! i = Some l ->
  set_line_text s (Z.of_nat i) new_text = <[i := Line (speaker l) new_text (uid l)]> s.
Proof.
  intros Hi. unfold set_line_text, norm_index.
  destruct (Z.leb_spec 0 (Z.of_nat i)); [|lia]. by rewrite Nat2Z.id, Hi.
Qed.

(** Regenerating a clip that carries the label of its position. *)
Lemma regenerate_labelled_clip (st st' : SessionState) (i : nat)
    (new_text : string) (c : clip) :
  audio_segments st !! i = Some c ->
  c.1 = line_label i ->
  regenerate i new_text st = (st', Ok ()) ->
  exists (line : DialogueLine) (new_audio : AudioSegment),
    script st !! i = Some line /\
    audio_segments st' = <[i := (c.1, Some new_audio)]> (audio_segments st) /\
    script st' = <[i := Line (speaker line) new_text (uid line)]> (script st) /\
    audio_segments st' !! i = Some (c.1, Some new_audio) /\
    script st' !! i = Some (Line (speaker line) new_text (uid line)) /\
    (forall j, j <> i -> audio_segments st' !! j = audio_segments st !! j) /\
    (forall j, j <> i -> script st' !! j = script st !! j) /\
    config st' = config st /\
    current_step st' = current_step st /\
    available_voices st' = available_voices st /\
    podcast_finalized st' = podcast_finalized st /\
    script_loaded st' = script_loaded st.
Proof.
  intros Hc Hl. unfold regenerate.
  destruct (render_clips st (take i (audio_segments st))); [|done].
  rewrite Hc. destruct (render_clip st c) as [[idx line]|] eqn:Hr; [|done].
  destruct (render_clip_labelled _ _ _ _ _ Hl Hr) as [-> Hline].
  cbn [mbind outcome_bind].
  destruct (voice_id_of st (speaker line)) as [vid|]; [|done]. cbn [mbind outcome_bind].
  destruct (generate_audio st new_text vid (speaker line)) as [new_audio|]; [|done].
  cbn [mbind outcome_bind]. intros [= <-].
  cbn [audio_segments script config current_step available_voices podcast_finalized
       script_loaded set_audio_segments set_script].
  rewrite (set_line_text_at _ _ _ _ Hline).
  exists line, new_audio. split; [done|]. split; [done|]. split; [done|].
  split; [apply list_lookup_insert_eq; by eapply lookup_lt_Some|].
  split; [apply list_lookup_insert_eq; by eapply lookup_lt_Some|].
  split; [intros j Hj; by apply list_lookup_insert_ne|].
  split; [intros j Hj; by apply list_lookup_insert_ne|]. done.
Qed.

(** C5. The script line a cached clip is edited against is read off its
    label alone: for the label "Line N" it is index N - 1, whatever the
    position of the clip in the cache.  When N exceeds the length of the
    script that index is out of range: the lookup raises [IndexError] and
    pressing "Regenerate" on that clip fails, leaving the session state as it
    was, so that no line is regenerated. *)
Theorem regenerate_resolves_by_label (st : SessionState) (i n : nat)
    (new_text : string) (c : clip) :
  audio_segments st !! i = Some c ->
  c.1 = "Line " +:+ str_nat n ->
  (length (script st) < n)%nat ->
  line_index c.1 = Ok (Z.of_nat n - 1) /\
  (idx ← line_index c.1; py_index (script st) idx) = Raised IndexError /\
  (forall audio, c.2 = Some audio -> render_clip st c = Raised IndexError) /\
  exists e, regenerate i new_text st = (st, Raised e).
Proof.
  intros Hc Hl Hn.
  assert (Hidx : line_index c.1 = Ok (Z.of_nat n - 1)) by (rewrite Hl; apply line_index_label).
  assert (Hout : py_index (script st) (Z.of_nat n - 1) = Raised IndexError).
  { unfold py_index. destruct (Z.leb_spec 0 (Z.of_nat n - 1)); [|lia].
    rewrite lookup_ge_None_2; [done|lia]. }
  split; [exact Hidx|]. split; [by rewrite Hidx|]. split.
  - intros audio Ha. unfold render_clip. rewrite Ha, Hidx. cbn [of_option mbind outcome_bind].
    by rewrite Hout.
  - unfold regenerate.
    destruct (render_clips st (take i (audio_segments st))) as [?|e]; [|by exists e].
    rewrite Hc. unfold render_clip. destruct c.2 as [audio|].
    + rewrite Hidx. cbn [of_option mbind outcome_bind]. rewrite Hout. by eexists.
    + by eexists.
Qed.

(** ** Step 3: the speaker of marked lines *)

(** The lines and fields already rendered are kept as they are. *)
Lemma edit_loop_done (sp tx : string -> option string) (click : edit_click)
    (todo : list DialogueLine) (i : nat) (seen : list string) (acc : list DialogueLine)
    (shown : list string) :
  edit_loop sp tx click i seen acc todo shown =
  (acc ++ (edit_loop sp tx click i seen [] todo []).1,
   (shown ++ (edit_loop sp tx click i seen [] todo []).2.1,
    (edit_loop sp tx click i seen [] todo []).2.2)).
Proof.
  revert i seen acc shown. induction todo as [|l todo IH]; intros i seen acc shown.
  - cbn. by rewrite !app_nil_r.
  - cbn [edit_loop]. destruct (uid l) as [u|]; [|cbn; by rewrite app_nil_r].
    destruct (bool_decide (u ∈ seen)); [cbn; by rewrite app_nil_r|].
    destruct (edit_line sp tx l) as [l' s0].
    destruct click as [|j new_uid|j].
    + rewrite (IH (S i) (u :: seen) (acc ++ [l']) (shown ++ [s0])),
              (IH (S i) (u :: seen) ([] ++ [l']) ([] ++ [s0])).
      cbn [fst snd app]. by rewrite <- !app_assoc.
    + destruct (i =? j)%nat; [done|].
      rewrite (IH (S i) (u :: seen) (acc ++ [l']) (shown ++ [s0])),
              (IH (S i) (u :: seen) ([] ++ [l']) ([] ++ [s0])).
      cbn [fst snd app]. by rewrite <- !app_assoc.
    + destruct (i =? j)%nat; [done|].
      rewrite (IH (S i) (u :: seen) (acc ++ [l']) (shown ++ [s0])),
              (IH (S i) (u :: seen) ([] ++ [l']) ([] ++ [s0])).
      cbn [fst snd app]. by rewrite <- !app_assoc.
Qed.

(** A uid that differs from those seen so far and from those that follow. *)
Lemma NoDup_seen_step (seen : list string) (u : string) (later : list (option string)) :
  NoDup (map Some seen ++ Some u :: later) ->
  (u ∉ seen) /\ NoDup (map Some (u :: seen) ++ later).
Proof.
  intros (Hs & Hdis & Hl)%NoDup_app. apply NoDup_cons in Hl as [Hu Hl]. split.
  - intros Hin. apply (Hdis (Some u)); [|left].
    apply list_elem_of_fmap. by exists u.
  - cbn [map app]. apply NoDup_cons. split.
    + intros [Hin|Hin]%elem_of_app; [|done].
      apply (Hdis (Some u) Hin). left.
    + apply NoDup_app. split; [done|]. split; [|done].
      intros x Hx Hxl. apply (Hdis x Hx). by right.
Qed.


Lemma assign_uids_all (fresh : nat -> string) (s : list DialogueLine) (i : nat) :
  Forall (fun l => uid l <> None) (assign_uids fresh i s).
Proof.
  revert i. induction s as [|l s IH]; intros i; cbn; [constructor|].
  destruct (uid l) eqn:E; constructor; try done. by rewrite E.
Qed.

Lemma assign_uids_id (fresh : nat -> string) (s : list DialogueLine) (i : nat) :
  Forall (fun l => uid l <> None) s -> assign_uids fresh i s = s.
Proof.
  intros H. revert i. induction H as [|l s Hl _ IH]; intros i; cbn; [done|].
  destruct (uid l); [|done]. by rewrite IH.
Qed.




(** ** Step 6: the finalize gate and the finalized flag *)

Lemma edit_step_flag (fresh : nat -> string) (sp tx : string -> option string)
    (click : edit_click) (st : SessionState) :
  podcast_finalized (step_3 fresh sp tx click st).1 = podcast_finalized st.
Proof. unfold step_3. by destruct (edit_loop _ _ _ _ _ _ _ _). Qed.

Lemma configure_podcaster_flag (chosen : string -> option string)
    (slid : string -> option VoiceSettings) (p : string) (st : SessionState) :
  podcast_finalized (configure_podcaster chosen slid p st).1 = podcast_finalized st.
Proof.
  unfold configure_podcaster.
  destruct (match podcasters _ !! p with Some v => Ok v | None => _ end); [|done].
  by destruct (match list_index _ _ with Some _ => Ok _ | None => _ end).
Qed.

Lemma configure_loop_flag (chosen : string -> option string)
    (slid : string -> option VoiceSettings) (ps : list string) (st : SessionState) :
  podcast_finalized (configure_loop chosen slid ps st).1 = podcast_finalized st.
Proof.
  revert st. induction ps as [|p ps IH]; intros st; [done|]. cbn [configure_loop].
  pose proof (configure_podcaster_flag chosen slid p st) as Hp.
  destruct (configure_podcaster chosen slid p st) as [st1 [?|e]]; cbn in Hp.
  - by rewrite IH.
  - done.
Qed.

Lemma configure_step_flag (refetched : list (string * Voice))
    (chosen : string -> option string) (slid : string -> option VoiceSettings)
    (st : SessionState) :
  podcast_finalized (step_4 refetched chosen slid st).1 = podcast_finalized st.
Proof.
  unfold step_4. rewrite configure_loop_flag.
  destruct (voice_settings_per_speaker _); by destruct (available_voices st).
Qed.

Lemma generate_all_flag (st : SessionState) :
  podcast_finalized (generate_all st).1 = podcast_finalized st.
Proof.
  unfold generate_all.
  destruct (generate_loop 0 (script st) (set_audio_segments st [])) as [st' r] eqn:E.
  apply generate_loop_spec in E as [(_ & _ & _ & _ & H & _) _]. exact H.
Qed.

Lemma regenerate_flag (i : nat) (new_text : string) (st : SessionState) :
  podcast_finalized (regenerate i new_text st).1 = podcast_finalized st.
Proof.
  unfold regenerate. destruct (render_clips _ _); [|done].
  destruct (audio_segments st !! i) as [c|]; [|done].
  by destruct (_ ≫= _) as [[idx new_audio]|].
Qed.

Lemma save_progress_click_flag (name : string) (fl : list bool) (now : string) (w : world) :
  podcast_finalized (save_progress_click name fl now w).1.1 = podcast_finalized w.1.
Proof.
  unfold save_progress_click. destruct w as [st db]. destruct (str_truthy _); [|done].
  by destruct (save_progress _ _ _ _ _ _ _).
Qed.

Lemma load_progress_click_flag (id : Z) (w : world) :
  podcast_finalized (loaded_world id w).1 = podcast_finalized w.1.
Proof.
  unfold loaded_world, load_progress_click. destruct w as [st db].
  destruct (load_progress_by_id db id) as [[loaded|]|]; [|done|done].
  destruct (snapshot_of loaded) as [snap|]; [|done]. cbn -[deserialize_segments].
  destruct (snap_audio snap) as [|c cs]; [done|].
  by destruct (deserialize_segments _).
Qed.

Lemma render_page_flag (fresh : nat -> string) (refetched : list (string * Voice))
    (w : world) :
  podcast_finalized (render_page fresh refetched w).1 = podcast_finalized w.1.
Proof.
  unfold render_page. destruct w as [st db].
  destruct (current_step st =? 3); [apply edit_step_flag|].
  destruct (current_step st =? 4); [apply configure_step_flag|done].
Qed.

(** Once the page offers "Proceed", drawing it leaves the store and the flag
    alone. *)
Lemma step_6_finalized (company title : string) (pressed : bool) (fl : list bool)
    (now : string) (st : SessionState) (db : Database) :
  podcast_finalized st = Some true ->
  podcast_finalized (step_6 company title pressed fl now (st, db)).1.1 = Some true /\
  (step_6 company title pressed fl now (st, db)).1.2 = db.
Proof.
  intros Hf. unfold step_6, step_6_view. rewrite Hf. cbn [default].
  destruct (audio_segments st); [done|].
  destruct (negb _ || negb _); [done|]. by destruct pressed.
Qed.

(** No run of [main] clears the flag. *)
Lemma handle_keeps_finalized (e : event) (w : world) :
  podcast_finalized w.1 = Some true -> podcast_finalized (handle e w).1 = Some true.
Proof.
  destruct w as [st db]. intros Hf. cbn [fst] in Hf.
  destruct e; cbn [handle]; unfold on_step; cbn [fst];
    repeat match goal with
    | |- context [if ?b then _ else _] => destruct b
    end; cbn [fst snd]; try exact Hf;
    rewrite ?render_page_flag, ?edit_step_flag, ?configure_step_flag, ?generate_all_flag,
      ?regenerate_flag, ?save_progress_click_flag, ?load_progress_click_flag; try exact Hf.
  by apply step_6_finalized.
Qed.

Lemma run_keeps_finalized (es : list event) (w : world) :
  podcast_finalized w.1 = Some true -> podcast_finalized (run es w).1 = Some true.
Proof.
  revert w. induction es as [|e es IH]; intros w Hf; [done|].
  cbn. apply IH. by apply handle_keeps_finalized.
Qed.

Lemma str_truthy_false (s : string) : str_truthy s = false <-> s = "".
Proof. by destruct s. Qed.

(** C6. The finalize page offers "Finalize Podcast" exactly when the clip
    cache is non-empty, company and title are both non-blank and the
    finalized flag is not set; otherwise drawing the page never writes a
    podcast.  Finalizing is terminal: once the flag is set, after any further
    runs of the application the flag is still set, the page offers "Proceed"
    in place of "Finalize Podcast" wherever its gate passes, and drawing the
    page, button pressed or not, leaves the store unchanged.  A fresh session
    starts with the flag unset. *)
Theorem finalize_is_gated_and_terminal :
  (forall company title st,
     step_6_view company title st = OfferFinalize <->
     audio_segments st <> [] /\ strip company <> "" /\ strip title <> "" /\
     podcast_finalized st <> Some true) /\
  (forall company title pressed fl now st db,
     step_6_view company title st <> OfferFinalize ->
     (step_6 company title pressed fl now (st, db)).1.2 = db /\
     podcast_finalized (step_6 company title pressed fl now (st, db)).1.1 =
       podcast_finalized st) /\
  (forall es w,
     podcast_finalized w.1 = Some true ->
     podcast_finalized (run es w).1 = Some true /\
     forall company title,
       step_6_view company title (run es w).1 <> OfferFinalize /\
       (audio_segments (run es w).1 <> [] -> strip company <> "" -> strip title <> "" ->
        step_6_view company title (run es w).1 = OfferProceed) /\
       forall pressed fl now,
         (step_6 company title pressed fl now (run es w)).1.2 = (run es w).2) /\
  (forall voices, podcast_finalized (init_session_state voices) = None).
Proof.
  split; [|split; [|split]].
  - intros company title st. unfold step_6_view.
    destruct (audio_segments st) as [|c cs].
    { split; [done|]. by intros [? _]. }
    destruct (str_truthy (strip company)) eqn:Hc; cbn [negb orb].
    2:{ apply str_truthy_false in Hc. split; [done|]. by intros (_ & ? & _). }
    destruct (str_truthy (strip title)) eqn:Ht; cbn [negb orb].
    2:{ apply str_truthy_false in Ht. split; [done|]. by intros (_ & _ & ? & _). }
    assert (strip company <> "") by (intros E; rewrite E in Hc; done).
    assert (strip title <> "") by (intros E; rewrite E in Ht; done).
    destruct (podcast_finalized st) as [[|]|]; cbn [default].
    + split; [done|]. by intros (_ & _ & _ & ?).
    + done.
    + done.
  - intros company title pressed fl now st db Hv. unfold step_6.
    destruct (step_6_view company title st); try done. by destruct pressed.
  - intros es w Hf. pose proof (run_keeps_finalized es w Hf) as Hrun.
    split; [exact Hrun|]. intros company title.
    destruct (run es w) as [st' db'] eqn:E. cbn [fst snd] in *.
    split; [|split].
    + unfold step_6_view. rewrite Hrun. cbn [default].
      destruct (audio_segments st'); [done|]. by destruct (negb _ || negb _).
    + intros Ha Hc Ht. unfold step_6_view. rewrite Hrun. cbn [default].
      destruct (audio_segments st'); [done|].
      destruct (str_truthy (strip company)) eqn:Hc'; [|by apply str_truthy_false in Hc'].
      destruct (str_truthy (strip title)) eqn:Ht'; [|by apply str_truthy_false in Ht'].
      done.
    + intros pressed fl now. by apply step_6_finalized.
  - done.
Qed.

(** ** [save_podcast]: one transaction *)

Lemma execute_spec {A} (stmt : Database -> Database * A) (c c' : Conn) (r : outcome A) :
  execute stmt c = (c', r) ->
  stored c' = stored c /\
  match r with
  | Ok a => (work c', a) = stmt (work c)
  | Raised _ => True
  end.
Proof.
  unfold execute. destruct (faults c) as [|[|] fl].
  - destruct (stmt (work c)) as [db' a]. by intros [= <- <-].
  - by intros [= <- <-].
  - destruct (stmt (work c)) as [db' a]. by intros [= <- <-].
Qed.

Lemma commit_spec (c c' : Conn) (r : outcome unit) :
  commit c = (c', r) ->
  match r with
  | Ok _ => stored c' = work c
  | Raised _ => stored c' = stored c
  end.
Proof.
  unfold commit. destruct (faults c) as [|[|] fl]; by intros [= <- <-].
Qed.

Lemma save_segment_spec (now : string) (podcast_id : Z) (segment_type : string)
    (audio : option bytes) (c c' : Conn) (r : outcome unit) :
  save_segment now podcast_id segment_type audio c = (c', r) ->
  stored c' = stored c /\
  match r with
  | Ok _ => work c' = add_segment now podcast_id segment_type audio (work c)
  | Raised _ => True
  end.
Proof.
  unfold save_segment, add_segment. destruct audio as [[|b bs]|].
  - by intros [= <- <-].
  - intros H. apply execute_spec in H as [Hs Hr]. split; [done|].
    destruct r; [|done]. by rewrite <- Hr.
  - by intros [= <- <-].
Qed.

Lemma save_podcast_spec (fl : list bool) (now : string) (db : Database) (title : string)
    (intro_audio hosts_audio outro_audio : option bytes) :
  save_podcast fl now db title intro_audio hosts_audio outro_audio =
    (saved_podcast now title intro_audio hosts_audio outro_audio db,
     Ok (seq_podcasts db + 1)) \/
  exists e,
    save_podcast fl now db title intro_audio hosts_audio outro_audio = (db, Raised e).
Proof.
  unfold save_podcast, save_podcast_body, db_bind.
  destruct (execute (insert_podcast now title) (connect db fl)) as [c1 [id|e]] eqn:E1;
    apply execute_spec in E1 as [Hs1 Hw1]; cbn [connect work stored] in Hs1, Hw1;
    [|right; exists e; unfold close, rollback; cbn [stored]; by rewrite Hs1].
  assert (id = seq_podcasts db + 1) as -> by (by injection Hw1).
  destruct (save_segment now _ "intro" intro_audio c1) as [c2 [[]|e]] eqn:E2;
    apply save_segment_spec in E2 as [Hs2 Hw2];
    [|right; exists e; unfold close, rollback; cbn [stored]; by rewrite Hs2, Hs1].
  destruct (save_segment now _ "hosts_discussion" hosts_audio c2) as [c3 [[]|e]] eqn:E3;
    apply save_segment_spec in E3 as [Hs3 Hw3];
    [|right; exists e; unfold close, rollback; cbn [stored]; by rewrite Hs3, Hs2, Hs1].
  destruct (save_segment now _ "outro" outro_audio c3) as [c4 [[]|e]] eqn:E4;
    apply save_segment_spec in E4 as [Hs4 Hw4];
    [|right; exists e; unfold close, rollback; cbn [stored]; by rewrite Hs4, Hs3, Hs2, Hs1].
  destruct (commit c4) as [c5 [[]|e]] eqn:E5; apply commit_spec in E5;
    [|right; exists e; unfold close, rollback; cbn [stored]; by rewrite E5, Hs4, Hs3, Hs2, Hs1].
  left. unfold db_ret, close, saved_podcast. f_equal.
  rewrite E5, Hw4, Hw3, Hw2. by injection Hw1 as ->.
Qed.

Lemma execute_no_fault {A} (stmt : Database -> Database * A) (c : Conn) :
  Forall (fun b => b = false) (faults c) ->
  exists c' a, execute stmt c = (c', Ok a) /\ Forall (fun b => b = false) (faults c').
Proof.
  intros Hf. unfold execute. destruct (faults c) as [|b fl] eqn:E.
  - destruct (stmt (work c)) as [db' a]. eexists _, _. split; [done|]. by cbn.
  - apply Forall_cons in Hf as [-> Hf]. destruct (stmt (work c)) as [db' a].
    eexists _, _. split; [done|]. by cbn.
Qed.

Lemma save_segment_no_fault (now : string) (id : Z) (t : string) (a : option bytes)
    (c : Conn) :
  Forall (fun b => b = false) (faults c) ->
  exists c', save_segment now id t a c = (c', Ok ()) /\
             Forall (fun b => b = false) (faults c').
Proof.
  intros Hf. unfold save_segment. destruct a as [[|b bs]|]; try by eexists.
  destruct (execute_no_fault (insert_segment now id t (b :: bs)) c Hf) as (c' & [] & H & Hf').
  by exists c'.
Qed.

Lemma commit_no_fault (c : Conn) :
  Forall (fun b => b = false) (faults c) -> exists c', commit c = (c', Ok ()).
Proof.
  intros Hf. unfold commit. destruct (faults c) as [|b fl] eqn:E; [by eexists|].
  apply Forall_cons in Hf as [-> Hf]. by eexists.
Qed.

(** C10. [save_podcast] is atomic.  Either it returns the new podcast id
    and the store has gained the podcast row together with one segment row
    for each of intro, hosts_discussion and outro whose payload is non-empty
    (and no row for a payload that is absent or empty), or it re-raises the
    error and the store is exactly as before the call.  When no statement
    fails it is the former. *)
Theorem save_podcast_atomic (fl : list bool) (now : string) (db : Database)
    (title : string) (intro_audio hosts_audio outro_audio : option bytes) :
  let id := seq_podcasts db + 1 in
  ((exists db',
      save_podcast fl now db title intro_audio hosts_audio outro_audio = (db', Ok id) /\
      podcasts db' = podcasts db ++ [MkPodcast id title now now] /\
      podcast_segments db' =
        podcast_segments db ++
        segment_rows now id (seq_segments db)
          (provided_segments intro_audio hosts_audio outro_audio) /\
      progress db' = progress db) \/
   (exists e,
      save_podcast fl now db title intro_audio hosts_audio outro_audio = (db, Raised e))) /\
  (Forall (fun b => b = false) fl ->
   exists db',
     save_podcast fl now db title intro_audio hosts_audio outro_audio = (db', Ok id)) /\
  (forall t b, In (t, b) (provided_segments intro_audio hosts_audio outro_audio) ->
     b <> [] /\
     (t = "intro" /\ intro_audio = Some b \/
      t = "hosts_discussion" /\ hosts_audio = Some b \/
      t = "outro" /\ outro_audio = Some b)).
Proof.
  intros id. split; [|split].
  - destruct (save_podcast_spec fl now db title intro_audio hosts_audio outro_audio)
      as [H|H]; [left|by right].
    eexists. split; [exact H|].
    unfold saved_podcast, add_segment, insert_segment, insert_podcast, provided_segments.
    destruct intro_audio as [[|? ?]|], hosts_audio as [[|? ?]|], outro_audio as [[|? ?]|];
      cbn; rewrite <- ?app_assoc, ?app_nil_r; done.
  - intros Hf.
    destruct (save_podcast_spec fl now db title intro_audio hosts_audio outro_audio)
      as [H|[e H]]; [by eexists|].
    exfalso. revert H. unfold save_podcast, save_podcast_body, db_bind.
    destruct (execute_no_fault (insert_podcast now title) (connect db fl) Hf)
      as (c1 & id' & -> & Hf1).
    destruct (save_segment_no_fault now id' "intro" intro_audio c1 Hf1) as (c2 & -> & Hf2).
    destruct (save_segment_no_fault now id' "hosts_discussion" hosts_audio c2 Hf2)
      as (c3 & -> & Hf3).
    destruct (save_segment_no_fault now id' "outro" outro_audio c3 Hf3) as (c4 & -> & Hf4).
    by destruct (commit_no_fault c4 Hf4) as (c5 & ->).
  - intros t b. unfold provided_segments.
    destruct intro_audio as [[|? ?]|], hosts_audio as [[|? ?]|], outro_audio as [[|? ?]|];
      cbn; intros Hin;
      repeat match goal with
      | H : _ \/ _ |- _ => destruct H as [H|H]
      | H : (_, _) = (_, _) |- _ => injection H as <- <-
      | H : False |- _ => destruct H
      end; (split; [done|]); auto.
Qed.

(** ** Base64 round trip *)

Lemma b64_sextet_char (x : sextet) : b64_sextet (b64_char x) = Some x.
Proof.
  destruct x as [[[[[b5 b4] b3] b2] b1] b0].
  destruct b5, b4, b3, b2, b1, b0; reflexivity.
Qed.

Lemma b64_char_not_pad (x : sextet) : is_pad (b64_char x) = false.
Proof.
  destruct x as [[[[[b5 b4] b3] b2] b1] b0].
  destruct b5, b4, b3, b2, b1, b0; reflexivity.
Qed.

Lemma b64_char_ascii (x : sextet) : (nat_of_ascii (b64_char x) <? 128)%nat = true.
Proof.
  destruct x as [[[[[b5 b4] b3] b2] b1] b0].
  destruct b5, b4, b3, b2, b1, b0; reflexivity.
Qed.

(** One character of the alphabet read by the decoder. *)
Lemma a2b_base64_char (x : sextet) (rest : list ascii) (quad_pos : nat) (prev : sextet)
    (pads : nat) (out : list ascii) :
  a2b_base64 (b64_char x :: rest) quad_pos prev pads out =
  match quad_pos with
  | 0%nat => a2b_base64 rest 1 x 0 out
  | 1%nat => a2b_base64 rest 2 x 0 (b64_byte1 prev x :: out)
  | 2%nat => a2b_base64 rest 3 x 0 (b64_byte2 prev x :: out)
  | _ => a2b_base64 rest 0 x 0 (b64_byte3 prev x :: out)
  end.
Proof. cbn [a2b_base64]. by rewrite b64_char_not_pad, b64_sextet_char. Qed.

Lemma a2b_base64_enc (bs : list ascii) (prev : sextet) (pads : nat) (out : list ascii) :
  a2b_base64 (b64enc bs) 0 prev pads out = Some (rev out ++ bs).
Proof.
  cut ((forall prev pads out, a2b_base64 (b64enc bs) 0 prev pads out = Some (rev out ++ bs)) /\
       (forall x prev pads out,
          a2b_base64 (b64enc (x :: bs)) 0 prev pads out = Some (rev out ++ x :: bs)) /\
       (forall x y prev pads out,
          a2b_base64 (b64enc (x :: y :: bs)) 0 prev pads out =
          Some (rev out ++ x :: y :: bs))).
  { intros [H _]. apply H. }
  clear prev pads out. induction bs as [|z bs (IH0 & IH1 & IH2)].
  - split; [|split].
    + intros prev pads out. cbn. by rewrite app_nil_r.
    + intros [x0 x1 x2 x3 x4 x5 x6 x7] prev pads out. cbn [b64enc].
      rewrite !a2b_base64_char. cbn. by rewrite <- ?app_assoc.
    + intros [x0 x1 x2 x3 x4 x5 x6 x7] [y0 y1 y2 y3 y4 y5 y6 y7] prev pads out.
      cbn [b64enc]. rewrite !a2b_base64_char. cbn. by rewrite <- ?app_assoc.
  - split; [apply IH1|]. split; [intros x; apply IH2|].
    intros [x0 x1 x2 x3 x4 x5 x6 x7] [y0 y1 y2 y3 y4 y5 y6 y7] prev pads out.
    destruct z as [z0 z1 z2 z3 z4 z5 z6 z7]. cbn [b64enc].
    rewrite !a2b_base64_char, IH0. cbn. by rewrite <- ?app_assoc.
Qed.

Lemma b64enc_ascii (bs : list ascii) :
  forallb (fun c => (nat_of_ascii c <? 128)%nat) (b64enc bs) = true.
Proof.
  cut (forallb (fun c => (nat_of_ascii c <? 128)%nat) (b64enc bs) = true /\
       (forall x, forallb (fun c => (nat_of_ascii c <? 128)%nat) (b64enc (x :: bs)) = true) /\
       (forall x y,
          forallb (fun c => (nat_of_ascii c <? 128)%nat) (b64enc (x :: y :: bs)) = true)).
  { by intros [? _]. }
  induction bs as [|z bs (IH0 & IH1 & IH2)].
  - split; [done|]. split.
    + intros [x0 x1 x2 x3 x4 x5 x6 x7]. cbn [b64enc forallb]. by rewrite !b64_char_ascii.
    + intros [x0 x1 x2 x3 x4 x5 x6 x7] [y0 y1 y2 y3 y4 y5 y6 y7].
      cbn [b64enc forallb]. by rewrite !b64_char_ascii.
  - split; [apply IH1|]. split; [intros x; apply IH2|].
    intros [x0 x1 x2 x3 x4 x5 x6 x7] [y0 y1 y2 y3 y4 y5 y6 y7].
    destruct z as [z0 z1 z2 z3 z4 z5 z6 z7]. cbn [b64enc forallb].
    by rewrite !b64_char_ascii, IH0.
Qed.

Lemma b64decode_encode (data : bytes) : b64decode (b64encode data) = Ok data.
Proof.
  unfold b64decode, b64encode, chars, str_of.
  rewrite list_ascii_of_string_of_list_ascii, b64enc_ascii, a2b_base64_enc. cbn.
  f_equal. rewrite map_map. rewrite <- (map_id data) at 2.
  apply map_ext. intros b. apply byte_of_ascii_of_byte.
Qed.

Lemma b64encode_truthy (b : byte) (bs : bytes) : str_truthy (b64encode (b :: bs)) = true.
Proof.
  unfold b64encode. cbn [map]. destruct (ascii_of_byte b) as [x0 x1 x2 x3 x4 x5 x6 x7].
  destruct (map ascii_of_byte bs) as [|[y0 y1 y2 y3 y4 y5 y6 y7] [|[z0 z1 z2 z3 z4 z5 z6 z7] l]];
    reflexivity.
Qed.

(** ** JSON round trips *)

Lemma pyval_ind' (P : pyval -> Prop) :
  P PNone -> (forall b, P (PBool b)) -> (forall n, P (PInt n)) ->
  (forall x, P (PFloat x)) -> (forall s, P (PStr s)) ->
  (forall l, Forall P l -> P (PList l)) ->
  (forall l, Forall P l -> P (PTuple l)) ->
  (forall items, Forall (fun kv : pyval * pyval => P kv.2) items -> P (PDict items)) ->
  forall v, P v.
Proof.
  intros HN HB HI HF HS HL HT HD. fix IH 1. intros [|b|n|x|s|l|l|items].
  - exact HN.
  - apply HB.
  - apply HI.
  - apply HF.
  - apply HS.
  - apply HL. revert l. fix IHl 1. intros [|v l]; constructor; [apply IH|apply IHl].
  - apply HT. revert l. fix IHl 1. intros [|v l]; constructor; [apply IH|apply IHl].
  - apply HD. revert items. fix IHl 1.
    intros [|[k v] items]; constructor; [apply IH|apply IHl].
Qed.

Lemma mapM_Ok_inv {A B} (f : A -> outcome B) (x : A) (l : list A) (r : list B) :
  mapM f (x :: l) = Ok r ->
  exists y ys, f x = Ok y /\ mapM f l = Ok ys /\ r = y :: ys.
Proof.
  cbn. destruct (f x) as [y|]; [|done]. cbn.
  destruct (mapM f l) as [ys|]; [|done]. cbn. intros [= <-]. by exists y, ys.
Qed.

Lemma mapM_Ok_map {A B C} (f : A -> outcome B) (h : C -> A) (g : C -> B) (l : list C) :
  (forall x, f (h x) = Ok (g x)) -> mapM f (map h l) = Ok (map g l).
Proof.
  intros Hf. induction l as [|x l IH]; [done|]. cbn. rewrite Hf. cbn.
  change (mapM f (map h l) ≫= (fun k => mret (g x :: k)) = Ok (g x :: map g l)).
  by rewrite IH.
Qed.

Lemma dict_set_fresh {V} (d : list (string * V)) (k : string) (v : V) :
  k ∉ map fst d -> dict_set d k v = d ++ [(k, v)].
Proof.
  induction d as [|[k' v'] d IH]; cbn; [done|]. intros Hk.
  apply not_elem_of_cons in Hk as [Hne Hk].
  destruct (String.eqb_spec k' k) as [->|_]; [done|]. by rewrite IH.
Qed.

Lemma dict_fold_NoDup {V} (l d : list (string * V)) :
  NoDup (map fst (d ++ l)) ->
  foldl (fun d row => dict_set d row.1 row.2) d l = d ++ l.
Proof.
  revert d. induction l as [|[k v] l IH]; intros d Hnd; cbn [foldl].
  - by rewrite app_nil_r.
  - cbn [fst snd]. rewrite dict_set_fresh.
    + rewrite IH; [by rewrite <- app_assoc|]. by rewrite <- app_assoc.
    + rewrite map_app in Hnd. apply NoDup_app in Hnd as (_ & Hdis & _).
      intros Hin. apply (Hdis k Hin). left.
Qed.

(** A dict built from rows with distinct keys is those rows. *)
Lemma dict_from_NoDup {V} (l : list (string * V)) :
  NoDup (map fst l) -> dict_from l = l.
Proof. intros H. unfold dict_from. by rewrite dict_fold_NoDup. Qed.

(** [json.loads(json.dumps(v))] is [v] for a value without tuples whose
    dicts are keyed by strings. *)
Lemma json_loads_dumps (v : pyval) (j : json) :
  json_plain v = true -> json_dumps v = Ok j -> json_loads j = v.
Proof.
  revert j. induction v as [|b|n|x|s|l IH|l IH|items IH] using pyval_ind'; intros j Hp;
    cbn [json_dumps]; try (by intros [= <-]).
  - destruct (mapM json_dumps l) as [js|] eqn:E; [|done]. cbn. intros [= <-].
    cbn [json_loads]. f_equal. cbn [json_plain] in Hp.
    revert js E. induction IH as [|v l Hv _ IHl]; intros js E.
    + by injection E as <-.
    + apply mapM_Ok_inv in E as (y & ys & Hy & Hys & ->).
      cbn [forallb] in Hp. apply andb_true_iff in Hp as [Hp1 Hp2].
      cbn [map]. f_equal; [by apply Hv|by apply IHl].
  - done.
  - destruct (mapM _ items) as [members|] eqn:E; [|done]. cbn. intros [= <-].
    cbn [json_loads]. f_equal. cbn [json_plain] in Hp.
    apply andb_true_iff in Hp as [Hp Hnd]. apply bool_decide_eq_true in Hnd.
    assert (Hm : map (fun kv : string * json => (kv.1, json_loads kv.2)) members =
                 map (fun kv : pyval * pyval =>
                        (match kv.1 with PStr s => s | _ => "" end, kv.2)) items /\
                 map (fun kv : string * pyval => (PStr kv.1, kv.2))
                   (map (fun kv : pyval * pyval =>
                           (match kv.1 with PStr s => s | _ => "" end, kv.2)) items) = items).
    { clear Hnd. revert members E. induction IH as [|[k v] items Hv _ IHl]; intros members E.
      - by injection E as <-.
      - apply mapM_Ok_inv in E as ([name y] & ys & Hy & Hys & ->).
        cbn [forallb fst snd] in Hp. apply andb_true_iff in Hp as [Hp1 Hp2].
        destruct k as [| | | |s| | |]; try done. cbn in Hy.
        destruct (json_dumps v) as [jv|] eqn:Ev; [|done]. cbn in Hy. injection Hy as <- <-.
        destruct (IHl Hp2 ys Hys) as [H1 H2]. cbn [map fst snd]. split.
        + f_equal; [|exact H1]. f_equal. by apply Hv.
        + f_equal. exact H2. }
    destruct Hm as [H1 H2]. rewrite H1, dict_from_NoDup; [exact H2|].
    rewrite map_map. cbn [fst]. exact Hnd.
Qed.

(** [json.dumps] accepts such a value. *)
Lemma json_dumps_plain (v : pyval) : json_plain v = true -> exists j, json_dumps v = Ok j.
Proof.
  induction v as [|b|n|x|s|l IH|l IH|items IH] using pyval_ind'; intros Hp;
    cbn [json_dumps]; try (eexists; reflexivity).
  - cbn [json_plain] in Hp.
    assert (H : exists js, mapM json_dumps l = Ok js).
    { induction IH as [|v l Hv _ IHl]; [by exists []|].
      cbn [forallb] in Hp. apply andb_true_iff in Hp as [Hp1 Hp2].
      destruct (Hv Hp1) as [j Hj]. destruct (IHl Hp2) as [js Hjs].
      exists (j :: js). cbn. rewrite Hj. cbn.
      change (mapM json_dumps l ≫= (fun k => mret (j :: k)) = Ok (j :: js)).
      by rewrite Hjs. }
    destruct H as [js ->]. by eexists.
  - by cbn in Hp.
  - cbn [json_plain] in Hp. apply andb_true_iff in Hp as [Hp _].
    match goal with |- exists j, mapM ?f items ≫= _ = _ =>
      assert (H : exists ms, mapM f items = Ok ms) end.
    { induction IH as [|[k v] items Hv _ IHl]; [by exists []|].
      cbn [forallb fst snd] in Hp. apply andb_true_iff in Hp as [Hp1 Hp2].
      destruct k as [| | | |s| | |]; try done. cbn [snd] in Hv.
      destruct (Hv Hp1) as [j Hj]. destruct (IHl Hp2) as [ms Hms].
      exists ((s, j) :: ms). cbn. rewrite Hj. cbn.
      match goal with |- mapM ?f items ≫= _ = _ =>
        change (mapM f items ≫= (fun k => mret ((s, j) :: k)) = Ok ((s, j) :: ms)) end.
      by rewrite Hms. }
    destruct H as [ms ->]. by eexists.
Qed.

(** *** The values of the session state *)

Lemma line_of_py_of_line (l : DialogueLine) : line_of_py (py_of_line l) = Some l.
Proof. by destruct l as [sp tx [u|]]. Qed.

Lemma script_of_py_of_script (s : list DialogueLine) :
  script_of_py (py_of_script s) = Some s.
Proof.
  unfold script_of_py, py_of_script.
  apply (mapM_fmap_Some line_of_py py_of_line). apply line_of_py_of_line.
Qed.

Lemma settings_of_py_of_settings (v : VoiceSettings) :
  settings_of_py (py_of_settings v) = Some v.
Proof. by destruct v. Qed.

Lemma dict_of_py_of_dict {V} `{EqDecision V} (f : V -> pyval) (g : pyval -> option V)
    (m : gmap string V) :
  (forall v, g (f v) = Some v) -> dict_of_py g (py_of_dict f m) = Some m.
Proof.
  intros Hgf. unfold dict_of_py, py_of_dict.
  rewrite (mapM_fmap_Some _ (fun kv : string * V => (PStr kv.1, f kv.2)) (map_to_list m)).
  - cbn. rewrite list_to_map_to_list. by rewrite bool_decide_eq_true_2.
  - intros [k v]. cbn. by rewrite Hgf.
Qed.

Lemma py_opt_str_of_opt_str (o : option string) : py_opt_str (py_of_opt_str o) = Some o.
Proof. by destruct o. Qed.

Lemma config_of_py_of_config (c : Config) : config_of_py (py_of_config c) = Some c.
Proof.
  destruct c as [it iv ot ov im ps vs per]. unfold config_of_py, py_of_config.
  cbn [intro_text intro_voice outro_text outro_voice
       intro_music podcasters voice_settings voice_settings_per_speaker].
  pose proof (dict_of_py_of_dict PStr py_str ps (fun _ => eq_refl)) as Hps.
  pose proof (settings_of_py_of_settings vs) as Hvs.
  pose proof (py_opt_str_of_opt_str im) as Him.
  set (P := py_of_dict PStr ps) in *. set (S := py_of_settings vs) in *.
  set (M := py_of_opt_str im) in *.
  destruct per as [per|].
  - pose proof (dict_of_py_of_dict py_of_settings settings_of_py per
                  settings_of_py_of_settings) as Hper.
    set (R := py_of_dict py_of_settings per) in *.
    unfold py_fields, config_names. cbn [app map fst snd py_str].
    rewrite bool_decide_eq_true_2 by reflexivity.
    cbn [mbind option_bind]. rewrite Him. cbn [mbind option_bind].
    rewrite Hps. cbn [mbind option_bind]. rewrite Hvs. cbn [mbind option_bind].
    by rewrite Hper.
  - unfold py_fields, config_names. cbn [app map fst snd py_str].
    rewrite bool_decide_eq_false_2 by discriminate.
    rewrite bool_decide_eq_true_2 by reflexivity.
    cbn [mbind option_bind]. rewrite Him. cbn [mbind option_bind].
    rewrite Hps. cbn [mbind option_bind]. by rewrite Hvs.
Qed.

Lemma py_of_line_plain (l : DialogueLine) : json_plain (py_of_line l) = true.
Proof. destruct l as [sp tx [u|]]; cbn; by apply bool_decide_eq_true_2, (bool_decide_unpack _). Qed.

Lemma py_of_script_plain (s : list DialogueLine) : json_plain (py_of_script s) = true.
Proof.
  unfold py_of_script. cbn [json_plain]. apply forallb_forall. intros v Hv.
  apply in_map_iff in Hv as (l & <- & _). apply py_of_line_plain.
Qed.

Lemma py_of_dict_plain {V} (f : V -> pyval) (m : gmap string V) :
  (forall v, json_plain (f v) = true) -> json_plain (py_of_dict f m) = true.
Proof.
  intros Hf. unfold py_of_dict. cbn [json_plain]. apply andb_true_iff. split.
  - apply forallb_forall. intros kv Hkv. apply in_map_iff in Hkv as ([k v] & <- & _).
    cbn. apply Hf.
  - apply bool_decide_eq_true_2. rewrite map_map. cbn. apply NoDup_fst_map_to_list.
Qed.

Lemma py_of_settings_plain (v : VoiceSettings) : json_plain (py_of_settings v) = true.
Proof. cbn. by apply bool_decide_eq_true_2, (bool_decide_unpack _). Qed.

Lemma py_of_config_plain (c : Config) : json_plain (py_of_config c) = true.
Proof.
  destruct c as [it iv ot ov im ps vs per]. unfold py_of_config.
  cbn [intro_text intro_voice outro_text outro_voice
       intro_music podcasters voice_settings voice_settings_per_speaker].
  pose proof (py_of_dict_plain PStr ps (fun _ => eq_refl)) as Hps.
  pose proof (py_of_settings_plain vs) as Hvs.
  assert (Him : json_plain (py_of_opt_str im) = true) by by destruct im.
  destruct per as [per|].
  - pose proof (py_of_dict_plain py_of_settings per py_of_settings_plain) as Hper.
    cbn -[py_of_dict py_of_settings py_of_opt_str]. rewrite Him, Hps, Hvs, Hper. cbn.
    by apply bool_decide_eq_true_2, (bool_decide_unpack _).
  - cbn -[py_of_dict py_of_settings py_of_opt_str]. rewrite Him, Hps, Hvs. cbn.
    by apply bool_decide_eq_true_2, (bool_decide_unpack _).
Qed.

(** The serialized cache: written with tuples, read back as lists. *)
Lemma json_dumps_stored (l : list stored_clip) :
  exists doc, json_dumps (py_of_stored l) = Ok doc /\
              stored_of_py (json_loads doc) = Some l.
Proof.
  exists (JArr (map (fun c : stored_clip =>
                       JArr [JStr c.1; match c.2 with Some a => JStr a | None => JNull end]) l)).
  split.
  - unfold py_of_stored. cbn [json_dumps].
    rewrite (mapM_Ok_map json_dumps _
               (fun c : stored_clip =>
                  JArr [JStr c.1; match c.2 with Some a => JStr a | None => JNull end])).
    + done.
    + intros [lab [a|]]; reflexivity.
  - cbn [json_loads stored_of_py]. rewrite map_map.
    apply (mapM_fmap_Some _ (fun c : stored_clip =>
             json_loads (JArr [JStr c.1; match c.2 with Some a => JStr a | None => JNull end]))).
    intros [lab [a|]]; reflexivity.
Qed.

(** ** Saving and loading a snapshot *)

Lemma find_app_last {A} (f : A -> bool) (l : list A) (x : A) :
  Forall (fun y => f y = false) l -> f x = true -> find f (l ++ [x]) = Some x.
Proof.
  intros Hl Hx. induction Hl as [|y l Hy _ IH]; cbn.
  - by rewrite Hx.
  - by rewrite Hy.
Qed.

Lemma save_progress_Ok (fl : list bool) (now : string) (db db' : Database) (name : string)
    (script_val config_val : pyval) (a : option pyval) :
  save_progress fl now db name script_val config_val a = (db', Ok ()) ->
  exists script_doc config_doc audio_doc,
    progress_documents script_val config_val a = Ok (script_doc, config_doc, audio_doc) /\
    db' = (insert_progress now name script_doc config_doc audio_doc db).1.
Proof.
  unfold save_progress, db_bind.
  destruct (progress_documents script_val config_val a) as [[[sd cd] ad]|]; [|done].
  destruct (execute _ (connect db fl)) as [c1 [[]|e]] eqn:E1; [|by intros [= _ ?]].
  apply execute_spec in E1 as [Hs1 Hw1]. cbn [connect work] in Hw1.
  destruct (commit c1) as [c2 [[]|e]] eqn:E2; [|by intros [= _ ?]].
  apply commit_spec in E2. intros [= <-]. unfold close. rewrite E2.
  exists sd, cd, ad. split; [done|].
  by destruct (insert_progress _ _ _ _ _ db); injection Hw1 as ->.
Qed.

(** The documents of a snapshot: those of the script and the configuration,
    and that of the serialized cache unless it is empty. *)
Lemma progress_documents_Ok (script_val config_val : pyval) (a : option pyval)
    (script_doc config_doc : json) (audio_doc : option json) :
  progress_documents script_val config_val a = Ok (script_doc, config_doc, audio_doc) ->
  json_dumps script_val = Ok script_doc /\
  json_dumps config_val = Ok config_doc /\
  match a with
  | Some v =>
      if py_truthy v then exists doc, audio_doc = Some doc /\ json_dumps v = Ok doc
      else audio_doc = None
  | None => audio_doc = None
  end.
Proof.
  unfold progress_documents.
  destruct (json_dumps script_val) as [sd|]; [|done]. cbn.
  destruct (json_dumps config_val) as [cd|]; [|done]. cbn.
  destruct a as [v|].
  - destruct (py_truthy v).
    + destruct (json_dumps v) as [doc|]; [|done]. cbn. intros [= <- <- <-].
      split; [done|]. split; [done|]. by exists doc.
    + cbn. by intros [= <- <- <-].
  - cbn. by intros [= <- <- <-].
Qed.

Lemma stored_payloads_encoded (clips : list (string * option bytes)) :
  Forall (fun c => c.2 <> Some []) clips ->
  stored_payloads (map (fun c => (c.1, b64encode <$> c.2)) clips) = Ok clips.
Proof.
  induction 1 as [|[lab a] clips Ha _ IH]; [done|].
  cbn [map stored_payloads fst snd]. rewrite IH. unfold stored_audio_bytes. cbn [fst snd].
  destruct a as [[|b bs]|]; [done| |done].
  cbn [fmap option_fmap option_map]. rewrite b64encode_truthy, b64decode_encode. done.
Qed.

(** The save handler stores the base64 text of what [encoded_clip] gives. *)
Lemma serialize_segments_encoded (cache : list clip) :
  serialize_segments cache =
  map (fun c => (c.1, b64encode <$> c.2)) (map encoded_clip cache).
Proof.
  unfold serialize_segments. rewrite map_map. apply map_ext.
  intros [lab [a|]]; unfold encoded_clip; cbn; [|done]. by destruct (0 <? audio_len a).
Qed.

(** C9 (as amended). Saving a snapshot and loading the row it created
    restores it when the script and the configuration hold no tuple and only
    dicts keyed by strings, as they do in every session whose speakers are
    strings.  For every name, such a script and configuration and every list
    of clips (label, with MP3 payload or without), stored in a table whose
    ids do not exceed the AUTOINCREMENT counter: when [save_progress]
    succeeds it adds one row with the next id and that name, and
    [load_progress_by_id] of that id returns the script and the configuration
    as saved and the clip list as saved, an empty list standing for the
    [None] that an empty list is stored as: the same labels, the same clips
    absent, the same base64 text for every clip present, and, payloads being
    non-empty as MP3 data is, the same payload byte for byte once the text is
    decoded. *)
Theorem save_then_load_restores (fl : list bool) (now : string) (db db' : Database)
    (name : string) (script_val config_val : pyval)
    (clips : list (string * option bytes)) :
  Forall (fun r => prog_id r <= seq_progress db) (progress db) ->
  json_plain script_val = true ->
  json_plain config_val = true ->
  save_progress fl now db name script_val config_val
    (Some (py_of_stored (map (fun c => (c.1, b64encode <$> c.2)) clips))) = (db', Ok ()) ->
  (exists row, progress db' = progress db ++ [row] /\
               prog_id row = seq_progress db + 1 /\ prog_name row = name) /\
  exists loaded stored,
    load_progress_by_id db' (seq_progress db + 1) = Ok (Some loaded) /\
    loaded_script loaded = script_val /\
    loaded_config loaded = config_val /\
    match loaded_audio_segments loaded with
    | Some v => stored_of_py v
    | None => Some []
    end = Some stored /\
    stored = map (fun c => (c.1, b64encode <$> c.2)) clips /\
    (Forall (fun c => c.2 <> Some []) clips -> stored_payloads stored = Ok clips).
Proof.
  intros Hids Hsp Hcp Hsave.
  apply save_progress_Ok in Hsave as (sd & cd & ad & Hdocs & ->).
  apply progress_documents_Ok in Hdocs as (Hsd & Hcd & Had).
  cbn [insert_progress fst progress]. split; [by eexists|].
  unfold load_progress_by_id. cbn [progress].
  rewrite find_app_last.
  - unfold loaded_of_row. cbn [prog_script prog_config prog_audio_segments].
    eexists. exists (map (fun c => (c.1, b64encode <$> c.2)) clips).
    split; [reflexivity|].
    cbn [loaded_script loaded_config loaded_audio_segments].
    split; [by apply json_loads_dumps|]. split; [by apply json_loads_dumps|].
    split; [|split; [reflexivity|by apply stored_payloads_encoded]].
    destruct clips as [|c clips'] eqn:E.
    + cbn in Had. by rewrite Had.
    + rewrite <- E in *.
      assert (Ht : py_truthy (py_of_stored (map (fun c => (c.1, b64encode <$> c.2)) clips))
                   = true) by (by rewrite E).
      rewrite Ht in Had. destruct Had as (doc & -> & Hdoc).
      destruct (json_dumps_stored (map (fun c => (c.1, b64encode <$> c.2)) clips))
        as (doc' & Hdoc' & Hread).
      rewrite Hdoc in Hdoc'. injection Hdoc' as <-. exact Hread.
  - eapply Forall_impl; [exact Hids|]. intros r Hr. cbn in *.
    apply bool_decide_eq_false. lia.
  - cbn. by apply bool_decide_eq_true.
Qed.

(** ** Invariants of the reachable worlds *)

Lemma edit_step_cache (fresh : nat -> string) (sp tx : string -> option string)
    (click : edit_click) (st : SessionState) :
  audio_segments (step_3 fresh sp tx click st).1 = audio_segments st.
Proof. unfold step_3. by destruct (edit_loop _ _ _ _ _ _ _ _). Qed.

Lemma configure_podcaster_cache (chosen : string -> option string)
    (slid : string -> option VoiceSettings) (p : string) (st : SessionState) :
  audio_segments (configure_podcaster chosen slid p st).1 = audio_segments st.
Proof.
  unfold configure_podcaster.
  destruct (match podcasters _ !! p with Some v => Ok v | None => _ end); [|done].
  by destruct (match list_index _ _ with Some _ => Ok _ | None => _ end).
Qed.

Lemma configure_loop_cache (chosen : string -> option string)
    (slid : string -> option VoiceSettings) (ps : list string) (st : SessionState) :
  audio_segments (configure_loop chosen slid ps st).1 = audio_segments st.
Proof.
  revert st. induction ps as [|p ps IH]; intros st; [done|]. cbn [configure_loop].
  pose proof (configure_podcaster_cache chosen slid p st) as Hp.
  destruct (configure_podcaster chosen slid p st) as [st1 [?|e]]; cbn in Hp.
  - by rewrite IH.
  - done.
Qed.

Lemma configure_step_cache (refetched : list (string * Voice))
    (chosen : string -> option string) (slid : string -> option VoiceSettings)
    (st : SessionState) :
  audio_segments (step_4 refetched chosen slid st).1 = audio_segments st.
Proof.
  unfold step_4. rewrite configure_loop_cache.
  destruct (voice_settings_per_speaker _); by destruct (available_voices st).
Qed.

Lemma render_page_cache (fresh : nat -> string) (refetched : list (string * Voice))
    (w : world) :
  audio_segments (render_page fresh refetched w).1 = audio_segments w.1 /\
  (render_page fresh refetched w).2 = w.2.
Proof.
  unfold render_page. destruct w as [st db].
  destruct (current_step st =? 3); [split; [apply edit_step_cache|done]|].
  destruct (current_step st =? 4); [split; [apply configure_step_cache|done]|done].
Qed.

(** "Generate All Audio" leaves a cache labelled by position, failed or not. *)
Lemma generate_all_well_labelled (st : SessionState) :
  well_labelled (audio_segments (generate_all st).1).
Proof.
  unfold generate_all.
  destruct (generate_loop 0 (script st) (set_audio_segments st [])) as [st' r] eqn:E.
  cbn [fst]. apply generate_loop_spec in E as (_ & cs & -> & Hcs & _). cbn.
  intros j c Hj. destruct (Hcs j c Hj) as (line & _ & Hg).
  by apply generate_line_label in Hg.
Qed.

Lemma regenerate_well_labelled (i : nat) (new_text : string) (st : SessionState) :
  well_labelled (audio_segments st) ->
  well_labelled (audio_segments (regenerate i new_text st).1).
Proof.
  intros Hwl. unfold regenerate. destruct (render_clips _ _); [|done].
  destruct (audio_segments st !! i) as [c|] eqn:Hc; [|done].
  destruct (_ ≫= _) as [[idx new_audio]|]; [|done].
  cbn [fst audio_segments set_audio_segments set_script].
  intros j c' Hj. destruct (decide (j = i)) as [->|Hne].
  - rewrite list_lookup_insert_eq in Hj by (by eapply lookup_lt_Some).
    injection Hj as <-. cbn. by apply Hwl.
  - rewrite list_lookup_insert_ne in Hj by done. by apply Hwl.
Qed.

Lemma well_labelled_labels {A B} (l : list (string * A)) (l' : list (string * B)) :
  map fst l' = map fst l -> well_labelled l -> well_labelled l'.
Proof.
  intros Hfst Hwl j c Hj.
  assert (Hl' : map fst l' !! j = Some c.1).
  { change (@map (string * B) string) with (@fmap list _ (string * B) string).
    by rewrite list_lookup_fmap, Hj. }
  rewrite Hfst in Hl'.
  change (@map (string * A) string) with (@fmap list _ (string * A) string) in Hl'.
  rewrite list_lookup_fmap in Hl'. destruct (l !! j) as [d|] eqn:Hd; [|done].
  injection Hl' as <-. by apply (Hwl j).
Qed.

Lemma serialize_segments_labels (cache : list clip) :
  map fst (serialize_segments cache) = map fst cache.
Proof.
  unfold serialize_segments. rewrite map_map. apply map_ext. intros [lab [a|]]; cbn; [|done].
  by destruct (0 <? audio_len a).
Qed.

Lemma deserialize_segments_labels (l : list stored_clip) (segs : list clip) :
  deserialize_segments l = Ok segs -> map fst segs = map fst l.
Proof.
  revert segs. induction l as [|c l IH]; intros segs; cbn [deserialize_segments].
  - by intros [= <-].
  - destruct (deserialize_clip c) as [c'|] eqn:Hc; [|done]. cbn [mbind outcome_bind].
    destruct (deserialize_segments l) as [rest|] eqn:Hl; [|done]. cbn [mbind outcome_bind].
    intros [= <-]. cbn [map]. rewrite (IH rest eq_refl). f_equal.
    unfold deserialize_clip in Hc. destruct (stored_audio_bytes c) as [[bs|]|]; [| |done].
    + cbn in Hc. destruct (from_mp3 bs); [|done]. by injection Hc as <-.
    + by injection Hc as <-.
Qed.

Lemma save_progress_cases (fl : list bool) (now : string) (db : Database) (name : string)
    (script_val config_val : pyval) (a : option pyval) :
  (save_progress fl now db name script_val config_val a).1 = db \/
  exists script_doc config_doc audio_doc,
    progress_documents script_val config_val a = Ok (script_doc, config_doc, audio_doc) /\
    (save_progress fl now db name script_val config_val a).1 =
      (insert_progress now name script_doc config_doc audio_doc db).1.
Proof.
  destruct (save_progress fl now db name script_val config_val a) as [db' [[]|e]] eqn:E.
  - right. apply save_progress_Ok in E as (sd & cd & ad & H1 & H2). by exists sd, cd, ad.
  - left. revert E. unfold save_progress, db_bind.
    destruct (progress_documents script_val config_val a) as [[[sd cd] ad]|];
      [|by intros [= <- _]].
    destruct (execute _ (connect db fl)) as [c1 [[]|e1]] eqn:E1;
      apply execute_spec in E1 as [Hs1 _].
    + destruct (commit c1) as [c2 [[]|e2]] eqn:E2; [done|].
      apply commit_spec in E2. intros [= <- _]. unfold close. cbn. by rewrite E2, Hs1.
    + intros [= <- _]. unfold close. cbn. by rewrite Hs1.
Qed.

(** The row that the save handler writes for a session is a snapshot of
    it. *)
Lemma saved_row_snapshot (now name : string) (id : Z) (s : list DialogueLine)
    (cfg : Config) (l : list stored_clip) (script_doc config_doc : json)
    (audio_doc : option json) :
  progress_documents (py_of_script s) (py_of_config cfg) (Some (py_of_stored l)) =
    Ok (script_doc, config_doc, audio_doc) ->
  snapshot_of (loaded_of_row (MkProgress id name script_doc config_doc audio_doc now)) =
    Some (MkSnapshot s cfg l).
Proof.
  intros (Hsd & Hcd & Had)%progress_documents_Ok.
  unfold snapshot_of, loaded_of_row.
  cbn [prog_script prog_config prog_audio_segments loaded_script loaded_config
       loaded_audio_segments].
  rewrite (json_loads_dumps _ _ (py_of_script_plain s) Hsd), script_of_py_of_script.
  cbn [mbind option_bind].
  rewrite (json_loads_dumps _ _ (py_of_config_plain cfg) Hcd), config_of_py_of_config.
  cbn [mbind option_bind].
  destruct l as [|c l].
  - cbn in Had. by rewrite Had.
  - assert (Ht : py_truthy (py_of_stored (c :: l)) = true) by done.
    rewrite Ht in Had. destruct Had as (doc & -> & Hdoc).
    destruct (json_dumps_stored (c :: l)) as (doc' & Hdoc' & Hread).
    rewrite Hdoc in Hdoc'. injection Hdoc' as <-.
    cbn [fmap option_fmap option_map]. by rewrite Hread.
Qed.

Lemma insert_progress_ok (now name : string) (s : list DialogueLine) (cfg : Config)
    (l : list stored_clip) (script_doc config_doc : json) (audio_doc : option json)
    (db : Database) :
  progress_documents (py_of_script s) (py_of_config cfg) (Some (py_of_stored l)) =
    Ok (script_doc, config_doc, audio_doc) ->
  well_labelled l -> progress_ok db ->
  progress_ok (insert_progress now name script_doc config_doc audio_doc db).1.
Proof.
  intros Hdocs Hl [Hids Hrows]. split; cbn [insert_progress fst progress seq_progress].
  - apply Forall_app. split.
    + eapply Forall_impl; [exact Hids|]. intros r Hr. cbn in *. lia.
    + constructor; [cbn; lia|constructor].
  - apply Forall_app. split; [done|]. constructor; [|constructor].
    exists (MkSnapshot s cfg l). split; [|done]. by apply saved_row_snapshot.
Qed.

Lemma delete_progress_ok (fl : list bool) (db : Database) (id : Z) :
  progress_ok db -> progress_ok (delete_progress fl db id).1.
Proof.
  intros [Hids Hrows].
  assert (Hcases : (delete_progress fl db id).1 = db \/
                   (delete_progress fl db id).1 = (delete_progress_stmt id db).1).
  { unfold delete_progress, db_bind.
    destruct (execute _ (connect db fl)) as [c1 [[]|e1]] eqn:E1;
      apply execute_spec in E1 as [Hs1 Hw1]; cbn [connect work stored] in *.
    - destruct (commit c1) as [c2 [[]|e2]] eqn:E2; apply commit_spec in E2;
        unfold close; cbn [fst]; rewrite E2.
      + right. by rewrite <- Hw1.
      + by left.
    - left. by unfold close. }
  destruct Hcases as [->| ->]; [done|]. split; cbn [delete_progress_stmt fst progress seq_progress].
  - apply Forall_forall. intros r [_ Hr]%list_elem_of_filter.
    by apply (proj1 (Forall_forall _ _) Hids).
  - apply Forall_forall. intros r [_ Hr]%list_elem_of_filter.
    by apply (proj1 (Forall_forall _ _) Hrows).
Qed.

Lemma save_podcast_progress (fl : list bool) (now : string) (db : Database) (title : string)
    (a b c : option bytes) :
  progress (save_podcast fl now db title a b c).1 = progress db /\
  seq_progress (save_podcast fl now db title a b c).1 = seq_progress db.
Proof.
  destruct (save_podcast_spec fl now db title a b c) as [->|[e ->]]; [|done].
  unfold saved_podcast, add_segment.
  by destruct a as [[|? ?]|], b as [[|? ?]|], c as [[|? ?]|].
Qed.

Lemma delete_podcast_progress (fl : list bool) (db : Database) (id : Z) :
  progress (delete_podcast fl db id).1 = progress db /\
  seq_progress (delete_podcast fl db id).1 = seq_progress db.
Proof.
  unfold delete_podcast, db_bind.
  destruct (execute (delete_segments_stmt id) (connect db fl)) as [c1 [[]|e1]] eqn:E1;
    apply execute_spec in E1 as [Hs1 Hw1]; cbn [connect work stored] in *;
    [|unfold close, rollback; cbn; by rewrite Hs1].
  destruct (execute (delete_podcast_stmt id) c1) as [c2 [[]|e2]] eqn:E2;
    apply execute_spec in E2 as [Hs2 Hw2];
    [|unfold close, rollback; cbn; by rewrite Hs2, Hs1].
  destruct (commit c2) as [c3 [[]|e3]] eqn:E3; apply commit_spec in E3;
    unfold close, rollback; cbn [fst stored]; rewrite E3; [|by rewrite Hs2, Hs1].
  injection Hw2 as ->. by injection Hw1 as ->.
Qed.

Lemma progress_ok_same (db db' : Database) :
  progress db' = progress db -> seq_progress db' = seq_progress db ->
  progress_ok db -> progress_ok db'.
Proof. unfold progress_ok. by intros -> ->. Qed.

(** In a table of snapshots every row read is one. *)
Lemma load_progress_snapshot (db : Database) (id : Z) (loaded : Loaded) :
  progress_ok db ->
  load_progress_by_id db id = Ok (Some loaded) ->
  exists snap, snapshot_of loaded = Some snap /\ well_labelled (snap_audio snap).
Proof.
  intros [_ Hrows]. unfold load_progress_by_id.
  destruct (find _ (progress db)) as [row|] eqn:Hfind; [|done].
  apply find_some in Hfind as [Hin _]. intros [= <-].
  apply (proj1 (Forall_forall _ _) Hrows). by apply list_elem_of_In.
Qed.

Lemma load_progress_click_ok (id : Z) (w : world) :
  world_ok w -> world_ok (loaded_world id w).
Proof.
  destruct w as [st db]. intros [Hc Hdb]. unfold loaded_world, load_progress_click.
  destruct (load_progress_by_id db id) as [[loaded|]|] eqn:Hload; [|done|done].
  destruct (load_progress_snapshot db id loaded Hdb Hload) as (snap & -> & Hl).
  cbn [mbind option_bind].
  destruct (snap_audio snap) as [|c cs] eqn:Ha.
  - split; [|done]. by intros j x.
  - destruct (deserialize_segments (c :: cs)) as [segs|] eqn:Hd; [|done].
    split; [|done]. cbn. apply deserialize_segments_labels in Hd.
    by apply (well_labelled_labels _ _ Hd).
Qed.

Lemma save_progress_click_ok (name : string) (fl : list bool) (now : string) (w : world) :
  world_ok w -> world_ok (save_progress_click name fl now w).1.
Proof.
  destruct w as [st db]. intros [Hc Hdb]. unfold save_progress_click.
  destruct (str_truthy _); [|done].
  pose proof (save_progress_cases fl now db (strip name) (py_of_script (script st))
                (py_of_config (config st))
                (Some (py_of_stored (serialize_segments (audio_segments st))))) as Hcases.
  destruct (save_progress _ _ _ _ _ _ _) as [db' r]. cbn [fst] in *.
  split; [done|]. cbn [snd]. destruct Hcases as [->|(sd & cd & ad & Hdocs & ->)]; [done|].
  eapply insert_progress_ok; [exact Hdocs| |done].
  by apply (well_labelled_labels _ _ (serialize_segments_labels _)).
Qed.

Lemma step_6_ok (company title : string) (pressed : bool) (fl : list bool) (now : string)
    (w : world) :
  world_ok w -> world_ok (step_6 company title pressed fl now w).1.
Proof.
  destruct w as [st db]. intros [Hc Hdb]. unfold step_6.
  destruct (step_6_view company title st); try done.
  - destruct pressed.
    + unfold finalize.
      set (st1 := match podcast_finalized st with
                  | Some _ => st
                  | None => set_podcast_finalized st (Some false)
                  end).
      assert (Hst : audio_segments st1 = audio_segments st)
        by (unfold st1; by destruct (podcast_finalized st)).
      destruct (assemble (audio_segments st1)) as [b|]; [|by split; [cbn; rewrite Hst|]].
      pose proof (save_podcast_progress fl now db (strip company +:+ " " +:+ strip title)
                    (bucket_bytes (intro_audio b)) (bucket_bytes (hosts_discussion b))
                    (bucket_bytes (outro_audio b))) as [Hp Hs].
      destruct (save_podcast _ _ _ _ _ _ _) as [db' [id|e]]; cbn [fst snd] in *.
      * split; [cbn; by rewrite Hst|]. by apply (progress_ok_same db).
      * split; [cbn; by rewrite Hst|]. by apply (progress_ok_same db).
    + split; [|done]. by destruct (podcast_finalized st).
  - by destruct pressed.
Qed.

(** Every run of [main] keeps the cache labelled by position and the
    progress table in order. *)
Lemma handle_ok (e : event) (w : world) : world_ok w -> world_ok (handle e w).
Proof.
  destruct w as [st db]. intros Hw. pose proof Hw as [Hc Hdb].
  assert (Hrender : forall fresh refetched st0,
            audio_segments st0 = audio_segments st ->
            world_ok (render_page fresh refetched (st0, db))).
  { intros fresh refetched st0 Hst0.
    destruct (render_page_cache fresh refetched (st0, db)) as [H1 H2].
    cbn [fst snd] in H1, H2. split; [by rewrite H1, Hst0|by rewrite H2]. }
  destruct e; cbn [handle]; unfold on_step; cbn [fst].
  - by apply Hrender.
  - destruct (_ && _); [by apply Hrender|]. destruct (_ && _); [by apply Hrender|done].
  - destruct (current_step st =? 2); [|done]. by destruct imported.
  - destruct (current_step st =? 3); [|done]. split; [|done]. cbn. by rewrite edit_step_cache.
  - destruct (current_step st =? 4); [|done]. split; [|done]. cbn.
    by rewrite configure_step_cache.
  - destruct (current_step st =? 5); [|done]. split; [|done]. apply generate_all_well_labelled.
  - destruct (current_step st =? 5); [|done]. split; [|done]. by apply regenerate_well_labelled.
  - destruct (current_step st =? 5); [|done]. by apply save_progress_click_ok.
  - destruct (current_step st =? 5); [|done]. by apply load_progress_click_ok.
  - destruct (current_step st =? 5); [|done]. split; [done|]. by apply delete_progress_ok.
  - destruct (current_step st =? 6); [|done]. by apply step_6_ok.
  - destruct (current_step st =? 7); [|done]. split; [done|]. cbn [snd].
    destruct (delete_podcast_progress fl db podcast_id) as [Hp Hs].
    by apply (progress_ok_same db).
Qed.

Lemma reachable_ok (w : world) : reachable w -> world_ok w.
Proof.
  induction 1 as [voices|e w _ IH|voices w _ [_ IH]].
  - split; [by intros j c|]. split; constructor.
  - by apply handle_ok.
  - split; [by intros j c|done].
Qed.

Lemma reachable_run (es : list event) (w : world) : reachable w -> reachable (run es w).
Proof.
  revert w. induction es as [|e es IH]; intros w Hw; [done|].
  cbn. apply IH. by constructor.
Qed.

(** C4. In every world the application can reach, for every index [i] of
    the clip cache, a successful regenerate of clip [i] with [new_text]
    changes only the clip at cache index [i], keeping its label, and only the
    text of script line [i], which becomes [new_text] while its speaker and
    uid are kept; every other clip, every other script line and the rest of
    the session state are as before. *)
Theorem regenerate_changes_one_clip_and_line (st st' : SessionState) (db : Database)
    (i : nat) (new_text : string) (c : clip) :
  reachable (st, db) ->
  audio_segments st !! i = Some c ->
  regenerate i new_text st = (st', Ok ()) ->
  exists (line : DialogueLine) (new_audio : AudioSegment),
    script st !! i = Some line /\
    audio_segments st' = <[i := (c.1, Some new_audio)]> (audio_segments st) /\
    script st' = <[i := Line (speaker line) new_text (uid line)]> (script st) /\
    audio_segments st' !! i = Some (c.1, Some new_audio) /\
    script st' !! i = Some (Line (speaker line) new_text (uid line)) /\
    (forall j, j <> i -> audio_segments st' !! j = audio_segments st !! j) /\
    (forall j, j <> i -> script st' !! j = script st !! j) /\
    config st' = config st /\
    current_step st' = current_step st /\
    available_voices st' = available_voices st /\
    podcast_finalized st' = podcast_finalized st /\
    script_loaded st' = script_loaded st.
Proof.
  intros Hreach Hc. apply reachable_ok in Hreach as [Hwl _].
  apply regenerate_labelled_clip; [done|]. by apply (Hwl i).
Qed.

(** * Further properties of the handlers *)

(** ** Step 5: a run of "Generate All Audio" that succeeds *)

(** X1. When "Generate All Audio" succeeds the cache holds exactly one clip
    per script line, in script order: the clip at position [j] is labelled
    "Line j+1" and carries the audio synthesised from the text of line [j]
    with the voice and the settings configured for its speaker; nothing but
    the cache changes. *)
Theorem generate_all_one_clip_per_line (st st' : SessionState) :
  generate_all st = (st', Ok ()) ->
  same_but_cache st st' /\
  length (audio_segments st') = length (script st) /\
  forall j line, script st !! j = Some line ->
    exists vid audio,
      voice_id_of st (speaker line) = Ok vid /\
      generate_audio st (text line) vid (speaker line) = Ok audio /\
      audio_segments st' !! j = Some ("Line " +:+ str_nat (j + 1), Some audio).
Proof.
  unfold generate_all. intros Hrun.
  apply generate_loop_spec in Hrun as (Hsame & cs & Hcache & Hcs & Hlen).
  cbn in Hcache. rewrite Hcache. split; [exact Hsame|]. split; [exact Hlen|].
  intros j line Hj.
  destruct (cs !! j) as [c|] eqn:Hc.
  - destruct (Hcs j c Hc) as (line' & Hline' & Hgen). cbn [script set_audio_segments] in Hline'.
    rewrite Hj in Hline'. injection Hline' as <-.
    change (generate_line st j line = Ok c) in Hgen.
    unfold generate_line, line_request in Hgen.
    destruct (voice_id_of st (speaker line)) as [vid|]; [|done]. cbn in Hgen.
    destruct (generate_audio st (text line) vid (speaker line)) as [audio|] eqn:Ha; [|done].
    cbn in Hgen. injection Hgen as <-. by exists vid, audio.
  - apply lookup_ge_None in Hc. apply lookup_lt_Some in Hj.
    cbn in Hlen. unfold clip in *. lia.
Qed.

(** X2. A "Regenerate" that raises, whatever the exception, leaves the whole
    session state as it was: the previous clip and the previous text of the
    line are kept. *)
Theorem regenerate_failure_keeps_state (st st' : SessionState) (i : nat)
    (new_text : string) (e : exn) :
  regenerate i new_text st = (st', Raised e) -> st' = st.
Proof.
  unfold regenerate. destruct (render_clips _ _); [|by intros [= <-]].
  destruct (audio_segments st !! i) as [c|]; [|done].
  destruct (_ ≫= _) as [[idx new_audio]|]; [done|by intros [= <-]].
Qed.

(** ** Step 3: uids, idempotence, insertion and deletion *)

Lemma edit_line_uid (sp tx : string -> option string) (l : DialogueLine) :
  uid (edit_line sp tx l).1 = uid l.
Proof. done. Qed.

Lemma force_presenter_uid (l : DialogueLine) : uid (force_presenter l) = uid l.
Proof. unfold force_presenter. by destruct (is_marked (text l)). Qed.

Lemma edit_loop_all_uids (sp tx : string -> option string) (click : edit_click)
    (todo : list DialogueLine) (i : nat) (seen : list string) (acc : list DialogueLine)
    (shown : list string) :
  Forall (fun l => uid l <> None) acc ->
  Forall (fun l => uid l <> None) todo ->
  Forall (fun l => uid l <> None) (edit_loop sp tx click i seen acc todo shown).1.
Proof.
  revert i seen acc shown.
  induction todo as [|l todo IH]; intros i seen acc shown Hd Ht; [done|].
  apply Forall_cons in Ht as [Hl Ht]. cbn [edit_loop].
  destruct (uid l) as [u|] eqn:Eu; [|done].
  destruct (bool_decide (u ∈ seen)).
  { cbn. apply Forall_app. split; [done|]. constructor; [|done].
    by rewrite force_presenter_uid, Eu. }
  destruct (edit_line sp tx l) as [l' s0] eqn:E.
  assert (Hl' : uid l' <> None).
  { pose proof (edit_line_uid sp tx l) as Hu. rewrite E in Hu. cbn in Hu. by rewrite Hu, Eu. }
  assert (Hd' : Forall (fun l => uid l <> None) (acc ++ [l'])).
  { apply Forall_app. split; [done|]. by constructor. }
  destruct click as [|j new_uid|j].
  - by apply IH.
  - destruct (i =? j)%nat; [|by apply IH]. cbn.
    apply Forall_app. split; [done|]. constructor; [done|]. by constructor.
  - destruct (i =? j)%nat; [|by apply IH]. cbn. apply Forall_app. by split.
Qed.

(** X3. After the edit page has been drawn, whatever was typed or pressed,
    every line of the script has a uid. *)
Theorem edit_step_every_line_has_uid (fresh : nat -> string)
    (speaker_typed text_typed : string -> option string) (click : edit_click)
    (st : SessionState) :
  Forall (fun l => exists u, uid l = Some u)
         (script (step_3 fresh speaker_typed text_typed click st).1).
Proof.
  unfold step_3.
  pose proof (edit_loop_all_uids speaker_typed text_typed click
                (assign_uids fresh 0 (script st)) 0 [] [] [] (Forall_nil_2 _)
                (assign_uids_all fresh (script st) 0)) as H.
  destruct (edit_loop _ _ _ _ _ _ _ _) as [s' shown]. cbn in *.
  eapply Forall_impl; [exact H|]. intros l Hl. cbn in Hl.
  destruct (uid l); [by eexists|done].
Qed.

Lemma edit_line_idem (l : DialogueLine) :
  (edit_line (fun _ => None) (fun _ => None)
     (edit_line (fun _ => None) (fun _ => None) l).1).1 =
  (edit_line (fun _ => None) (fun _ => None) l).1.
Proof.
  unfold edit_line, widget. cbn [fst text speaker uid].
  destruct (uid l); cbn; by destruct (is_marked (text l)).
Qed.

Lemma force_presenter_idem (l : DialogueLine) :
  force_presenter (force_presenter l) = force_presenter l.
Proof.
  unfold force_presenter. destruct (is_marked (text l)) eqn:E; cbn; by rewrite E.
Qed.

(** With nothing typed and nothing pressed, rendering what a rendering left
    gives it back, whether the page was rendered to its end or not. *)
Lemma edit_loop_idem (todo : list DialogueLine) (i i' : nat) (seen : list string) :
  Forall (fun l => uid l <> None) todo ->
  (edit_loop (fun _ => None) (fun _ => None) NoClick i' seen []
     (edit_loop (fun _ => None) (fun _ => None) NoClick i seen [] todo []).1 []).1 =
  (edit_loop (fun _ => None) (fun _ => None) NoClick i seen [] todo []).1.
Proof.
  revert i i' seen. induction todo as [|l todo IH]; intros i i' seen Hu; [done|].
  apply Forall_cons in Hu as [Hl Hu]. cbn [edit_loop].
  destruct (uid l) as [u|] eqn:Eu; [|done].
  destruct (bool_decide (u ∈ seen)) eqn:Es.
  - cbn [app fst edit_loop]. rewrite force_presenter_uid, Eu, Es. cbn [app fst].
    by rewrite force_presenter_idem.
  - destruct (edit_line (fun _ => None) (fun _ => None) l) as [l' s0] eqn:E.
    assert (El : l' = (edit_line (fun _ => None) (fun _ => None) l).1) by by rewrite E.
    rewrite (edit_loop_done _ _ NoClick todo (S i) (u :: seen) ([] ++ [l']) ([] ++ [s0])).
    cbn [app fst snd edit_loop].
    assert (Eu' : uid l' = Some u) by (by rewrite El, edit_line_uid).
    rewrite Eu', Es.
    destruct (edit_line (fun _ => None) (fun _ => None) l') as [l'' s1] eqn:E'.
    assert (El' : l'' = l').
    { replace l'' with (edit_line (fun _ => None) (fun _ => None) l').1 by by rewrite E'.
      rewrite El. apply edit_line_idem. }
    subst l''.
    rewrite (edit_loop_done _ _ NoClick _ (S i') (u :: seen) ([] ++ [l']) ([] ++ [s1])).
    cbn [app fst snd]. f_equal.
    apply IH. done.
Qed.

(** X4. Drawing the edit page with nothing typed and nothing pressed is
    idempotent: a second drawing leaves the script the first one produced. *)
Theorem edit_step_idempotent (fresh fresh' : nat -> string) (st : SessionState) :
  let once := (step_3 fresh (fun _ => None) (fun _ => None) NoClick st).1 in
  (step_3 fresh' (fun _ => None) (fun _ => None) NoClick once).1 = once.
Proof.
  cbn zeta. unfold step_3.
  pose proof (edit_loop_all_uids (fun _ => None) (fun _ => None) NoClick
                (assign_uids fresh 0 (script st)) 0 [] [] [] (Forall_nil_2 _)
                (assign_uids_all fresh (script st) 0)) as Hu.
  pose proof (edit_loop_idem (assign_uids fresh 0 (script st)) 0 0 []
                (assign_uids_all fresh (script st) 0)) as Hi.
  destruct (edit_loop _ _ NoClick 0 [] [] (assign_uids fresh 0 (script st)) [])
    as [s1 r1]. cbn [fst snd script set_script] in *.
  rewrite (assign_uids_id fresh' s1 0 Hu).
  destruct (edit_loop _ _ NoClick 0 [] [] s1 []) as [s2 r2]. cbn [fst] in *.
  by rewrite Hi.
Qed.

Lemma edit_loop_add_below (sp tx : string -> option string) (u : string)
    (todo : list DialogueLine) (i j : nat) (seen : list string) (acc : list DialogueLine)
    (shown : list string) :
  (i <= j < i + length todo)%nat ->
  Forall (fun l => uid l <> None) todo ->
  NoDup (map Some seen ++ take (S (j - i)) (map uid todo)) ->
  (edit_loop sp tx (AddBelow j u) i seen acc todo shown).1 =
  acc ++ map (fun l => (edit_line sp tx l).1) (take (S (j - i)) todo) ++
  Line "" "" (Some u) :: drop (S (j - i)) todo.
Proof.
  revert i seen acc shown.
  induction todo as [|l todo IH]; intros i seen acc shown Hij Hu Hnd; cbn in Hij; [lia|].
  apply Forall_cons in Hu as [Hl Hu]. cbn [edit_loop].
  destruct (uid l) as [v|] eqn:Ev; [|done].
  cbn [map take] in Hnd. rewrite Ev in Hnd.
  apply NoDup_seen_step in Hnd as [Hnot Hnd].
  rewrite bool_decide_eq_false_2 by done.
  destruct (edit_line sp tx l) as [l' s0] eqn:E.
  destruct (Nat.eqb_spec i j) as [->|Hne].
  - rewrite Nat.sub_diag. cbn [take drop map app]. by rewrite E.
  - replace (j - i)%nat with (S (j - S i)) in Hnd by lia.
    rewrite (IH (S i) (v :: seen)) by (done || lia).
    replace (S (j - i)) with (S (S (j - S i))) by lia.
    cbn [take drop map]. rewrite E. cbn [fst]. by rewrite <- app_assoc.
Qed.

Lemma edit_loop_delete (sp tx : string -> option string)
    (todo : list DialogueLine) (i j : nat) (seen : list string) (acc : list DialogueLine)
    (shown : list string) :
  (i <= j < i + length todo)%nat ->
  Forall (fun l => uid l <> None) todo ->
  NoDup (map Some seen ++ take (S (j - i)) (map uid todo)) ->
  (edit_loop sp tx (DeleteDialog j) i seen acc todo shown).1 =
  acc ++ map (fun l => (edit_line sp tx l).1) (take (j - i) todo) ++ drop (S (j - i)) todo.
Proof.
  revert i seen acc shown.
  induction todo as [|l todo IH]; intros i seen acc shown Hij Hu Hnd; cbn in Hij; [lia|].
  apply Forall_cons in Hu as [Hl Hu]. cbn [edit_loop].
  destruct (uid l) as [v|] eqn:Ev; [|done].
  cbn [map take] in Hnd. rewrite Ev in Hnd.
  apply NoDup_seen_step in Hnd as [Hnot Hnd].
  rewrite bool_decide_eq_false_2 by done.
  destruct (edit_line sp tx l) as [l' s0] eqn:E.
  destruct (Nat.eqb_spec i j) as [->|Hne].
  - rewrite Nat.sub_diag. by cbn [take drop map app].
  - replace (j - i)%nat with (S (j - S i)) in Hnd by lia.
    rewrite (IH (S i) (v :: seen)) by (done || lia).
    replace (j - i)%nat with (S (j - S i)) by lia.
    cbn [take drop map]. rewrite E. cbn [fst]. by rewrite <- app_assoc.
Qed.

(** A pressed button of a dialog that is on the page ends the run without
    an exception. *)
Lemma edit_loop_click_Ok (sp tx : string -> option string) (click : edit_click)
    (todo : list DialogueLine) (i j : nat) (seen : list string) (acc : list DialogueLine)
    (shown : list string) :
  click = DeleteDialog j \/ (exists u, click = AddBelow j u) ->
  (i <= j < i + length todo)%nat ->
  Forall (fun l => uid l <> None) todo ->
  NoDup (map Some seen ++ take (S (j - i)) (map uid todo)) ->
  (edit_loop sp tx click i seen acc todo shown).2.2 = Ok ().
Proof.
  intros Hc. revert i seen acc shown.
  induction todo as [|l todo IH]; intros i seen acc shown Hij Hu Hnd; cbn in Hij; [lia|].
  apply Forall_cons in Hu as [Hl Hu]. cbn [edit_loop].
  destruct (uid l) as [v|] eqn:Ev; [|done].
  cbn [map take] in Hnd. rewrite Ev in Hnd.
  apply NoDup_seen_step in Hnd as [Hnot Hnd].
  rewrite bool_decide_eq_false_2 by done.
  destruct (edit_line sp tx l) as [l' s0] eqn:E.
  destruct Hc as [->|[u ->]]; destruct (Nat.eqb_spec i j) as [->|Hne]; try done.
  - apply (IH (S i) (v :: seen)); [lia|done|].
    by replace (S (j - S i)) with (j - i)%nat by lia.
  - apply (IH (S i) (v :: seen)); [lia|done|].
    by replace (S (j - S i)) with (j - i)%nat by lia.
Qed.

(** A pressed button of a dialog that is not on the page, a uid being
    repeated at or before it, does nothing: the run ends at the repeated uid
    with the script at its length. *)
Lemma edit_loop_click_duplicate (sp tx : string -> option string) (click : edit_click)
    (todo : list DialogueLine) (i j : nat) (seen : list string) (acc : list DialogueLine)
    (shown : list string) :
  click = DeleteDialog j \/ (exists u, click = AddBelow j u) ->
  (i <= j < i + length todo)%nat ->
  Forall (fun l => uid l <> None) todo ->
  NoDup seen ->
  ~ NoDup (map Some seen ++ take (S (j - i)) (map uid todo)) ->
  (edit_loop sp tx click i seen acc todo shown).2.2 = Raised DuplicateWidgetID /\
  length (edit_loop sp tx click i seen acc todo shown).1 = (length acc + length todo)%nat.
Proof.
  intros Hc. revert i seen acc shown.
  induction todo as [|l todo IH]; intros i seen acc shown Hij Hu Hs Hnd; cbn in Hij; [lia|].
  apply Forall_cons in Hu as [Hl Hu]. cbn [edit_loop].
  destruct (uid l) as [v|] eqn:Ev; [|done].
  cbn [map take] in Hnd. rewrite Ev in Hnd.
  destruct (decide (v ∈ seen)) as [Hin|Hnot].
  { rewrite bool_decide_eq_true_2 by done. cbn [fst snd]. split; [done|].
    rewrite length_app. cbn [length]. lia. }
  rewrite bool_decide_eq_false_2 by done.
  destruct (edit_line sp tx l) as [l' s0] eqn:E.
  assert (Hs' : NoDup (v :: seen)) by (by apply NoDup_cons).
  assert (Hnd' : i <> j ->
            ~ NoDup (map Some (v :: seen) ++ take (S (j - S i)) (map uid todo))).
  { intros Hne Hn. apply Hnd.
    replace (j - i)%nat with (S (j - S i)) by lia.
    cbn [map app] in Hn. by rewrite <- Permutation_middle. }
  assert (Hlen : forall r : list DialogueLine,
            length r = (length (acc ++ [l']) + length todo)%nat ->
            length r = (length acc + length (l :: todo))%nat).
  { intros r ->. rewrite length_app. cbn [length]. lia. }
  assert (Hi : i = j -> False).
  { intros ->. apply Hnd. rewrite Nat.sub_diag, take_0.
    replace (map Some seen ++ [Some v]) with (map Some (seen ++ [v]))
      by (by rewrite map_app).
    change (NoDup (Some <$> (seen ++ [v]))). apply NoDup_fmap_2; [apply _|].
    apply NoDup_app. split; [done|]. split.
    - intros x Hx Hx'. apply list_elem_of_singleton in Hx' as ->. done.
    - apply NoDup_singleton. }
  destruct Hc as [->|[u ->]]; destruct (Nat.eqb_spec i j) as [Heq|Hne];
    try (by destruct (Hi Heq)).
  - destruct (IH (S i) (v :: seen) (acc ++ [l']) (shown ++ [s0])) as [H1 H2];
      [lia|done|done|by apply Hnd'|].
    split; [done|by apply Hlen].
  - destruct (IH (S i) (v :: seen) (acc ++ [l']) (shown ++ [s0])) as [H1 H2];
      [lia|done|done|by apply Hnd'|].
    split; [done|by apply Hlen].
Qed.

Lemma length_assign_uids (fresh : nat -> string) (s : list DialogueLine) (i : nat) :
  length (assign_uids fresh i s) = length s.
Proof.
  revert i. induction s as [|l s IH]; intros i; cbn; [done|].
  destruct (uid l); cbn; by rewrite IH.
Qed.

(** X5. "Add Dialog Below" on dialog [i].  When the buttons of the dialog
    are on the page, the uids of the dialogs up to [i] being pairwise
    distinct, the run ends without an exception and has inserted one blank
    line, with the new uid, right after position [i]: the script grows by
    one, the lines up to [i] are the edited lines, and the lines that
    followed [i] come after the blank line, untouched and in their order.
    When a uid is repeated at or before [i], the page raises at the repeated
    uid and no line is inserted. *)
Theorem add_below_inserts_blank_line (fresh : nat -> string)
    (speaker_typed text_typed : string -> option string) (i : nat) (new_uid : string)
    (st : SessionState) :
  (i < length (script st))%nat ->
  let s := assign_uids fresh 0 (script st) in
  let r := step_3 fresh speaker_typed text_typed (AddBelow i new_uid) st in
  let s' := script r.1 in
  (NoDup (first_uids fresh st (S i)) ->
   r.2.2 = Ok () /\
   length s' = S (length (script st)) /\
   s' !! S i = Some (Line "" "" (Some new_uid)) /\
   take (S i) s' = map (fun l => (edit_line speaker_typed text_typed l).1) (take (S i) s) /\
   drop (S (S i)) s' = drop (S i) s) /\
  (~ NoDup (first_uids fresh st (S i)) ->
   r.2.2 = Raised DuplicateWidgetID /\ length s' = length (script st)).
Proof.
  intros Hi s r s'. subst s' r. unfold step_3, first_uids. fold s.
  assert (Hls : length s = length (script st)) by apply length_assign_uids.
  pose proof (edit_loop_add_below speaker_typed text_typed new_uid s 0 i [] [] []) as H.
  pose proof (edit_loop_click_Ok speaker_typed text_typed (AddBelow i new_uid) s 0 i
                [] [] []) as Hok.
  pose proof (edit_loop_click_duplicate speaker_typed text_typed (AddBelow i new_uid) s 0 i
                [] [] []) as Hdup.
  rewrite Nat.sub_0_r in H, Hok, Hdup. cbn [app map] in H, Hok, Hdup.
  destruct (edit_loop _ _ _ _ _ _ _ _) as [r [shown out]].
  cbn [fst snd script set_script length] in *.
  split.
  - intros Hnd.
    rewrite H; [|lia|apply assign_uids_all|exact Hnd].
    assert (Hlen : length (map (fun l => (edit_line speaker_typed text_typed l).1)
                               (take (S i) s)) = S i).
    { rewrite length_map, length_take. lia. }
    split; [|split; [|split; [|split]]].
    + apply Hok; [right; by eexists|lia|apply assign_uids_all|exact Hnd].
    + rewrite length_app, Hlen. cbn [length]. rewrite length_drop. lia.
    + rewrite lookup_app_r by lia. by rewrite Hlen, Nat.sub_diag.
    + by rewrite take_app_length' by done.
    + rewrite drop_app_ge by lia. rewrite Hlen.
      by replace (S (S i) - S i)%nat with 1%nat by lia.
  - intros Hnd.
    destruct Hdup as [H1 H2];
      [right; by eexists|lia|apply assign_uids_all|constructor|exact Hnd|].
    split; [done|lia].
Qed.

(** X6. "Delete Dialog" on dialog [i].  When the buttons of the dialog are
    on the page, the uids of the dialogs up to [i] being pairwise distinct,
    the run ends without an exception and has removed exactly that line: the
    script shrinks by one, the lines before [i] are the edited lines and the
    lines after [i] follow, untouched and in their order.  When a uid is
    repeated at or before [i], the page raises at the repeated uid and no
    line is removed. *)
Theorem delete_dialog_removes_one_line (fresh : nat -> string)
    (speaker_typed text_typed : string -> option string) (i : nat) (st : SessionState) :
  (i < length (script st))%nat ->
  let s := assign_uids fresh 0 (script st) in
  let r := step_3 fresh speaker_typed text_typed (DeleteDialog i) st in
  let s' := script r.1 in
  (NoDup (first_uids fresh st (S i)) ->
   r.2.2 = Ok () /\
   S (length s') = length (script st) /\
   take i s' = map (fun l => (edit_line speaker_typed text_typed l).1) (take i s) /\
   drop i s' = drop (S i) s) /\
  (~ NoDup (first_uids fresh st (S i)) ->
   r.2.2 = Raised DuplicateWidgetID /\ length s' = length (script st)).
Proof.
  intros Hi s r s'. subst s' r. unfold step_3, first_uids. fold s.
  assert (Hls : length s = length (script st)) by apply length_assign_uids.
  pose proof (edit_loop_delete speaker_typed text_typed s 0 i [] [] []) as H.
  pose proof (edit_loop_click_Ok speaker_typed text_typed (DeleteDialog i) s 0 i
                [] [] []) as Hok.
  pose proof (edit_loop_click_duplicate speaker_typed text_typed (DeleteDialog i) s 0 i
                [] [] []) as Hdup.
  rewrite Nat.sub_0_r in H, Hok, Hdup. cbn [app map] in H, Hok, Hdup.
  destruct (edit_loop _ _ _ _ _ _ _ _) as [r [shown out]].
  cbn [fst snd script set_script length] in *.
  split.
  - intros Hnd.
    rewrite H; [|lia|apply assign_uids_all|exact Hnd].
    assert (Hlen : length (map (fun l => (edit_line speaker_typed text_typed l).1)
                               (take i s)) = i).
    { rewrite length_map, length_take. lia. }
    split; [|split; [|split]].
    + apply Hok; [by left|lia|apply assign_uids_all|exact Hnd].
    + rewrite length_app, Hlen, length_drop. lia.
    + by rewrite take_app_length' by done.
    + rewrite drop_app_ge by lia. by rewrite Hlen, Nat.sub_diag.
  - intros Hnd.
    destruct Hdup as [H1 H2];
      [by left|lia|apply assign_uids_all|constructor|exact Hnd|].
    split; [done|lia].
Qed.

(** ** The store: saving, reading back and deleting *)

Lemma dict_get_set_eq {V} (d : list (string * V)) (k : string) (v : V) :
  dict_get (dict_set d k v) k = Some v.
Proof.
  induction d as [|[k' v'] d IH]; cbn.
  - by rewrite String.eqb_refl.
  - destruct (String.eqb k' k) eqn:E; cbn; by rewrite E.
Qed.

Lemma dict_get_set_ne {V} (d : list (string * V)) (k k0 : string) (v : V) :
  k <> k0 -> dict_get (dict_set d k v) k0 = dict_get d k0.
Proof.
  intros Hne. induction d as [|[k' v'] d IH]; cbn.
  - destruct (String.eqb_spec k k0); done.
  - destruct (String.eqb_spec k' k) as [->|Hk]; cbn.
    + destruct (String.eqb_spec k k0); done.
    + by destruct (String.eqb_spec k' k0).
Qed.

Lemma filter_segments_app (id : Z) (l1 l2 : list SegmentRow) :
  filter (fun r => seg_podcast_id r = id) (l1 ++ l2) =
  filter (fun r => seg_podcast_id r = id) l1 ++ filter (fun r => seg_podcast_id r = id) l2.
Proof. apply filter_app. Qed.

Lemma filter_none {A} (P : A -> Prop) `{!forall x, Decision (P x)} (l : list A) :
  Forall (fun x => ~ P x) l -> filter P l = [].
Proof.
  induction 1 as [|x l Hx _ IH]; [done|]. by rewrite filter_cons_False.
Qed.

Lemma filter_all {A} (P : A -> Prop) `{!forall x, Decision (P x)} (l : list A) :
  Forall P l -> filter P l = l.
Proof.
  induction 1 as [|x l Hx _ IH]; [done|]. rewrite filter_cons_True by done. by rewrite IH.
Qed.

Lemma segment_rows_owner (now : string) (id seq : Z) (l : list (string * bytes)) :
  Forall (fun r => seg_podcast_id r = id) (segment_rows now id seq l).
Proof.
  revert seq. induction l as [|p l IH]; intros seq; cbn; constructor; [done|apply IH].
Qed.

Lemma segment_rows_content (now : string) (id seq : Z) (l : list (string * bytes)) :
  map (fun r => (seg_type r, seg_audio_data r)) (segment_rows now id seq l) = l.
Proof.
  revert seq. induction l as [|[t b] l IH]; intros seq; cbn; [done|]. by rewrite IH.
Qed.

(** The rows of a committed [save_podcast], table by table. *)
Lemma saved_podcast_tables (now title : string) (a b c : option bytes) (db : Database) :
  let db' := saved_podcast now title a b c db in
  let id := seq_podcasts db + 1 in
  podcasts db' = podcasts db ++ [MkPodcast id title now now] /\
  podcast_segments db' =
    podcast_segments db ++ segment_rows now id (seq_segments db) (provided_segments a b c) /\
  progress db' = progress db /\
  seq_podcasts db' = id /\
  seq_progress db' = seq_progress db.
Proof.
  unfold saved_podcast, add_segment, insert_segment, insert_podcast, provided_segments.
  destruct a as [[|? ?]|], b as [[|? ?]|], c as [[|? ?]|];
    cbn; rewrite <- ?app_assoc, ?app_nil_r; done.
Qed.

Lemma get_saved_podcast_segments (now title : string) (a b c : option bytes)
    (db : Database) :
  Forall (fun r => seg_podcast_id r <= seq_podcasts db) (podcast_segments db) ->
  get_podcast_segments (saved_podcast now title a b c db) (seq_podcasts db + 1) =
  provided_segments a b c.
Proof.
  intros Hseg. destruct (saved_podcast_tables now title a b c db) as (_ & Hsegs & _).
  unfold get_podcast_segments. rewrite Hsegs, filter_segments_app.
  rewrite filter_none.
  - rewrite filter_all by apply segment_rows_owner. cbn [app]. apply segment_rows_content.
  - eapply Forall_impl; [exact Hseg|]. intros r Hr. cbn in *. lia.
Qed.


(** X7. Saving a podcast and reading its segments back.  In a store whose
    ids were handed out by the store itself, after [save_podcast] returns an
    id, [get_podcast_segments] of that id is the dict of exactly the
    non-empty payloads of the call, under the keys "intro",
    "hosts_discussion" and "outro", and a payload that was absent or empty
    has no key; the segments of every other podcast read as before. *)
Theorem save_podcast_then_get_segments (fl : list bool) (now : string) (db db' : Database)
    (title : string) (intro_audio hosts_audio outro_audio : option bytes) (id : Z) :
  ids_ok db ->
  save_podcast fl now db title intro_audio hosts_audio outro_audio = (db', Ok id) ->
  get_podcast_segments db' id = provided_segments intro_audio hosts_audio outro_audio /\
  dict_get (get_podcast_segments_dict db' id) "intro" =
    (if bytes_truthy intro_audio then intro_audio else None) /\
  dict_get (get_podcast_segments_dict db' id) "hosts_discussion" =
    (if bytes_truthy hosts_audio then hosts_audio else None) /\
  dict_get (get_podcast_segments_dict db' id) "outro" =
    (if bytes_truthy outro_audio then outro_audio else None) /\
  forall other, other <> id ->
    get_podcast_segments db' other = get_podcast_segments db other.
Proof.
  intros (_ & _ & Hseg & _) Hsave.
  destruct (save_podcast_spec fl now db title intro_audio hosts_audio outro_audio)
    as [H|[e H]]; rewrite H in Hsave; [|done].
  injection Hsave as <- <-.
  destruct (saved_podcast_tables now title intro_audio hosts_audio outro_audio db)
    as (_ & Hsegs & _).
  assert (Hget : get_podcast_segments
                   (saved_podcast now title intro_audio hosts_audio outro_audio db)
                   (seq_podcasts db + 1) =
                 provided_segments intro_audio hosts_audio outro_audio)
    by (by apply get_saved_podcast_segments).
  split; [exact Hget|].
  unfold get_podcast_segments_dict. rewrite Hget.
  split; [|split; [|split]].
  - unfold provided_segments.
    by destruct intro_audio as [[|? ?]|], hosts_audio as [[|? ?]|], outro_audio as [[|? ?]|].
  - unfold provided_segments.
    by destruct intro_audio as [[|? ?]|], hosts_audio as [[|? ?]|], outro_audio as [[|? ?]|].
  - unfold provided_segments.
    by destruct intro_audio as [[|? ?]|], hosts_audio as [[|? ?]|], outro_audio as [[|? ?]|].
  - intros other Hother. unfold get_podcast_segments. rewrite Hsegs, filter_segments_app.
    rewrite (filter_none _ (segment_rows _ _ _ _)); [by rewrite app_nil_r|].
    eapply Forall_impl; [apply segment_rows_owner|]. intros r Hr. cbn in *. congruence.
Qed.

Lemma delete_podcast_cases (fl : list bool) (db : Database) (id : Z) :
  delete_podcast fl db id = (delete_podcast_rows id db, Ok ()) \/
  exists e, delete_podcast fl db id = (db, Raised e).
Proof.
  unfold delete_podcast, db_bind.
  destruct (execute (delete_segments_stmt id) (connect db fl)) as [c1 [[]|e1]] eqn:E1;
    apply execute_spec in E1 as [Hs1 Hw1]; cbn [connect work stored] in *;
    [|right; exists e1; unfold close, rollback; cbn; by rewrite Hs1].
  destruct (execute (delete_podcast_stmt id) c1) as [c2 [[]|e2]] eqn:E2;
    apply execute_spec in E2 as [Hs2 Hw2];
    [|right; exists e2; unfold close, rollback; cbn; by rewrite Hs2, Hs1].
  destruct (commit c2) as [c3 [[]|e3]] eqn:E3; apply commit_spec in E3;
    unfold close, rollback; cbn [fst stored]; rewrite E3;
    [|right; exists e3; by rewrite Hs2, Hs1].
  left. f_equal. injection Hw2 as ->. by injection Hw1 as ->.
Qed.

(** X8. [delete_podcast] is all or nothing.  When it returns, the podcast
    row of that id and every segment of that id are gone, while every other
    podcast row, the segments of every other podcast and the progress table
    are as before; when it raises, the store is exactly as before. *)
Theorem delete_podcast_removes_podcast_and_segments (fl : list bool) (db : Database)
    (id : Z) :
  (exists db',
     delete_podcast fl db id = (db', Ok ()) /\
     get_podcast_segments db' id = [] /\
     get_podcast_segments_dict db' id = [] /\
     podcasts db' = filter (fun r => pod_id r <> id) (podcasts db) /\
     (forall r, In r (podcasts db') -> pod_id r <> id) /\
     (forall other, other <> id ->
        get_podcast_segments db' other = get_podcast_segments db other) /\
     progress db' = progress db) \/
  (exists e, delete_podcast fl db id = (db, Raised e)).
Proof.
  destruct (delete_podcast_cases fl db id) as [H|H]; [left|by right].
  eexists. split; [exact H|]. cbn [delete_podcast_rows podcasts podcast_segments progress].
  assert (Hnone : get_podcast_segments (delete_podcast_rows id db) id = []).
  { unfold get_podcast_segments. cbn [delete_podcast_rows podcast_segments].
    rewrite filter_none; [done|].
    apply Forall_forall. by intros r [Hr _]%list_elem_of_filter. }
  split; [exact Hnone|]. split; [by unfold get_podcast_segments_dict; rewrite Hnone|].
  split; [done|]. split.
  - by intros r [Hr _]%list_elem_of_In%list_elem_of_filter.
  - split; [|done]. intros other Hother. unfold get_podcast_segments.
    cbn [delete_podcast_rows podcast_segments]. f_equal.
    induction (podcast_segments db) as [|r l IH]; [done|].
    destruct (decide (seg_podcast_id r = id)) as [Hr|Hr].
    + rewrite (filter_cons_False (fun r => seg_podcast_id r <> id)) by (by intros ?).
      rewrite IH. rewrite (filter_cons_False (fun r => seg_podcast_id r = other)); [done|].
      congruence.
    + rewrite (filter_cons_True (fun r => seg_podcast_id r <> id)) by done.
      destruct (decide (seg_podcast_id r = other)).
      * rewrite !(filter_cons_True (fun r => seg_podcast_id r = other)) by done. by rewrite IH.
      * rewrite !(filter_cons_False (fun r => seg_podcast_id r = other)) by done. exact IH.
Qed.

Lemma delete_progress_cases (fl : list bool) (db : Database) (id : Z) :
  delete_progress fl db id = ((delete_progress_stmt id db).1, Ok ()) \/
  exists e, delete_progress fl db id = (db, Raised e).
Proof.
  unfold delete_progress, db_bind.
  destruct (execute _ (connect db fl)) as [c1 [[]|e1]] eqn:E1;
    apply execute_spec in E1 as [Hs1 Hw1]; cbn [connect work stored] in *;
    [|right; exists e1; by unfold close; rewrite Hs1].
  destruct (commit c1) as [c2 [[]|e2]] eqn:E2; apply commit_spec in E2; unfold close;
    rewrite E2; [|right; exists e2; by rewrite Hs1].
  left. by rewrite <- Hw1.
Qed.

Lemma find_progress_filter (id other : Z) (l : list ProgressRow) :
  other <> id ->
  find (fun r => bool_decide (prog_id r = other)) (filter (fun r => prog_id r <> id) l) =
  find (fun r => bool_decide (prog_id r = other)) l.
Proof.
  intros Hne. induction l as [|r l IH]; [done|].
  destruct (decide (prog_id r = id)) as [Hr|Hr].
  - rewrite filter_cons_False by (by intros ?). cbn [find].
    rewrite bool_decide_eq_false_2 by congruence. exact IH.
  - rewrite filter_cons_True by done. cbn [find]. by rewrite IH.
Qed.

Lemma find_progress_deleted (id : Z) (l : list ProgressRow) :
  find (fun r => bool_decide (prog_id r = id)) (filter (fun r => prog_id r <> id) l) = None.
Proof.
  induction l as [|r l IH]; [done|].
  destruct (decide (prog_id r = id)) as [Hr|Hr].
  - by rewrite filter_cons_False by (by intros ?).
  - rewrite filter_cons_True by done. cbn [find]. by rewrite bool_decide_eq_false_2.
Qed.

(** X9. [delete_progress] removes one snapshot and nothing else.  When it
    returns, loading the deleted id finds no row, loading any other id gives
    what it gave before, and the podcast tables are untouched; when it
    raises, the store is exactly as before. *)
Theorem delete_progress_then_load (fl : list bool) (db : Database) (id : Z) :
  (exists db',
     delete_progress fl db id = (db', Ok ()) /\
     load_progress_by_id db' id = Ok None /\
     (forall other, other <> id ->
        load_progress_by_id db' other = load_progress_by_id db other) /\
     podcasts db' = podcasts db /\
     podcast_segments db' = podcast_segments db) \/
  (exists e, delete_progress fl db id = (db, Raised e)).
Proof.
  destruct (delete_progress_cases fl db id) as [H|H]; [left|by right].
  eexists. split; [exact H|]. unfold load_progress_by_id.
  cbn [delete_progress_stmt fst progress podcasts podcast_segments].
  split; [by rewrite find_progress_deleted|].
  split; [|done]. intros other Hother. by rewrite find_progress_filter.
Qed.

Lemma find_app_miss {A} (f : A -> bool) (l : list A) (x : A) :
  f x = false -> find f (l ++ [x]) = find f l.
Proof.
  intros Hx. induction l as [|y l IH]; cbn; [by rewrite Hx|]. by destruct (f y).
Qed.

(** X10. [save_progress] adds one row or nothing, whatever Python values it
    is given.  When it returns, the progress table is the old one followed by
    one row that carries the next id, the given name and time and the JSON
    documents that [json.dumps] makes of the arguments; every id handed out
    before loads what it loaded before; the podcast tables are untouched.
    When it raises, the store is exactly as before. *)
Theorem save_progress_adds_one_row (fl : list bool) (now : string) (db : Database)
    (name : string) (script_val config_val : pyval) (audio : option pyval) :
  (exists db' script_doc config_doc audio_doc,
     save_progress fl now db name script_val config_val audio = (db', Ok ()) /\
     progress_documents script_val config_val audio =
       Ok (script_doc, config_doc, audio_doc) /\
     progress db' =
       progress db ++ [MkProgress (seq_progress db + 1) name script_doc config_doc
                         audio_doc now] /\
     (forall id, id <= seq_progress db ->
        load_progress_by_id db' id = load_progress_by_id db id) /\
     podcasts db' = podcasts db /\
     podcast_segments db' = podcast_segments db) \/
  (exists e, save_progress fl now db name script_val config_val audio = (db, Raised e)).
Proof.
  destruct (save_progress fl now db name script_val config_val audio) as [db' [[]|e]] eqn:E.
  - left. apply save_progress_Ok in E as (sd & cd & ad & Hdocs & ->).
    exists (insert_progress now name sd cd ad db).1, sd, cd, ad.
    split; [done|]. split; [done|].
    cbn [insert_progress fst progress podcasts podcast_segments].
    split; [done|]. split; [|done]. intros id Hid. unfold load_progress_by_id.
    cbn [progress]. rewrite find_app_miss; [done|]. cbn. apply bool_decide_eq_false. lia.
  - right. exists e. f_equal.
    revert E. unfold save_progress, db_bind.
    destruct (progress_documents script_val config_val audio) as [[[sd cd] ad]|];
      [|by intros [= <- _]].
    destruct (execute _ (connect db fl)) as [c1 [[]|e1]] eqn:E1.
    + destruct (commit c1) as [c2 [[]|e2]] eqn:E2; [done|].
      apply execute_spec in E1 as [Hs1 _]. apply commit_spec in E2.
      intros [= Hdb _]. unfold close in Hdb. rewrite E2, Hs1 in Hdb. by cbn in Hdb.
    + apply execute_spec in E1 as [Hs1 _]. intros [= Hdb _]. unfold close in Hdb.
      rewrite Hs1 in Hdb. by cbn in Hdb.
Qed.

(** ** Row ids in the reachable stores *)

Lemma NoDup_map_filter {A B} (f : A -> B) (P : A -> Prop) `{!forall x, Decision (P x)}
    (l : list A) :
  NoDup (map f l) -> NoDup (map f (filter P l)).
Proof.
  intros HN. eapply sublist_NoDup; [exact HN|].
  change (f <$> filter P l `sublist_of` f <$> l). apply fmap_sublist, sublist_filter.
Qed.

Lemma Forall_filter_keep {A} (Q : A -> Prop) (P : A -> Prop) `{!forall x, Decision (P x)}
    (l : list A) :
  Forall Q l -> Forall Q (filter P l).
Proof.
  intros HQ. apply Forall_forall. intros x [_ Hx]%list_elem_of_filter.
  by apply (proj1 (Forall_forall _ _) HQ).
Qed.

Lemma NoDup_map_snoc {A} (f : A -> Z) (l : list A) (x : A) (bound : Z) :
  Forall (fun y => f y <= bound) l -> bound < f x ->
  NoDup (map f l) -> NoDup (map f (l ++ [x])).
Proof.
  intros Hb Hx Hn. rewrite map_app. apply NoDup_app. split; [done|]. split.
  - intros z Hz Hz'. cbn in Hz'. apply list_elem_of_singleton in Hz' as ->.
    apply list_elem_of_In, in_map_iff in Hz as (y & Hy & Hin).
    apply list_elem_of_In in Hin. apply (proj1 (Forall_forall _ _) Hb) in Hin. lia.
  - cbn. apply NoDup_singleton.
Qed.

Lemma db_effect_ids_ok (db db' : Database) : ids_ok db -> db_effect db db' -> ids_ok db'.
Proof.
  intros (Hp & Hpn & Hs & Hg & Hgn) [|now name sd cd ad|id|now company ptitle a b c _ _|id].
  - done.
  - cbn [insert_progress fst]. unfold ids_ok.
    cbn [podcasts podcast_segments progress seq_podcasts seq_progress].
    split; [done|]. split; [done|]. split; [done|]. split.
    + apply Forall_app. split.
      * eapply Forall_impl; [exact Hg|]. intros r Hr. cbn in *. lia.
      * constructor; [cbn; lia|constructor].
    + apply (NoDup_map_snoc prog_id _ _ (seq_progress db)); [done|cbn; lia|done].
  - cbn [delete_progress_stmt fst]. unfold ids_ok.
    cbn [podcasts podcast_segments progress seq_podcasts seq_progress].
    split; [done|]. split; [done|]. split; [done|].
    split; [by apply Forall_filter_keep|by apply NoDup_map_filter].
  - destruct (saved_podcast_tables now (strip company +:+ " " +:+ strip ptitle) a b c db)
      as (H1 & H2 & H3 & H4 & H5).
    unfold ids_ok. rewrite H1, H2, H3, H4, H5.
    split; [|split; [|split; [|done]]].
    + apply Forall_app. split.
      * eapply Forall_impl; [exact Hp|]. intros r Hr. cbn in *. lia.
      * constructor; [cbn; lia|constructor].
    + apply (NoDup_map_snoc pod_id _ _ (seq_podcasts db)); [done|cbn; lia|done].
    + apply Forall_app. split.
      * eapply Forall_impl; [exact Hs|]. intros r Hr. cbn in *. lia.
      * eapply Forall_impl; [apply segment_rows_owner|]. intros r Hr. cbn in *. lia.
  - unfold ids_ok, delete_podcast_rows.
    cbn [podcasts podcast_segments progress seq_podcasts seq_progress].
    split; [by apply Forall_filter_keep|]. split; [by apply NoDup_map_filter|].
    split; [by apply Forall_filter_keep|done].
Qed.

Lemma step_6_db_effect (company title : string) (pressed : bool) (fl : list bool)
    (now : string) (w : world) :
  db_effect w.2 (step_6 company title pressed fl now w).1.2.
Proof.
  destruct w as [st db]. unfold step_6.
  destruct (step_6_view company title st) eqn:Ev; try constructor.
  - destruct pressed; [|constructor]. unfold finalize.
    destruct (assemble _) as [b|]; [|constructor].
    destruct (save_podcast_spec fl now db (strip company +:+ " " +:+ strip title)
                (bucket_bytes (intro_audio b)) (bucket_bytes (hosts_discussion b))
                (bucket_bytes (outro_audio b))) as [->|[e ->]]; [|constructor].
    unfold step_6_view in Ev. destruct (audio_segments st); [done|].
    destruct (str_truthy (strip company)) eqn:Ec; [|done].
    destruct (str_truthy (strip title)) eqn:Et; [|done].
    by apply effect_save_podcast.
  - destruct pressed; constructor.
Qed.

(** Each run of [main] commits at most one call. *)
Lemma handle_db_effect (e : event) (w : world) : db_effect w.2 (handle e w).2.
Proof.
  destruct w as [st db].
  destruct e; cbn [handle]; unfold on_step; cbn [fst snd];
    repeat match goal with
    | |- context [render_page ?f ?r ?w] =>
        rewrite (proj2 (render_page_cache f r w))
    | |- context [if ?b then _ else _] => destruct b
    end; cbn [fst snd]; try constructor.
  - unfold save_progress_click. destruct (str_truthy _); [|constructor].
    pose proof (save_progress_cases fl now db (strip progress_name)
                  (py_of_script (script st)) (py_of_config (config st))
                  (Some (py_of_stored (serialize_segments (audio_segments st))))) as Hc.
    destruct (save_progress _ _ _ _ _ _ _) as [db' r]. cbn [fst snd] in *.
    destruct Hc as [->|(sd & cd & ad & _ & ->)]; constructor.
  - unfold loaded_world, load_progress_click.
    destruct (load_progress_by_id db progress_id) as [[loaded|]|]; try constructor.
    destruct (snapshot_of loaded) as [snap|]; [|constructor]. cbn [mbind option_bind].
    destruct (snap_audio snap) as [|c cs]; try constructor.
    destruct (deserialize_segments _); constructor.
  - destruct (delete_progress_cases fl db progress_id) as [->|[e ->]]; constructor.
  - apply (step_6_db_effect company podcast_title pressed fl now (st, db)).
  - destruct (delete_podcast_cases fl db podcast_id) as [->|[e ->]]; constructor.
Qed.

Lemma ids_after_refl (db : Database) : ids_after db db.
Proof. unfold ids_after. split; [lia|]. split; [lia|]. split; intros r Hr; by left. Qed.

Lemma ids_after_trans (db1 db2 db3 : Database) :
  ids_after db1 db2 -> ids_after db2 db3 -> ids_after db1 db3.
Proof.
  intros (Hp & Hg & Hpr & Hgr) (Hp' & Hg' & Hpr' & Hgr'). unfold ids_after.
  split; [lia|]. split; [lia|]. split; intros r Hr.
  - destruct (Hpr' r Hr) as [Hin|Hlt]; [by apply Hpr|right; lia].
  - destruct (Hgr' r Hr) as [Hin|Hlt]; [by apply Hgr|right; lia].
Qed.

Lemma db_effect_ids_after (db db' : Database) : db_effect db db' -> ids_after db db'.
Proof.
  intros [|now name sd cd ad|id|now company ptitle a b c _ _|id].
  - apply ids_after_refl.
  - unfold ids_after. cbn [insert_progress fst podcasts progress seq_podcasts seq_progress].
    split; [lia|]. split; [lia|]. split; intros r Hr; [by left|].
    apply elem_of_app in Hr as [Hr|Hr]; [by left|].
    apply list_elem_of_singleton in Hr as ->. right. cbn. lia.
  - unfold ids_after.
    cbn [delete_progress_stmt fst podcasts progress seq_podcasts seq_progress].
    split; [lia|]. split; [lia|]. split; intros r Hr; [by left|].
    apply list_elem_of_filter in Hr as [_ Hr]. by left.
  - destruct (saved_podcast_tables now (strip company +:+ " " +:+ strip ptitle) a b c db)
      as (H1 & _ & H3 & H4 & H5).
    unfold ids_after. rewrite H1, H3, H4, H5.
    split; [lia|]. split; [lia|]. split; intros r Hr; [|by left].
    apply elem_of_app in Hr as [Hr|Hr]; [by left|].
    apply list_elem_of_singleton in Hr as ->. right. cbn. lia.
  - unfold ids_after, delete_podcast_rows. cbn [podcasts progress seq_podcasts seq_progress].
    split; [lia|]. split; [lia|]. split; intros r Hr; [|by left].
    apply list_elem_of_filter in Hr as [_ Hr]. by left.
Qed.

Lemma later_reachable (w w' : world) : reachable w -> later w w' -> reachable w'.
Proof. intros Hw. induction 1; [done|by constructor|by constructor]. Qed.

Lemma later_run (es : list event) (w0 w : world) : later w0 w -> later w0 (run es w).
Proof.
  revert w. induction es as [|e es IH]; intros w Hw; [done|].
  cbn. apply IH. by constructor.
Qed.

Lemma reachable_ids_ok (w : world) : reachable w -> ids_ok w.2.
Proof.
  induction 1 as [voices|e w _ IH|voices w _ IH].
  - cbn. unfold ids_ok. cbn. repeat split; constructor.
  - eapply db_effect_ids_ok; [exact IH|]. apply handle_db_effect.
  - exact IH.
Qed.

(** X11. Row ids are never handed out twice.  Take a world [w] that the
    application can reach and any world [w'] that comes after it, through
    runs of [main], deletions and fresh sessions.  In the store of [w'] no
    two podcasts share an id and no two snapshots share an id, every id is
    within the counter of its table, and every segment row belongs to a
    podcast id that was handed out.  The counters of [w'] are not below
    those of [w], and every podcast or snapshot row of [w'] is a row that
    [w] already had or has an id beyond the counter of [w]: an id that was
    handed out before [w], whether its row was deleted or not, is never the
    id of a row made later. *)
Theorem reachable_ids_unique (w w' : world) :
  reachable w -> later w w' ->
  ids_ok w'.2 /\
  seq_podcasts w.2 <= seq_podcasts w'.2 /\
  seq_progress w.2 <= seq_progress w'.2 /\
  (forall r, r ∈ podcasts w'.2 -> r ∈ podcasts w.2 \/ seq_podcasts w.2 < pod_id r) /\
  (forall r, r ∈ progress w'.2 -> r ∈ progress w.2 \/ seq_progress w.2 < prog_id r).
Proof.
  intros Hw Hl. split; [by apply reachable_ids_ok, (later_reachable w)|].
  change (ids_after w.2 w'.2).
  induction Hl as [|e w' _ IH|voices w' _ IH].
  - apply ids_after_refl.
  - eapply ids_after_trans; [exact IH|]. apply db_effect_ids_after, handle_db_effect.
  - exact IH.
Qed.

(** ** Step 6: what "Finalize Podcast" stores *)

Lemma assemble_loop_missing_audio (n i : Z) (segs : list clip) (b : buckets) :
  (exists label, In (label, None) segs) -> assemble_loop n i segs b = Raised TypeError.
Proof.
  revert i b. induction segs as [|[lab a] segs IH]; intros i b [label Hin]; [done|].
  cbn [assemble_loop]. destruct a as [a|].
  - destruct Hin as [[=]|Hin].
    destruct (assemble_step n i (lab, Some a) b) as [b'|e] eqn:E.
    + cbn. apply IH. by exists label.
    + unfold assemble_step in E. cbn in E. by destruct (i =? 0), (i =? n - 1).
  - done.
Qed.

Lemma assemble_loop_Raised (n i : Z) (segs : list clip) (b : buckets) (e : exn) :
  assemble_loop n i segs b = Raised e -> exists label, In (label, None) segs.
Proof.
  revert i b. induction segs as [|[lab a] segs IH]; intros i b; [done|].
  cbn [assemble_loop]. destruct a as [a|].
  - destruct (assemble_step n i (lab, Some a) b) as [b'|e'] eqn:E.
    + cbn. intros H. destruct (IH _ _ H) as [label Hl]. exists label. by right.
    + unfold assemble_step in E. cbn in E. by destruct (i =? 0), (i =? n - 1).
  - intros _. exists lab. by left.
Qed.

(** X12. Assembly fails exactly when the cache holds an entry without audio,
    and then with [TypeError]; pressing "Finalize Podcast" on such a cache
    raises it before anything is saved: the store and the session state are
    unchanged and the episode is not finalized. *)
Theorem assemble_fails_on_missing_audio (segs : list clip) :
  ((exists e, assemble segs = Raised e) <-> (exists label, In (label, None) segs)) /\
  ((exists label, In (label, None) segs) ->
   assemble segs = Raised TypeError /\
   forall company title fl now st db,
     audio_segments st = segs ->
     finalize company title fl now (st, db) = ((st, db), Raised TypeError)).
Proof.
  unfold assemble. split; [split|].
  - intros [e He]. by apply assemble_loop_Raised in He.
  - intros H. exists TypeError. by apply assemble_loop_missing_audio.
  - intros H. split; [by apply assemble_loop_missing_audio|].
    intros company title fl now st db <-. unfold finalize, assemble.
    by rewrite (assemble_loop_missing_audio _ _ _ _ H).
Qed.


(** X14. A "Finalize Podcast" whose save fails.  The error is caught and
    shown: the handler returns normally, the store is exactly as before, the
    finalized flag is not set, and the page still offers "Finalize Podcast",
    so the operator can press it again. *)
Theorem finalize_failure_can_be_retried (company title : string) (fl : list bool)
    (now : string) (st : SessionState) (db db' : Database) (b : buckets) (e : exn) :
  step_6_view company title st = OfferFinalize ->
  assemble (audio_segments st) = Ok b ->
  save_podcast fl now db (strip company +:+ " " +:+ strip title)
    (bucket_bytes (intro_audio b)) (bucket_bytes (hosts_discussion b))
    (bucket_bytes (outro_audio b)) = (db', Raised e) ->
  let r := step_6 company title true fl now (st, db) in
  r.2 = Ok () /\
  r.1.2 = db /\
  podcast_finalized r.1.1 = Some false /\
  step_6_view company title r.1.1 = OfferFinalize.
Proof.
  intros Hview Hasm Hsave r. subst r.
  assert (Hdb : db' = db).
  { destruct (save_podcast_spec fl now db (strip company +:+ " " +:+ strip title)
                (bucket_bytes (intro_audio b)) (bucket_bytes (hosts_discussion b))
                (bucket_bytes (outro_audio b))) as [H|[e' H]]; rewrite H in Hsave; [done|].
    by injection Hsave. }
  subst db'. unfold step_6. rewrite Hview. unfold finalize.
  set (st1 := match podcast_finalized st with
              | Some _ => st
              | None => set_podcast_finalized st (Some false)
              end).
  assert (Ha : audio_segments st1 = audio_segments st)
    by (unfold st1; by destruct (podcast_finalized st)).
  assert (Hf : podcast_finalized st1 = Some false).
  { unfold st1. unfold step_6_view in Hview. destruct (audio_segments st); [done|].
    destruct (negb _ || negb _); [done|].
    destruct (podcast_finalized st) as [[|]|] eqn:E; cbn in *; [done|exact E|done]. }
  rewrite Ha, Hasm, Hsave. cbn [fst snd].
  split; [done|]. split; [done|]. split; [exact Hf|].
  unfold step_6_view in Hview |- *. rewrite Ha, Hf.
  destruct (audio_segments st); [done|]. by destruct (negb _ || negb _).
Qed.

(** ** Step 5: the save and load buttons *)

Lemma load_after_insert (now name : string) (script_doc config_doc : json)
    (audio_doc : option json) (db : Database) :
  Forall (fun r => prog_id r <= seq_progress db) (progress db) ->
  load_progress_by_id (insert_progress now name script_doc config_doc audio_doc db).1
    (seq_progress db + 1) =
  Ok (Some (loaded_of_row
              (MkProgress (seq_progress db + 1) name script_doc config_doc audio_doc now))).
Proof.
  intros Hids. unfold load_progress_by_id. cbn [insert_progress fst progress].
  rewrite find_app_last.
  - done.
  - eapply Forall_impl; [exact Hids|]. intros r Hr. cbn in *.
    apply bool_decide_eq_false. lia.
  - cbn. by apply bool_decide_eq_true.
Qed.

Lemma b64_of_export_truthy (bs : bytes) : bs <> [] -> str_truthy (b64encode bs) = true.
Proof. destruct bs; [done|]. intros _. apply b64encode_truthy. Qed.

Lemma deserialize_serialized (cache segs : list clip) :
  (forall a, 0 < audio_len a -> export_mp3 a <> []) ->
  deserialize_segments (serialize_segments cache) = Ok segs ->
  Forall2 (fun c c' => c'.1 = c.1 /\ c'.2 = reloaded_audio c) cache segs.
Proof.
  intros Hexp. revert segs. induction cache as [|[lab a] cache IH]; intros segs.
  - cbn. intros [= <-]. constructor.
  - cbn [serialize_segments map deserialize_segments fst snd].
    fold (serialize_segments cache).
    destruct (deserialize_clip _) as [c'|] eqn:Hc; [|done]. cbn [mbind outcome_bind].
    destruct (deserialize_segments (serialize_segments cache)) as [rest|]; [|done].
    cbn [mbind outcome_bind]. intros [= <-]. constructor; [|by apply IH].
    unfold reloaded_audio. cbn [fst snd]. destruct a as [a|].
    + destruct (0 <? audio_len a) eqn:Hlen.
      * unfold deserialize_clip, stored_audio_bytes in Hc. cbn [fst snd] in Hc.
        rewrite b64_of_export_truthy in Hc by (apply Hexp; lia).
        rewrite b64decode_encode in Hc. cbn in Hc.
        destruct (from_mp3 (export_mp3 a)); [|done]. by injection Hc as <-.
      * cbn in Hc. by injection Hc as <-.
    + cbn in Hc. by injection Hc as <-.
Qed.

(** X15. "Save Progress" followed by "Load Selected Progress" on the saved
    row, from any session, for a session whose script and configuration hold
    text as [DialogueLine] and [Config] have it.  With a non-blank name, a
    progress table whose ids are within its counter and an encoder that gives
    a non-empty MP3 for audio of positive length: when the save succeeds, the
    load reads the row as a snapshot and installs the saved script and
    configuration, and when the load succeeds the cache has the saved labels
    in order, each clip being the MP3 export of the saved audio decoded
    again, or no audio where the saved entry had none or had audio of length
    zero. *)
Theorem save_click_then_load_click (progress_name : string) (fl : list bool) (now : string)
    (st st0 : SessionState) (db db' : Database) :
  Forall (fun r => prog_id r <= seq_progress db) (progress db) ->
  str_truthy (strip progress_name) = true ->
  (forall a, 0 < audio_len a -> export_mp3 a <> []) ->
  save_progress_click progress_name fl now (st, db) = ((st, db'), Ok ()) ->
  exists r,
    load_progress_click (seq_progress db + 1) (st0, db') = Some r /\
    script r.1.1 = script st /\
    config r.1.1 = config st /\
    r.1.2 = db' /\
    (r.2 = Ok () ->
     Forall2 (fun c c' => c'.1 = c.1 /\ c'.2 = reloaded_audio c)
             (audio_segments st) (audio_segments r.1.1)).
Proof.
  intros Hids Hname Hexp Hsave.
  unfold save_progress_click in Hsave. rewrite Hname in Hsave.
  destruct (save_progress _ _ _ _ _ _ _) as [db1 r1] eqn:E. injection Hsave as -> ->.
  apply save_progress_Ok in E as (sd & cd & ad & Hdocs & ->).
  unfold load_progress_click. rewrite load_after_insert by done.
  rewrite (saved_row_snapshot now (strip progress_name) (seq_progress db + 1) _ _ _ _ _ _
             Hdocs).
  cbn [mbind option_bind snap_script snap_config snap_audio].
  eexists. split; [reflexivity|].
  destruct (serialize_segments (audio_segments st)) as [|c cs] eqn:Hser.
  - cbn. split; [done|]. split; [done|]. split; [done|]. intros _.
    destruct (audio_segments st); [constructor|done].
  - destruct (deserialize_segments (c :: cs)) as [segs|e] eqn:Hd; cbn.
    + split; [done|]. split; [done|]. split; [done|]. intros _.
      rewrite <- Hser in Hd. by apply deserialize_serialized.
    + by repeat split.
Qed.

(** X16. A "Load Selected Progress" that raises is not all or nothing.  On
    a row that holds the snapshot of a session, as every row that the
    application wrote does, the read of the row succeeds, and when the
    handler raises, the store and the clip cache are as before, but the
    script and the configuration have already been replaced by those of the
    row: the session then pairs the loaded script with the clips of the
    previous one.  What raises is the base64 decoding or the MP3 decoding of
    a clip. *)
Theorem load_click_failure_is_partial (progress_id : Z) (st st' : SessionState)
    (db db' : Database) (e : exn) :
  load_progress_click progress_id (st, db) = Some ((st', db'), Raised e) ->
  db' = db /\
  audio_segments st' = audio_segments st /\
  exists loaded snap,
    load_progress_by_id db progress_id = Ok (Some loaded) /\
    snapshot_of loaded = Some snap /\
    script st' = snap_script snap /\
    config st' = snap_config snap /\
    (e = ValueError \/ e = CouldntDecodeError).
Proof.
  unfold load_progress_click.
  destruct (load_progress_by_id db progress_id) as [[loaded|]|e0] eqn:Hload; [|done|].
  2: { unfold load_progress_by_id in Hload. by destruct (find _ _). }
  destruct (snapshot_of loaded) as [snap|] eqn:Hsnap; [|done]. cbn [mbind option_bind].
  destruct (snap_audio snap) as [|c cs]; [done|].
  destruct (deserialize_segments (c :: cs)) as [segs|e1] eqn:Hd; [done|].
  intros [= <- <- <-]. split; [done|]. split; [done|]. exists loaded, snap.
  split; [done|]. split; [done|]. split; [done|]. split; [done|].
  clear Hload Hsnap. revert Hd. generalize (c :: cs). intros l.
  induction l as [|x l IH]; [done|].
  cbn [deserialize_segments]. destruct (deserialize_clip x) as [x'|ex] eqn:Hx.
  - cbn. destruct (deserialize_segments l); [done|]. cbn. intros [= ->]. by apply IH.
  - cbn. intros [= ->]. unfold deserialize_clip, stored_audio_bytes in Hx.
    destruct x.2 as [b64|]; [|done]. destruct (str_truthy b64); [|done].
    unfold b64decode in Hx. destruct (forallb _ (chars b64)).
    + destruct (a2b_base64 (chars b64) 0 (sextet_of_nat 0) 0 []) as [bs|]; cbn in Hx.
      * destruct (from_mp3 _); [done|]. cbn in Hx. injection Hx as <-. by right.
      * injection Hx as <-. by left.
    + cbn in Hx. injection Hx as <-. by left.
Qed.

(** ** Step 4: the configuration of one podcaster and of all of them *)

Lemma list_index_None (l : list string) (x : string) :
  list_index l x = None -> ~ In x l.
Proof.
  induction l as [|y l IH]; cbn; [by intros _ []|].
  destruct (String.eqb_spec y x) as [->|Hne]; [done|].
  destruct (list_index l x); [done|]. intros _ [?|?]; [done|]. by apply IH.
Qed.


Lemma initial_voice_nonempty (v0 : string) (info0 : Voice) (rest : list (string * Voice))
    (p : string) :
  exists v, initial_voice ((v0, info0) :: rest) p = Ok v.
Proof.
  unfold initial_voice. destruct (dict_get default_voices p) as [[vid name]|].
  - rewrite first_voice_cons. cbn [mbind outcome_bind]. by eexists.
  - by eexists.
Qed.

(** The configuration of one podcaster in closed form, the voice directory
    being non-empty. *)
Lemma configure_podcaster_nonempty (chosen : string -> option string)
    (slid : string -> option VoiceSettings) (p : string) (st : SessionState)
    (v0 : string) (info0 : Voice) (rest : list (string * Voice)) :
  available_voices st = (v0, info0) :: rest ->
  let per0 := default ∅ (voice_settings_per_speaker (config st)) in
  exists current selected,
    match podcasters (config st) !! p with
    | Some v => current = v
    | None => initial_voice (available_voices st) p = Ok current
    end /\
    selected =
      default (match list_index (dict_keys (available_voices st)) current with
               | Some _ => current
               | None => v0
               end) (chosen p) /\
    configure_podcaster chosen slid p st =
      (set_config st
         (set_voice_settings_per_speaker
            (set_podcasters (config st) (<[p := selected]> (podcasters (config st))))
            (Some (<[p := default (default default_settings (per0 !! p)) (slid p)]> per0))),
       Ok ()).
Proof.
  intros Hav per0. unfold configure_podcaster.
  cbn [config set_config set_voice_settings_per_speaker podcasters available_voices
       set_podcasters voice_settings_per_speaker]. fold per0.
  assert (Hcur : exists current,
            match podcasters (config st) !! p with
            | Some v => Ok v
            | None => initial_voice (available_voices st) p
            end = Ok current).
  { destruct (podcasters (config st) !! p); [by eexists|].
    rewrite Hav. apply initial_voice_nonempty. }
  destruct Hcur as [current Hcur]. rewrite Hcur.
  exists current. eexists. split; [|split; [reflexivity|]].
  { destruct (podcasters (config st) !! p); [by injection Hcur|done]. }
  assert (Hshown : match list_index (dict_keys (available_voices st)) current with
                   | Some _ => Ok current
                   | None => first_voice (available_voices st)
                   end =
                   Ok match list_index (dict_keys (available_voices st)) current with
                      | Some _ => current
                      | None => v0
                      end).
  { destruct (list_index _ current); [done|]. by rewrite Hav. }
  rewrite Hshown. unfold set_config, set_voice_settings_per_speaker, set_podcasters.
  cbn. f_equal. f_equal. f_equal.
  - by rewrite insert_insert_eq.
  - f_equal. clearbody per0. destruct (per0 !! p) as [x|] eqn:Hp.
    + rewrite Hp. destruct (slid p); cbn; [done|]. by rewrite insert_id.
    + rewrite lookup_insert_eq. destruct (slid p); cbn; [|done]. by rewrite insert_insert_eq.
Qed.

(** X17. A voice that is no longer available is replaced without notice.
    For a speaker whose configured voice is not among the available voices,
    drawing the configuration page without touching the selectbox stores the
    first available voice; a configured voice that is still available is
    kept. *)
Theorem configure_replaces_stale_voice (slid : string -> option VoiceSettings)
    (p v : string) (st : SessionState) (v0 : string) (info0 : Voice)
    (rest : list (string * Voice)) :
  available_voices st = (v0, info0) :: rest ->
  podcasters (config st) !! p = Some v ->
  let st' := (configure_podcaster (fun _ => None) slid p st).1 in
  (configure_podcaster (fun _ => None) slid p st).2 = Ok () /\
  (In v (dict_keys (available_voices st)) -> podcasters (config st') !! p = Some v) /\
  (~ In v (dict_keys (available_voices st)) -> podcasters (config st') !! p = Some v0).
Proof.
  intros Hav Hp st'. subst st'.
  destruct (configure_podcaster_nonempty (fun _ => None) slid p st v0 info0 rest Hav)
    as (current & selected & Hcur & Hsel & ->).
  rewrite Hp in Hcur. subst current. cbn [fst snd config set_config podcasters
    set_voice_settings_per_speaker set_podcasters].
  rewrite lookup_insert_eq. cbn [default] in Hsel.
  split; [done|]. split.
  - intros Hin. destruct (list_index_In _ _ Hin) as [k Hk]. rewrite Hk in Hsel. by subst.
  - intros Hnin. destruct (list_index _ v) eqn:Hk; [|by subst].
    exfalso. apply Hnin. clear -Hk. revert n Hk.
    induction (dict_keys (available_voices st)) as [|y l IH]; [done|]. cbn. intros n.
    destruct (String.eqb_spec y v) as [->|Hne]; [by left|].
    destruct (list_index l v) eqn:E; [|done]. intros _. right. by eapply IH.
Qed.

(** X18. Configuring one podcaster touches that podcaster only.  With a
    non-empty voice directory, the voice and the settings of every other
    speaker, the script, the clip cache, the voice directory and the rest of
    the session are as before; the podcaster's own settings are kept unless
    a slider was moved, and are the defaults if there were none. *)
Theorem configure_podcaster_frame (chosen : string -> option string)
    (slid : string -> option VoiceSettings) (p : string) (st : SessionState)
    (v0 : string) (info0 : Voice) (rest : list (string * Voice)) :
  available_voices st = (v0, info0) :: rest ->
  let st' := (configure_podcaster chosen slid p st).1 in
  let settings_of st q := default ∅ (voice_settings_per_speaker (config st)) !! q in
  (forall q, q <> p ->
     podcasters (config st') !! q = podcasters (config st) !! q /\
     settings_of st' q = settings_of st q) /\
  settings_of st' p =
    Some (default (default default_settings (settings_of st p)) (slid p)) /\
  script st' = script st /\
  audio_segments st' = audio_segments st /\
  available_voices st' = available_voices st /\
  current_step st' = current_step st /\
  podcast_finalized st' = podcast_finalized st.
Proof.
  intros Hav st' settings_of. subst st' settings_of.
  destruct (configure_podcaster_nonempty chosen slid p st v0 info0 rest Hav)
    as (current & selected & _ & _ & ->).
  cbn [fst config set_config podcasters voice_settings_per_speaker
       set_voice_settings_per_speaker set_podcasters default
       script audio_segments available_voices current_step podcast_finalized].
  unfold id. split; [|split; [by rewrite lookup_insert_eq|done]].
  intros q Hq. by rewrite !lookup_insert_ne.
Qed.






(** ** The voice directory *)

Lemma dict_set_nonempty {V} (d : list (string * V)) (k : string) (v : V) :
  dict_set d k v <> [].
Proof. destruct d as [|[k' v'] d]; cbn; [done|]. by destruct (String.eqb k' k). Qed.

Lemma dict_keys_set {V} (d : list (string * V)) (k : string) (v : V) :
  dict_keys (dict_set d k v) =
  if bool_decide (k ∈ dict_keys d) then dict_keys d else dict_keys d ++ [k].
Proof.
  induction d as [|[k' v'] d IH]; cbn.
  - rewrite bool_decide_eq_false_2; [done|]. apply not_elem_of_nil.
  - destruct (String.eqb k' k) eqn:E.
    + apply String.eqb_eq in E. subst k'. cbn.
      rewrite bool_decide_eq_true_2; [done|]. left.
    + apply String.eqb_neq in E. cbn. unfold dict_keys in IH. rewrite IH.
      destruct (bool_decide (k ∈ map fst d)) eqn:Ed.
      * apply bool_decide_eq_true in Ed.
        rewrite bool_decide_eq_true_2; [done|]. by right.
      * apply bool_decide_eq_false in Ed.
        rewrite bool_decide_eq_false_2; [done|].
        intros Hin. apply elem_of_cons in Hin as [->|Hin]; [done|]. by apply Ed.
Qed.

Lemma dict_set_keys_NoDup {V} (d : list (string * V)) (k : string) (v : V) :
  NoDup (dict_keys d) -> NoDup (dict_keys (dict_set d k v)).
Proof.
  intros Hd. rewrite dict_keys_set.
  destruct (bool_decide (k ∈ dict_keys d)) eqn:E; [done|].
  apply bool_decide_eq_false in E.
  apply NoDup_app. split; [done|]. split.
  - intros x Hx Hin. apply list_elem_of_singleton in Hin. by subst x.
  - apply NoDup_singleton.
Qed.

Lemma dict_fold_keys_NoDup {V} (rows d : list (string * V)) :
  NoDup (dict_keys d) ->
  NoDup (dict_keys (foldl (fun d row => dict_set d row.1 row.2) d rows)).
Proof.
  revert d. induction rows as [|r rows IH]; intros d Hd; cbn; [done|].
  apply IH. by apply dict_set_keys_NoDup.
Qed.

Lemma dict_fold_nonempty {V} (rows d : list (string * V)) :
  d <> [] -> foldl (fun d row => dict_set d row.1 row.2) d rows <> [].
Proof.
  revert d. induction rows as [|r rows IH]; intros d Hd; cbn; [done|].
  apply IH. apply dict_set_nonempty.
Qed.

Lemma dict_fold_get {V} (rows d : list (string * V)) (k : string) :
  dict_get (foldl (fun d row => dict_set d row.1 row.2) d rows) k =
  match dict_get (rev rows) k with
  | Some v => Some v
  | None => dict_get d k
  end.
Proof.
  revert d. induction rows as [|[k' v'] rows IH]; intros d; cbn [foldl rev].
  - done.
  - rewrite IH. clear IH. cbn [fst snd].
    assert (Hrev : dict_get (rev rows ++ [(k', v')]) k =
                   match dict_get (rev rows) k with
                   | Some v => Some v
                   | None => if String.eqb k' k then Some v' else None
                   end).
    { generalize (rev rows). intros l. induction l as [|[a b] l IHl]; cbn; [done|].
      destruct (String.eqb a k); [done|]. exact IHl. }
    rewrite Hrev. destruct (dict_get (rev rows) k); [done|].
    destruct (String.eqb k' k) eqn:E.
    + apply String.eqb_eq in E. subst k'. apply dict_get_set_eq.
    + apply String.eqb_neq in E. by apply dict_get_set_ne.
Qed.

(** X20 ([get_available_voices], app.py 23-46): whatever the voice service
    answers, the directory returned is not empty and lists no name twice;
    and when the service answers 200 with at least one voice, looking a name
    up gives the voice listed last under that name. *)
Theorem get_available_voices_directory (r : voices_reply) :
  get_available_voices r <> [] /\
  NoDup (dict_keys (get_available_voices r)) /\
  forall listed name,
    r = Reply 200 (Some listed) -> listed <> [] ->
    dict_get (get_available_voices r) name = dict_get (rev listed) name.
Proof.
  assert (Hdef : NoDup (dict_keys default_voice_directory)).
  { cbn. apply NoDup_singleton. }
  split; [|split].
  - destruct r as [|code [listed|]]; cbn; try done.
    destruct (code =? 200); [|done].
    destruct (dict_from listed) eqn:E; done.
  - destruct r as [|code [listed|]]; cbn -[default_voice_directory]; try done.
    destruct (code =? 200); [|done].
    destruct (dict_from listed) eqn:E; [done|]. rewrite <- E.
    apply dict_fold_keys_NoDup. constructor.
  - intros listed name -> Hne. cbn -[default_voice_directory].
    destruct (dict_from listed) eqn:E.
    + exfalso. destruct listed as [|row listed]; [done|].
      unfold dict_from in E. cbn [foldl] in E.
      revert E. apply dict_fold_nonempty. apply dict_set_nonempty.
    + rewrite <- E. unfold dict_from. rewrite dict_fold_get.
      by destruct (dict_get (rev listed) name).
Qed.

(** ** The masked API key *)

(** X21 ([display_masked_api_key], app.py 104-107): for a key of at least
    eight characters the masked text has the length of the key, shows its
    first four and last four characters, and has an asterisk everywhere
    between. *)
Theorem masked_key_hides_the_middle (key : list ascii) :
  (8 <= length key)%nat ->
  length (masked_chars key) = length key /\
  take 4 (masked_chars key) = take 4 key /\
  drop (length key - 4) (masked_chars key) = drop (length key - 4) key /\
  forall i, (4 <= i < length key - 4)%nat -> masked_chars key !! i = Some "*"%char.
Proof.
  intros Hlen. unfold masked_chars.
  replace (Z.to_nat (Z.of_nat (length key) - 8)) with (length key - 8)%nat by lia.
  assert (Ht : length (take 4 key) = 4%nat) by (rewrite length_take; lia).
  split; [|split; [|split]].
  - rewrite !length_app, Ht, length_replicate, length_drop. lia.
  - rewrite take_app_le by lia. rewrite take_ge by lia. done.
  - rewrite drop_app_ge by lia. rewrite Ht.
    rewrite drop_app_ge by (rewrite length_replicate; lia).
    rewrite length_replicate.
    replace (length key - 4 - 4 - (length key - 8))%nat with 0%nat by lia. done.
  - intros i Hi. rewrite lookup_app_r by lia. rewrite Ht.
    rewrite lookup_app_l by (rewrite length_replicate; lia).
    apply lookup_replicate_2. lia.
Qed.

(** X22 ([display_masked_api_key], app.py 104-107): a key of at most eight
    characters is not masked at all. With four to eight characters the
    masked text is the first four followed by the last four, without any
    asterisk added, so the whole key can be read from it; with fewer than
    four it is the key written twice. *)
Theorem masked_key_short_key_exposed (key : list ascii) :
  (length key <= 8)%nat ->
  masked_chars key = take 4 key ++ drop (length key - 4) key /\
  ((4 <= length key)%nat ->
     key = take 4 (masked_chars key) ++ drop (12 - length key) (masked_chars key)) /\
  ((length key <= 4)%nat -> masked_chars key = key ++ key).
Proof.
  intros Hlen. unfold masked_chars.
  replace (Z.to_nat (Z.of_nat (length key) - 8)) with 0%nat by lia. cbn [replicate app].
  split; [done|]. split.
  - intros H4.
    assert (Ht : length (take 4 key) = 4%nat) by (rewrite length_take; lia).
    rewrite take_app_le by lia. rewrite take_ge by lia.
    rewrite drop_app_ge by lia. rewrite Ht, drop_drop.
    replace (length key - 4 + (12 - length key - 4))%nat with 4%nat by lia.
    symmetry. apply take_drop.
  - intros H4. rewrite take_ge by lia.
    replace (length key - 4)%nat with 0%nat by lia. done.
Qed.

(** ** The text format of a script *)

Lemma chars_str_of (cs : list ascii) : chars (str_of cs) = cs.
Proof. apply list_ascii_of_string_of_list_ascii. Qed.

Lemma space_width_le (cs : list ascii) : (space_width cs <= length cs)%nat.
Proof.
  destruct cs as [|a [|b [|c cs]]]; cbn; [lia|..].
  - destruct (is_space a); lia.
  - destruct (is_space a); [lia|]. destruct (is_space2 a b); lia.
  - destruct (is_space a); [lia|]. destruct (is_space2 a b); [lia|].
    destruct (is_space3 a b c); lia.
Qed.

Lemma space_width_end_le (cs : list ascii) : (space_width_end cs <= length cs)%nat.
Proof.
  destruct cs as [|a [|b [|c cs]]]; cbn; [lia|..].
  - destruct (is_space a); lia.
  - destruct (is_space a); [lia|]. destruct (is_space2 b a); lia.
  - destruct (is_space a); [lia|]. destruct (is_space2 b a); [lia|].
    destruct (is_space3 c b a); lia.
Qed.

(** What is left by [strip_front] starts with no character that [width]
    counts. *)
Lemma strip_front_width (width : list ascii -> nat) (cs : list ascii) :
  (forall l, (width l <= length l)%nat) ->
  width (strip_front width cs) = 0%nat.
Proof.
  intros Hle. remember (length cs) as n eqn:Hn.
  revert cs Hn. induction n as [n IH] using lt_wf_ind. intros cs Hn.
  destruct cs as [|c r1].
  - cbn. pose proof (Hle []) as H0. cbn in H0. lia.
  - cbn [strip_front]. destruct (width (c :: r1)) as [|[|[|k]]] eqn:Ew.
    + exact Ew.
    + apply (IH (length r1)); [cbn in Hn; lia|done].
    + destruct r1 as [|b r2].
      * pose proof (Hle [c]) as H1. cbn in H1. lia.
      * apply (IH (length r2)); [cbn in Hn; lia|done].
    + destruct r1 as [|b [|d r3]].
      * pose proof (Hle [c]) as H1. cbn in H1. lia.
      * pose proof (Hle [c; b]) as H1. cbn in H1. lia.
      * apply (IH (length r3)); [cbn in Hn; lia|done].
Qed.

(** It is the text without some of its front. *)
Lemma strip_front_suffix (width : list ascii -> nat) (cs : list ascii) :
  exists p, cs = p ++ strip_front width cs.
Proof.
  remember (length cs) as n eqn:Hn.
  revert cs Hn. induction n as [n IH] using lt_wf_ind. intros cs Hn.
  destruct cs as [|c r1]; [by exists []|].
  cbn [strip_front]. destruct (width (c :: r1)) as [|[|[|k]]].
  - by exists [].
  - destruct (IH (length r1) ltac:(cbn in Hn; lia) r1 eq_refl) as [p Hp].
    exists (c :: p). cbn. by rewrite <- Hp.
  - destruct r1 as [|b r2]; [by exists []|].
    destruct (IH (length r2) ltac:(cbn in Hn; lia) r2 eq_refl) as [p Hp].
    exists (c :: b :: p). cbn. by rewrite <- Hp.
  - destruct r1 as [|b [|d r3]]; [by exists []|by exists []|].
    destruct (IH (length r3) ltac:(cbn in Hn; lia) r3 eq_refl) as [p Hp].
    exists (c :: b :: d :: p). cbn. by rewrite <- Hp.
Qed.

Lemma strip_front_idem (width : list ascii -> nat) (cs : list ascii) :
  (forall l, (width l <= length l)%nat) ->
  strip_front width (strip_front width cs) = strip_front width cs.
Proof. intros Hle. by apply strip_front_fixed, strip_front_width. Qed.

Lemma rstrip_chars_idem (cs : list ascii) : rstrip_chars (rstrip_chars cs) = rstrip_chars cs.
Proof.
  unfold rstrip_chars. rewrite rev_involutive, strip_front_idem; [done|].
  apply space_width_end_le.
Qed.

(** A white space character at the front of a text is at the front of every
    text that extends it. *)
Lemma space_width_app (p q : list ascii) :
  space_width p <> 0%nat -> space_width (p ++ q) = space_width p.
Proof.
  destruct p as [|a [|b [|c p]]]; cbn; [done|..].
  - destruct (is_space a); done.
  - destruct (is_space a); [done|]. destruct (is_space2 a b); done.
  - destruct (is_space a); [done|]. destruct (is_space2 a b); done.
Qed.

Lemma rstrip_chars_width (cs : list ascii) :
  space_width cs = 0%nat -> space_width (rstrip_chars cs) = 0%nat.
Proof.
  intros Hcs. unfold rstrip_chars.
  destruct (strip_front_suffix space_width_end (rev cs)) as [p Hp].
  destruct (space_width (rev (strip_front space_width_end (rev cs)))) as [|k] eqn:E; [done|].
  exfalso. apply (f_equal (@rev _)) in Hp. rewrite rev_involutive, rev_app_distr in Hp.
  rewrite Hp, space_width_app, E in Hcs; [done|]. by rewrite E.
Qed.

(** A stripped text neither starts nor ends with white space. *)
Lemma strip_chars_width (cs : list ascii) : space_width (strip_chars cs) = 0%nat.
Proof.
  unfold strip_chars. apply rstrip_chars_width.
  apply strip_front_width, space_width_le.
Qed.

Lemma strip_chars_idem (cs : list ascii) : strip_chars (strip_chars cs) = strip_chars cs.
Proof.
  unfold strip_chars at 1. unfold lstrip_chars at 1.
  rewrite strip_front_fixed by apply strip_chars_width.
  unfold strip_chars. apply rstrip_chars_idem.
Qed.

Lemma strip_str_of_strip (cs : list ascii) : strip (str_of (strip_chars cs)) = str_of (strip_chars cs).
Proof. unfold strip. by rewrite chars_str_of, strip_chars_idem. Qed.

Lemma parse_speaker_line_fields (line : list ascii) :
  Forall (fun l => speaker l <> "Intro" /\ speaker l <> "Outro" /\
                   strip (speaker l) = speaker l /\ strip (text l) = text l /\
                   uid l = None)
         (parse_speaker_line line).
Proof.
  unfold parse_speaker_line. destruct (strip_chars line) as [|c cs]; [constructor|].
  destruct (has_colon (c :: cs)); [|constructor].
  destruct (split_colon (c :: cs)) as [sp tx].
  constructor; [|constructor]. cbn [speaker text uid].
  destruct (String.eqb (str_of (strip_chars sp)) "Intro") eqn:E1; cbn [orb].
  { repeat split; try done; apply strip_str_of_strip. }
  destruct (String.eqb (str_of (strip_chars sp)) "Outro") eqn:E2.
  { repeat split; try done; apply strip_str_of_strip. }
  apply String.eqb_neq in E1, E2.
  repeat split; try done; apply strip_str_of_strip.
Qed.

Lemma convert_script_fields (text_input : string) :
  Forall (fun l => speaker l <> "Intro" /\ speaker l <> "Outro" /\
                   strip (speaker l) = speaker l /\ strip (text l) = text l /\
                   uid l = None)
         (convert_script text_input).
Proof.
  unfold convert_script. apply Forall_flat_map, Forall_forall. intros section _.
  unfold parse_section. destruct (strip_chars section) as [|c cs]; [constructor|].
  destruct (is_prefix (chars "Intro:") (c :: cs)).
  { constructor; [|constructor]. cbn [speaker text uid].
    repeat split; try done. apply strip_str_of_strip. }
  destruct (is_prefix (chars "Outro:") (c :: cs)).
  { constructor; [|constructor]. cbn [speaker text uid].
    repeat split; try done. apply strip_str_of_strip. }
  apply Forall_flat_map, Forall_forall. intros line _.
  apply parse_speaker_line_fields.
Qed.

(** X23 ([step_2], text format, app.py 146-190): "Convert and Load Script"
    either leaves the session as it was, or loads a script that is not
    empty and marks it loaded; in that script no line is spoken by "Intro"
    or "Outro", every speaker and every text is free of surrounding white
    space, and no line carries an id yet; configuration, audio cache and
    current step are untouched. *)
Theorem convert_and_load_script (text_input : string) (st : SessionState) :
  let st' := convert_and_load text_input st in
  st' = st \/
  (script st' <> [] /\ script_loaded st' = true /\
   config st' = config st /\ audio_segments st' = audio_segments st /\
   current_step st' = current_step st /\
   Forall (fun l => speaker l <> "Intro" /\ speaker l <> "Outro" /\
                    strip (speaker l) = speaker l /\ strip (text l) = text l /\
                    uid l = None)
          (script st')).
Proof.
  cbn zeta. unfold convert_and_load.
  pose proof (convert_script_fields text_input) as Hf.
  destruct (convert_script text_input) as [|l ls]; [by left|]. right.
  destruct st. cbn. repeat split; try done.
Qed.

(** ** Labels of the cache in reachable worlds *)

(** X24 ([step_5], app.py 403-429): in every world the application can
    reach, the clip at position [j] of the cache is labelled "Line j+1", and
    the index the display loop reads back from that label is [j]. *)
Theorem reachable_cache_labels (w : world) (j : nat) (c : clip) :
  reachable w ->
  audio_segments w.1 !! j = Some c ->
  c.1 = line_label j /\ line_index c.1 = Ok (Z.of_nat j).
Proof.
  intros Hw Hj. destruct (reachable_ok w Hw) as [Hl _].
  assert (Hc : c.1 = line_label j) by exact (Hl j c Hj).
  split; [exact Hc|]. rewrite Hc. apply line_index_line_label.
Qed.

(** ** Step 7 *)

Lemma split_ws_aux_cur (cs cur : list ascii) : cur <> [] -> split_ws_aux cs cur <> [].
Proof.
  assert (Hw : forall (cur : list ascii) words, cur <> [] -> word_before cur words <> []).
  { intros [|x l] words Hl; [done|]. unfold word_before. done. }
  revert cur. induction cs as [|c cs IH]; intros cur Hcur; cbn [split_ws_aux].
  - by apply Hw.
  - destruct (space_width (c :: cs)) as [|[|[|k]]].
    + by apply IH.
    + by apply Hw.
    + destruct cs as [|b r2]; [by apply IH|by apply Hw].
    + destruct cs as [|b [|d r3]]; [by apply IH|by apply IH|by apply Hw].
Qed.

Lemma is_space2_blank (a : ascii) : is_space2 a " " = false.
Proof. unfold is_space2. by destruct (Ascii.eqb a "194"). Qed.

Lemma is_space3_blank_mid (a c : ascii) : is_space3 a " " c = false.
Proof.
  unfold is_space3.
  by destruct (Ascii.eqb a "225"), (Ascii.eqb a "226"), (Ascii.eqb a "227").
Qed.

Lemma is_space3_blank_last (a b : ascii) : is_space3 a b " " = false.
Proof.
  unfold is_space3.
  by destruct (Ascii.eqb a "225"), (Ascii.eqb a "226"), (Ascii.eqb a "227"),
              (Ascii.eqb b "154"), (Ascii.eqb b "128"), (Ascii.eqb b "129").
Qed.

(** A text that starts with no white space still does so when a blank and
    more text follow it. *)
Lemma space_width_then_blank (s t : list ascii) :
  s <> [] -> space_width s = 0%nat -> space_width (s ++ " "%char :: t) = 0%nat.
Proof.
  intros Hs. destruct s as [|a [|b [|c s]]]; [done|..]; cbn.
  - destruct (is_space a); [done|]. intros _. rewrite is_space2_blank.
    destruct t as [|d t]; [done|]. by rewrite is_space3_blank_mid.
  - destruct (is_space a); [done|]. destruct (is_space2 a b); [done|]. intros _.
    by rewrite is_space3_blank_last.
  - done.
Qed.

Lemma split_ws_title (company podcast_title : string) :
  str_truthy (strip company) = true ->
  split_ws (strip company +:+ " " +:+ strip podcast_title) <> [].
Proof.
  intros Hc. unfold split_ws. rewrite chars_app. unfold strip in *.
  pose proof (strip_chars_width (chars company)) as Hw.
  rewrite chars_str_of.
  destruct (strip_chars (chars company)) as [|c cs] eqn:E; [done|].
  change (chars (" " +:+ str_of (strip_chars (chars podcast_title))))
    with (" "%char :: chars (str_of (strip_chars (chars podcast_title)))).
  pose proof (space_width_then_blank (c :: cs)
                (chars (str_of (strip_chars (chars podcast_title)))) ltac:(done) Hw) as H0.
  cbn [app] in *. cbn [split_ws_aux]. rewrite H0.
  intros Hnil. apply map_eq_nil in Hnil. revert Hnil. by apply split_ws_aux_cur.
Qed.

Lemma db_effect_titles_ok (db db' : Database) : titles_ok db -> db_effect db db' -> titles_ok db'.
Proof.
  unfold titles_ok. intros Hp [|now name sd cd ad|id|now company ptitle a b c Hc _|id].
  - done.
  - done.
  - done.
  - destruct (saved_podcast_tables now (strip company +:+ " " +:+ strip ptitle) a b c db)
      as (H1 & _). rewrite H1. apply Forall_app. split; [done|].
    constructor; [|constructor]. cbn. by apply split_ws_title.
  - cbn. by apply Forall_filter_keep.
Qed.

Lemma reachable_titles_ok (w : world) : reachable w -> titles_ok w.2.
Proof.
  induction 1 as [voices|e w _ IH|voices w _ IH].
  - constructor.
  - eapply db_effect_titles_ok; [exact IH|]. apply handle_db_effect.
  - exact IH.
Qed.

Lemma title_first_words_ok (ps : list PodcastRow) :
  Forall (fun r => split_ws (pod_title r) <> []) ps ->
  exists ws, title_first_words ps = Ok ws.
Proof.
  induction 1 as [|p ps Hp _ [ws IH]]; [by exists []|].
  cbn [title_first_words]. rewrite IH.
  destruct (split_ws (pod_title p)) as [|w0 rest]; [done|].
  by exists (w0 :: ws).
Qed.

Lemma list_index_spec (l : list string) (x : string) (k : nat) :
  list_index l x = Some k ->
  l !! k = Some x /\ forall j y, (j < k)%nat -> l !! j = Some y -> y <> x.
Proof.
  revert k. induction l as [|y l IH]; intros k; [done|]. cbn [list_index].
  destruct (String.eqb_spec y x) as [->|Hne].
  - intros [= <-]. split; [done|]. intros j z Hj. lia.
  - destruct (list_index l x) as [k'|] eqn:E; [|done]. cbn. intros [= <-].
    destruct (IH k' eq_refl) as [Hk Hfirst]. split; [exact Hk|].
    intros [|j] z Hj; cbn.
    + by intros [= <-].
    + apply Hfirst. lia.
Qed.

Lemma list_index_elem (l : list string) (x : string) :
  x ∈ l -> exists k, list_index l x = Some k.
Proof.
  intros Hx. destruct (list_index l x) as [k|] eqn:E; [by exists k|].
  exfalso. apply (list_index_None l x E). by apply list_elem_of_In.
Qed.

(** X25 ([step_7], app.py 517-531): whenever the page shows a podcast, it is
    the one standing, in the unfiltered list, at the position that the first
    option with the selected label has among the filtered podcasts.  So if
    the company filter keeps every podcast, the podcast shown is the first
    one with the selected label. *)
Theorem step_7_shows_by_position (podcasts : list PodcastRow)
    (selected_company selected_option : string) (p : PodcastRow) :
  step_7 podcasts selected_company selected_option = Ok (Shown p) ->
  exists k q,
    filtered_podcasts podcasts selected_company !! k = Some q /\
    podcast_label q = selected_option /\
    (forall j q', (j < k)%nat ->
       filtered_podcasts podcasts selected_company !! j = Some q' ->
       podcast_label q' <> selected_option) /\
    podcasts !! k = Some p /\
    (filtered_podcasts podcasts selected_company = podcasts -> p = q).
Proof.
  unfold step_7. destruct podcasts as [|p0 ps] eqn:Eps; [done|]. rewrite <- Eps.
  destruct (title_first_words podcasts) as [ws|]; [|done]. cbn [mbind outcome_bind].
  destruct (str_truthy selected_option); [|done]. cbn [negb].
  destruct (list_index _ selected_option) as [k|] eqn:Ek; [|done].
  cbn [of_option mbind outcome_bind].
  unfold py_index. destruct (Z.leb_spec 0 (Z.of_nat k)); [|lia]. rewrite Nat2Z.id.
  destruct (podcasts !! k) as [p'|] eqn:Ep; [|done]. cbn. intros [= ->].
  destruct (list_index_spec _ _ _ Ek) as [Hk Hfirst].
  rewrite list_lookup_fmap in Hk.
  destruct (filtered_podcasts podcasts selected_company !! k) as [q|] eqn:Eq; [|done].
  cbn in Hk. injection Hk as Hq.
  exists k, q. split; [done|]. split; [done|]. split; [|split; [done|]].
  - intros j q' Hj Hq'. apply (Hfirst j (podcast_label q') Hj).
    by rewrite list_lookup_fmap, Hq'.
  - intros Hall. rewrite Hall in Eq. congruence.
Qed.

(** X26 ([step_6], [step_7], app.py 466-487, 517-531): on the podcasts of
    any world the application can reach, in whatever order they are
    returned, the head of the play page does not raise: every stored title
    has a first word, and an option offered by the select box is found and
    leads to a podcast of the list. *)
Theorem step_7_no_exception (w : world) (podcasts_returned : list PodcastRow)
    (selected_company selected_option : string) :
  reachable w ->
  podcasts_returned ≡ₚ podcasts w.2 ->
  selected_option ∈
    "" :: map podcast_label (filtered_podcasts podcasts_returned selected_company) ->
  exists page, step_7 podcasts_returned selected_company selected_option = Ok page.
Proof.
  intros Hw Hperm Hopt. unfold step_7.
  destruct podcasts_returned as [|p0 ps] eqn:Eps; [by eexists|]. rewrite <- Eps in *.
  assert (Ht : Forall (fun r => split_ws (pod_title r) <> []) podcasts_returned).
  { rewrite Hperm. apply (reachable_titles_ok w Hw). }
  destruct (title_first_words_ok _ Ht) as [ws ->]. cbn [mbind outcome_bind].
  destruct (str_truthy selected_option) eqn:Es; [|by eexists]. cbn [negb].
  apply elem_of_cons in Hopt as [->|Hopt]; [done|].
  destruct (list_index_elem _ _ Hopt) as [k Ek]. rewrite Ek.
  cbn [of_option mbind outcome_bind].
  destruct (list_index_spec _ _ _ Ek) as [Hk _].
  apply lookup_lt_Some in Hk. rewrite length_map in Hk.
  assert (Hle : (length (filtered_podcasts podcasts_returned selected_company)
                 <= length podcasts_returned)%nat) by apply length_filter.
  unfold py_index. destruct (Z.leb_spec 0 (Z.of_nat k)); [|lia]. rewrite Nat2Z.id.
  destruct (lookup_lt_is_Some_2 podcasts_returned k) as [p Hp]; [lia|].
  rewrite Hp. by eexists.
Qed.

End App.

(** ** The handlers run on the concrete session *)

(** C1, counterexample.  A two-line script is loaded, configured and
    generated; the operator then empties the second line on the edit page
    and presses "Generate All Audio" again.  The second line cannot be
    synthesised, and after the failed call the cache holds one clip where it
    held two: it is not the cache from before the call. *)
Lemma generate_all_failure_changes_cache :
  let w := run demo_repr demo_convert demo_from_mp3 demo_export
             [ LoadScript [Line "Presenter" "Welcome" None; Line "Host 1" "Hello" None] false;
               Navigate 2 str_nat [];
               Navigate 3 str_nat [];
               GenerateAll;
               Navigate 1 str_nat [];
               EditScript str_nat (fun _ => None)
                 (fun key => if String.eqb key "1" then Some "" else None) NoClick;
               Navigate 3 str_nat [] ]
             (init_session_state demo_voices, empty_db) in
  exists st',
    generate_all demo_convert demo_from_mp3 w.1 = (st', Raised SynthesisError) /\
    length (audio_segments w.1) = 2%nat /\
    length (audio_segments st') = 1%nat /\
    audio_segments st' <> audio_segments w.1.
Proof.
  intros w. eexists. split; [vm_compute; reflexivity|].
  split; [vm_compute; reflexivity|]. split; [vm_compute; reflexivity|].
  intros E. apply (f_equal (@length _)) in E. vm_compute in E. discriminate.
Qed.

Lemma generate_all_failure_witness :
  generate_all demo_convert demo_from_mp3 demo_state =
    ((generate_all demo_convert demo_from_mp3 demo_state).1, Raised SynthesisError) /\
  exists (k : nat) (line : DialogueLine),
    script demo_state !! k = Some line /\
    generate_line demo_convert demo_from_mp3 demo_state k line = Raised SynthesisError /\
    length (audio_segments (generate_all demo_convert demo_from_mp3 demo_state).1) = k.
Proof.
  assert (H : generate_all demo_convert demo_from_mp3 demo_state =
              ((generate_all demo_convert demo_from_mp3 demo_state).1, Raised SynthesisError))
    by (vm_compute; reflexivity).
  split; [exact H|].
  destruct (generate_all_failure_keeps_prefix demo_convert demo_from_mp3 _ _ _ H)
    as (_ & k & line & Hline & Hfail & Hlen & _).
  exists k, line. by repeat split.
Defined.

(** The session of [demo_unedited_state] is reached from a fresh one: the
    script is loaded from JSON, then the operator uses the sidebar to open
    the configuration page and the generation page, never the edit page. *)
Lemma demo_unedited_state_reached :
  run demo_repr demo_convert demo_from_mp3 demo_export
    [ LoadScript [Line "Bob" "Intro: hi" None] false;
      Navigate 2 (fun _ => "uid") [];
      Navigate 3 (fun _ => "uid") [] ]
    (init_session_state demo_voices, empty_db) = (demo_unedited_state, empty_db).
Proof. vm_compute. reflexivity. Qed.



(** Two dialogs of an imported script share the uid "u": the page raises at
    the second, after rendering the first, and the marked third line is not
    reached and keeps its speaker. *)
Example edit_step_duplicate_uid :
  let st := set_script demo_unedited_state
              [Line "A" "x" (Some "u"); Line "B" "y" (Some "u"); Line "Bob" "Intro: hi" None] in
  let r := step_3 (fun i => "uid" +:+ str_nat i) (fun _ => None) (fun _ => None) NoClick st in
  r.2.2 = Raised DuplicateWidgetID /\
  r.2.1 = ["A"] /\
  script r.1 !! 2%nat = Some (Line "Bob" "Intro: hi" (Some "uid2")).
Proof. vm_compute. by repeat split. Qed.

(** A session that loads a two-line script, configures the voices and
    generates all audio. *)
Lemma demo_generated_reachable :
  reachable demo_repr demo_convert demo_from_mp3 demo_export
    (run demo_repr demo_convert demo_from_mp3 demo_export
       [ LoadScript [Line "Presenter" "Welcome" None; Line "Host 1" "Hello" None] false;
         Navigate 2 (fun _ => "uid") [];
         Navigate 3 (fun _ => "uid") [];
         GenerateAll ]
       (init_session_state demo_voices, empty_db)).
Proof. apply reachable_run. constructor. Qed.

Lemma regenerate_changes_one_clip_and_line_witness :
  let w := run demo_repr demo_convert demo_from_mp3 demo_export
             [ LoadScript [Line "Presenter" "Welcome" None; Line "Host 1" "Hello" None] false;
               Navigate 2 (fun _ => "uid") [];
               Navigate 3 (fun _ => "uid") [];
               GenerateAll ]
             (init_session_state demo_voices, empty_db) in
  let st' := (regenerate demo_convert demo_from_mp3 0 "Hi" w.1).1 in
  length (audio_segments w.1) = 2%nat /\
  script st' !! 0%nat = Some (Line "Presenter" "Hi" None) /\
  script st' !! 1%nat = script w.1 !! 1%nat /\
  audio_segments st' !! 1%nat = audio_segments w.1 !! 1%nat /\
  config st' = config w.1.
Proof.
  intros w st'.
  assert (Hc : audio_segments w.1 !! 0%nat =
               Some (default ("", None) (audio_segments w.1 !! 0%nat)))
    by (vm_compute; reflexivity).
  assert (Hr : regenerate demo_convert demo_from_mp3 0 "Hi" w.1 = (st', Ok ()))
    by (vm_compute; reflexivity).
  destruct (regenerate_changes_one_clip_and_line demo_repr demo_convert demo_from_mp3 demo_export
              w.1 st' w.2 0 "Hi" _
              (eq_ind _ (reachable demo_repr demo_convert demo_from_mp3 demo_export)
                 demo_generated_reachable _ (surjective_pairing w)) Hc Hr)
    as (line & new_audio & Hline & _ & _ & _ & Hl0 & Hclips & Hlines & Hcfg & _).
  split; [vm_compute; reflexivity|].
  split; [|split; [by apply Hlines|split; [by apply Hclips|exact Hcfg]]].
  rewrite Hl0. assert (Hl : script w.1 !! 0%nat = Some (Line "Presenter" "Welcome" None))
    by (vm_compute; reflexivity).
  rewrite Hl in Hline. by injection Hline as <-.
Defined.

Lemma regenerate_resolves_by_label_witness :
  line_index "Line 3" = Ok 2 /\
  (idx ← line_index "Line 3"; py_index (script demo_stale_state) idx) = Raised IndexError /\
  (forall audio, Some [4] = Some audio ->
     render_clip demo_stale_state ("Line 3", Some [4]) = Raised IndexError) /\
  exists e, regenerate demo_convert demo_from_mp3 2 "Hi" demo_stale_state =
            (demo_stale_state, Raised e).
Proof.
  apply (regenerate_resolves_by_label demo_convert demo_from_mp3 demo_stale_state
           2 3 "Hi" ("Line 3", Some [4])).
  - reflexivity.
  - reflexivity.
  - vm_compute. lia.
Defined.

Lemma save_then_load_restores_witness :
  let db' := (save_progress demo_repr [] "2025-01-01 08:00:00 PST" empty_db "draft"
                (py_of_script (script demo_state)) (py_of_config demo_config)
                (Some (py_of_stored
                         (map (fun c => (c.1, b64encode <$> c.2)) demo_clips)))).1 in
  (exists row, progress db' = progress empty_db ++ [row] /\
               prog_id row = seq_progress empty_db + 1 /\ prog_name row = "draft") /\
  exists loaded stored,
    load_progress_by_id db' (seq_progress empty_db + 1) = Ok (Some loaded) /\
    loaded_script loaded = py_of_script (script demo_state) /\
    loaded_config loaded = py_of_config demo_config /\
    match loaded_audio_segments loaded with
    | Some v => stored_of_py v
    | None => Some []
    end = Some stored /\
    stored_payloads stored = Ok demo_clips.
Proof.
  destruct (save_then_load_restores demo_repr [] "2025-01-01 08:00:00 PST" empty_db
              (save_progress demo_repr [] "2025-01-01 08:00:00 PST" empty_db "draft"
                 (py_of_script (script demo_state)) (py_of_config demo_config)
                 (Some (py_of_stored
                          (map (fun c => (c.1, b64encode <$> c.2)) demo_clips)))).1
              "draft" (py_of_script (script demo_state)) (py_of_config demo_config)
              demo_clips)
    as (Hrow & loaded & stored & Hload & Hs & Hc & Hread & _ & Hpay).
  - constructor.
  - vm_compute. reflexivity.
  - vm_compute. reflexivity.
  - vm_compute. reflexivity.
  - split; [exact Hrow|]. exists loaded, stored.
    split; [exact Hload|]. split; [exact Hs|]. split; [exact Hc|]. split; [exact Hread|].
    apply Hpay. repeat constructor; discriminate.
Defined.

(** C9, counterexample.  A script loaded from JSON gives the speaker of its
    line as the number 1, and the configuration step keys the voice and the
    settings of that speaker by it.  The snapshot is saved and loaded: the
    script comes back as saved, the configuration comes back keyed by the
    string "1", which is not the key of the speaker of the script. *)
Lemma save_then_load_coerces_keys :
  let script_val :=
    PList [PDict [(PStr "speaker", PInt 1); (PStr "text", PStr "Hello")]] in
  let config_keyed key :=
    PDict [(PStr "intro_text", PStr ""); (PStr "intro_voice", PStr "");
           (PStr "outro_text", PStr ""); (PStr "outro_voice", PStr "");
           (PStr "intro_music", PNone);
           (PStr "podcasters", PDict [(key, PStr "Rachel")]);
           (PStr "voice_settings", py_of_settings default_settings);
           (PStr "voice_settings_per_speaker",
            PDict [(key, py_of_settings default_settings)])] in
  let saved := save_progress demo_repr [] "2025-01-01 08:00:00 PST" empty_db "draft"
                 script_val (config_keyed (PInt 1)) (Some (PList [])) in
  saved.2 = Ok () /\
  exists loaded,
    load_progress_by_id saved.1 1 = Ok (Some loaded) /\
    loaded_script loaded = script_val /\
    loaded_config loaded = config_keyed (PStr "1") /\
    loaded_config loaded <> config_keyed (PInt 1).
Proof.
  intros script_val config_keyed saved.
  split; [vm_compute; reflexivity|].
  eexists. split; [vm_compute; reflexivity|].
  split; [vm_compute; reflexivity|]. split; [vm_compute; reflexivity|].
  vm_compute. discriminate.
Qed.

(** A failing second statement: nothing of the podcast is kept. *)
Example save_podcast_rolled_back :
  save_podcast [false; true] "now" empty_db "Acme Weekly" (Some [x01]) None (Some [x02]) =
  (empty_db, Raised DatabaseError).
Proof. reflexivity. Qed.

Example save_podcast_committed :
  get_podcast_segments
    (save_podcast [] "now" empty_db "Acme Weekly" (Some [x01]) (Some []) (Some [x02])).1 1 =
  [("intro", [x01]); ("outro", [x02])].
Proof. reflexivity. Qed.

(** ** Further runs on the concrete session *)

Lemma generate_all_one_clip_per_line_witness :
  let st := demo_stale_state in
  let st' := (generate_all demo_convert demo_from_mp3 st).1 in
  generate_all demo_convert demo_from_mp3 st = (st', Ok ()) /\
  length (audio_segments st') = length (script st).
Proof.
  intros st st'.
  assert (H : generate_all demo_convert demo_from_mp3 st = (st', Ok ()))
    by (vm_compute; reflexivity).
  split; [exact H|].
  destruct (generate_all_one_clip_per_line demo_convert demo_from_mp3 st st' H)
    as (_ & Hlen & _).
  exact Hlen.
Defined.

Lemma regenerate_failure_keeps_state_witness :
  (regenerate demo_convert demo_from_mp3 2 "Hi" demo_stale_state).1 = demo_stale_state.
Proof.
  apply (regenerate_failure_keeps_state demo_convert demo_from_mp3 demo_stale_state _
           2 "Hi" IndexError).
  vm_compute. reflexivity.
Defined.

Lemma add_below_inserts_blank_line_witness :
  script (step_3 str_nat (fun _ => None) (fun _ => None) (AddBelow 0 "new") demo_state).1
    !! 1%nat = Some (Line "" "" (Some "new")).
Proof.
  destruct (add_below_inserts_blank_line str_nat (fun _ => None) (fun _ => None) 0 "new"
              demo_state) as [H _].
  - cbn. lia.
  - destruct H as (_ & _ & H & _); [|exact H].
    apply (bool_decide_unpack _). vm_compute. exact I.
Defined.

Lemma delete_dialog_removes_one_line_witness :
  S (length (script (step_3 str_nat (fun _ => None) (fun _ => None) (DeleteDialog 1)
                       demo_state).1)) = length (script demo_state).
Proof.
  destruct (delete_dialog_removes_one_line str_nat (fun _ => None) (fun _ => None) 1
              demo_state) as [H _].
  - cbn. lia.
  - destruct H as (_ & H & _); [|exact H].
    apply (bool_decide_unpack _). vm_compute. exact I.
Defined.

Lemma save_podcast_then_get_segments_witness :
  let db' := (save_podcast [] "now" empty_db "Acme Weekly"
                (Some [x01]) (Some []) (Some [x02])).1 in
  get_podcast_segments db' 1 = provided_segments (Some [x01]) (Some []) (Some [x02]) /\
  dict_get (get_podcast_segments_dict db' 1) "hosts_discussion" = None.
Proof.
  intros db'.
  destruct (save_podcast_then_get_segments [] "now" empty_db db' "Acme Weekly"
              (Some [x01]) (Some []) (Some [x02]) 1) as (H1 & _ & H3 & _).
  - unfold ids_ok. cbn. repeat split; constructor.
  - reflexivity.
  - split; [exact H1|exact H3].
Defined.

Lemma reachable_ids_unique_witness :
  let w := run demo_repr demo_convert demo_from_mp3 demo_export
             [ LoadScript [Line "Presenter" "Welcome" None; Line "Host 1" "Hello" None] false;
               Navigate 2 (fun _ => "uid") [];
               Navigate 3 (fun _ => "uid") [];
               GenerateAll;
               SaveProgress "draft" [] "2025-01-01 08:00:00" ]
             (init_session_state demo_voices, empty_db) in
  let w' := run demo_repr demo_convert demo_from_mp3 demo_export
              [ DeleteProgress 1 [];
                SaveProgress "again" [] "2025-01-01 08:05:00";
                Navigate 4 (fun _ => "uid") [];
                FinalizePage "Acme" "Weekly" true [] "2025-01-01 08:10:00" ]
              w in
  ids_ok w'.2 /\
  seq_podcasts w.2 <= seq_podcasts w'.2 /\
  seq_progress w.2 <= seq_progress w'.2 /\
  (forall r, r ∈ podcasts w'.2 -> r ∈ podcasts w.2 \/ seq_podcasts w.2 < pod_id r) /\
  (forall r, r ∈ progress w'.2 -> r ∈ progress w.2 \/ seq_progress w.2 < prog_id r).
Proof.
  intros w w'.
  apply (reachable_ids_unique demo_repr demo_convert demo_from_mp3 demo_export w w').
  - apply reachable_run. constructor.
  - apply later_run. constructor.
Defined.

(** The run above: the snapshot saved after the deletion of row 1 has id 2. *)
Example deleted_id_not_reused :
  map prog_id
    (progress
       (run demo_repr demo_convert demo_from_mp3 demo_export
          [ LoadScript [Line "Presenter" "Welcome" None; Line "Host 1" "Hello" None] false;
            Navigate 2 (fun _ => "uid") [];
            Navigate 3 (fun _ => "uid") [];
            GenerateAll;
            SaveProgress "draft" [] "2025-01-01 08:00:00";
            DeleteProgress 1 [];
            SaveProgress "again" [] "2025-01-01 08:05:00" ]
          (init_session_state demo_voices, empty_db)).2) = [2].
Proof. vm_compute. reflexivity. Qed.


Lemma finalize_failure_can_be_retried_witness :
  let r := step_6 demo_export "Acme" "Weekly" true [true] "now" (demo_state, empty_db) in
  r.2 = Ok () /\
  r.1.2 = empty_db /\
  podcast_finalized r.1.1 = Some false /\
  step_6_view "Acme" "Weekly" r.1.1 = OfferFinalize.
Proof.
  apply (finalize_failure_can_be_retried demo_export "Acme" "Weekly" [true] "now"
           demo_state empty_db empty_db
           (default (Buckets [] [] []) (match assemble (audio_segments demo_state) with
                                        | Ok b => Some b
                                        | Raised _ => None
                                        end))
           DatabaseError).
  - vm_compute. reflexivity.
  - vm_compute. reflexivity.
  - vm_compute. reflexivity.
Defined.

Lemma save_click_then_load_click_witness :
  let db' := (save_progress_click demo_repr demo_export "draft" [] "now" (demo_state, empty_db)).1.2 in
  exists r,
    load_progress_click demo_from_mp3 1 (init_session_state demo_voices, db') = Some r /\
    script r.1.1 = script demo_state /\ config r.1.1 = config demo_state.
Proof.
  intros db'.
  destruct (save_click_then_load_click demo_repr demo_from_mp3 demo_export "draft" [] "now" demo_state
              (init_session_state demo_voices) empty_db db') as (r & H0 & H1 & H2 & _).
  - constructor.
  - reflexivity.
  - intros [|z a] Ha; [vm_compute in Ha; discriminate|discriminate].
  - vm_compute. reflexivity.
  - exists r. split; [exact H0|]. split; [exact H1|exact H2].
Defined.

Lemma load_click_failure_is_partial_witness :
  let db := (save_progress_click demo_repr demo_export "draft" [] "now" (demo_state, empty_db)).1.2 in
  let st' := set_config (set_script (init_session_state demo_voices) (script demo_state))
               (config demo_state) in
  load_progress_click (fun _ => None) 1 (init_session_state demo_voices, db) =
    Some ((st', db), Raised CouldntDecodeError) /\
  audio_segments st' = [] /\
  script st' = script demo_state.
Proof.
  intros db st'.
  assert (H : load_progress_click (fun _ => None) 1 (init_session_state demo_voices, db) =
              Some ((st', db), Raised CouldntDecodeError))
    by (vm_compute; reflexivity).
  destruct (load_click_failure_is_partial (fun _ => None) 1 _ _ _ _ _ H) as (_ & H2 & _).
  split; [exact H|]. split; [exact H2|]. reflexivity.
Defined.

Lemma configure_replaces_stale_voice_witness :
  let st := MkState [Line "Host 1" "Hello" None]
              (MkConfig "" "" "" "" None (<["Host 1" := "Retired"]> ∅) default_settings None)
              [] 4 demo_voices None true in
  podcasters (config (configure_podcaster (fun _ => None) (fun _ => None) "Host 1" st).1)
    !! "Host 1" = Some "Rachel".
Proof.
  intros st.
  destruct (configure_replaces_stale_voice (fun _ => None) "Host 1" "Retired" st
              "Rachel" (MkVoice "v-rachel" []) [("Eric Smooth", MkVoice "v-eric" [])])
    as (_ & _ & H).
  - reflexivity.
  - vm_compute. reflexivity.
  - apply H. cbn. intros [E|[E|[]]]; discriminate.
Defined.

Lemma configure_podcaster_frame_witness :
  let st' := (configure_podcaster (fun _ => Some "Eric Smooth") (fun _ => None) "Host 1"
                demo_state).1 in
  podcasters (config st') !! "Presenter" = podcasters (config demo_state) !! "Presenter" /\
  script st' = script demo_state /\
  audio_segments st' = audio_segments demo_state.
Proof.
  intros st'.
  destruct (configure_podcaster_frame (fun _ => Some "Eric Smooth") (fun _ => None) "Host 1"
              demo_state "Rachel" (MkVoice "v-rachel" [])
              [("Eric Smooth", MkVoice "v-eric" [])])
    as (Hq & _ & Hs & Ha & _).
  - reflexivity.
  - split; [|split; [exact Hs|exact Ha]].
    apply (Hq "Presenter"). discriminate.
Defined.


Lemma masked_key_hides_the_middle_witness :
  let key := chars "sk_0123456789abcdef" in
  length (masked_chars key) = length key /\
  take 4 (masked_chars key) = chars "sk_0" /\
  masked_chars key !! 9%nat = Some "*"%char.
Proof.
  intros key.
  destruct (masked_key_hides_the_middle key) as (H1 & H2 & _ & H4).
  - cbn. lia.
  - split; [exact H1|]. split; [exact H2|]. apply H4. cbn. lia.
Defined.

Lemma masked_key_short_key_exposed_witness :
  let key := chars "secret" in
  masked_chars key = chars "secr" ++ chars "cret" /\
  key = take 4 (masked_chars key) ++ drop 6 (masked_chars key).
Proof.
  intros key.
  destruct (masked_key_short_key_exposed key) as (H1 & H2 & _).
  - cbn. lia.
  - split; [exact H1|]. apply H2. cbn. lia.
Defined.

Lemma reachable_cache_labels_witness :
  let w := run demo_repr demo_convert demo_from_mp3 demo_export
             [ LoadScript [Line "Presenter" "Welcome" None; Line "Host 1" "Hello" None] false;
               Navigate 2 (fun _ => "uid") [];
               Navigate 3 (fun _ => "uid") [];
               GenerateAll ]
             (init_session_state demo_voices, empty_db) in
  let c := default ("", None) (audio_segments w.1 !! 1%nat) in
  c.1 = "Line 2" /\ line_index c.1 = Ok 1.
Proof.
  intros w c.
  apply (reachable_cache_labels demo_repr demo_convert demo_from_mp3 demo_export w 1 c).
  - apply reachable_run. constructor.
  - vm_compute. reflexivity.
Defined.

(** The company filter drops the first podcast; the option chosen is the
    only one offered, yet the podcast shown is the first of the whole list. *)
Lemma step_7_shows_by_position_witness :
  let acme := MkPodcast 1 "Acme Weekly" "2025-01-02 09:00:00" "2025-01-02 09:00:00" in
  let bolt := MkPodcast 2 "Bolt Daily" "2025-01-01 09:00:00" "2025-01-01 09:00:00" in
  step_7 (fun s => s) [acme; bolt] "Bolt" (podcast_label bolt) = Ok (Shown acme) /\
  exists k q,
    filtered_podcasts (fun s => s) [acme; bolt] "Bolt" !! k = Some q /\
    podcast_label q = podcast_label bolt /\
    [acme; bolt] !! k = Some acme.
Proof.
  intros acme bolt.
  assert (H : step_7 (fun s => s) [acme; bolt] "Bolt" (podcast_label bolt) = Ok (Shown acme))
    by (vm_compute; reflexivity).
  split; [exact H|].
  destruct (step_7_shows_by_position (fun s => s) _ _ _ _ H) as (k & q & H1 & H2 & _ & H4 & _).
  exists k, q. split; [exact H1|]. split; [exact H2|exact H4].
Defined.

Lemma step_7_no_exception_witness :
  let w := run demo_repr demo_convert demo_from_mp3 demo_export
             [ LoadScript [Line "Presenter" "Welcome" None; Line "Host 1" "Hello" None] false;
               Navigate 2 (fun _ => "uid") [];
               Navigate 3 (fun _ => "uid") [];
               GenerateAll;
               Navigate 4 (fun _ => "uid") [];
               FinalizePage "Acme" "Weekly" true [] "2025-01-01 08:05:00" ]
             (init_session_state demo_voices, empty_db) in
  length (podcasts w.2) = 1%nat /\
  exists page,
    step_7 (fun s => s) (podcasts w.2) "Acme"
      "Acme Weekly  |  2025-01-01 08:05:00" = Ok page.
Proof.
  intros w. split; [vm_compute; reflexivity|].
  apply (step_7_no_exception demo_repr demo_convert demo_from_mp3 demo_export (fun s => s) w).
  - apply reachable_run. constructor.
  - reflexivity.
  - vm_compute. right. left.
Defined.
